(** * Claro: a shallow embedding of the interpreter in [claro.c]

    The development follows the source file top-down: character classes and
    string utilities, the tokenizer, the recursive-descent expression
    evaluator, the variable store, function invocation and the statement
    dispatcher [execute_line].

    Doubles are Rocq's primitive binary64 floats.  The two libc conversions
    the interpreter relies on ([strtod] and [snprintf] with the [%g] format)
    are an interface, [Libc]; an instance for decimal literals is given
    further down and is used for the concrete runs.

    [setjmp]/[longjmp] are modelled explicitly.  Every activation of
    [execute_line] and [execute_function] receives a fresh frame number; a
    [jmp_buf] holds the frame and the [setjmp] site that filled it last; a
    [longjmp] is an outcome that travels outwards until the activation that
    owns the buffer's frame receives it.  A jump whose frame has already
    returned is never received: it is undefined behaviour in C and surfaces
    as such at the top level. *)

From Stdlib Require Import Bool Arith ZArith Lia List Ascii String Floats.
From Stdlib Require Import DecimalString.
Import ListNotations.

Local Open Scope string_scope.
Local Open Scope list_scope.
Local Open Scope nat_scope.

Infix "+++" := String.append (right associativity, at level 60).

(** ** Limits for fixed-size arrays *)

Definition MAX_LINE_LENGTH : nat := 256.
Definition MAX_BLOCK_LINES : nat := 100.
Definition MAX_CALL_STACK_DEPTH : nat := 100.
Definition MAX_VARIABLES : nat := 100.
Definition MAX_FUNCTIONS : nat := 100.

(** ** Character classes of <ctype.h> in the C locale *)

Module Ctype.

Definition code (c : ascii) : nat := nat_of_ascii c.

Definition between (lo hi : nat) (c : ascii) : bool :=
  (lo <=? code c) && (code c <=? hi).

Definition isspace (c : ascii) : bool :=
  (code c =? 32) || between 9 13 c.

Definition isdigit (c : ascii) : bool := between 48 57 c.

Definition isupper (c : ascii) : bool := between 65 90 c.

Definition islower (c : ascii) : bool := between 97 122 c.

Definition isalnum (c : ascii) : bool :=
  isdigit c || isupper c || islower c.

Definition toupper (c : ascii) : ascii :=
  if islower c then ascii_of_nat (code c - 32) else c.

End Ctype.

(** ** String utilities *)

Definition eqb_char (a b : ascii) : bool := Ascii.eqb a b.

Fixpoint string_map (f : ascii -> ascii) (s : string) : string :=
  match s with
  | EmptyString => EmptyString
  | String c s' => String (f c) (string_map f s')
  end.

(** The in-place loop that applies [toupper] to every character. *)
Definition upcase (s : string) : string := string_map Ctype.toupper s.

(** [strcmp(a, b) == 0] *)
Definition strcmp_eq (a b : string) : bool := String.eqb a b.

(** [strcasecmp(a, b) == 0] *)
Definition strcasecmp_eq (a b : string) : bool :=
  String.eqb (upcase a) (upcase b).

Fixpoint string_take (n : nat) (s : string) : string :=
  match n, s with
  | S n', String c s' => String c (string_take n' s')
  | _, _ => EmptyString
  end.

Fixpoint string_drop (n : nat) (s : string) : string :=
  match n, s with
  | S n', String _ s' => string_drop n' s'
  | _, _ => s
  end.

(** [strncmp(s, p, strlen(p)) == 0] *)
Definition strncmp_eq (s p : string) : bool :=
  String.eqb (string_take (String.length p) s) p.

(** [strncasecmp(s, p, strlen(p)) == 0] *)
Definition strncasecmp_eq (s p : string) : bool :=
  String.eqb (upcase (string_take (String.length p) s)) (upcase p).

(** The character [s[n]]; the terminating NUL beyond the end. *)
Definition char_at (n : nat) (s : string) : ascii :=
  match String.get n s with
  | Some c => c
  | None => Ascii.zero
  end.

(** The loop that advances a pointer over blanks: [while (isspace(c)) p++]. *)
Fixpoint skip_spaces (s : string) : string :=
  match s with
  | String c s' => if Ctype.isspace c then skip_spaces s' else s
  | EmptyString => EmptyString
  end.

Fixpoint string_rev_onto (s acc : string) : string :=
  match s with
  | EmptyString => acc
  | String c s' => string_rev_onto s' (String c acc)
  end.

Definition string_rev (s : string) : string := string_rev_onto s EmptyString.

(** What [trim_whitespace] leaves in the caller's buffer: the text is cut
    after its last non-space character, unless it is all spaces (the function
    returns before writing anything in that case). *)
Definition trim_in_place (buf : string) : string :=
  match skip_spaces buf with
  | EmptyString => buf
  | _ => string_rev (skip_spaces (string_rev buf))
  end.

(** The pointer [trim_whitespace] returns: leading spaces skipped as well. *)
Definition trim_whitespace (buf : string) : string :=
  skip_spaces (trim_in_place buf).

(** [line[strcspn(line, "\n")] = '\0';] *)
Fixpoint strip_newline (s : string) : string :=
  match s with
  | EmptyString => EmptyString
  | String c s' =>
      if eqb_char c "010"%char then EmptyString else String c (strip_newline s')
  end.

(** ** Tokenizer *)

(** The inner copy loops of [tokenize]: copy characters into [token] while
    [stop] does not hold and [pos < MAX_LINE_LENGTH - 1]. *)
Fixpoint copy_until (stop : ascii -> bool) (room : nat) (p : string)
  : string * string :=
  match room, p with
  | S room', String c p' =>
      if stop c then (EmptyString, p)
      else let (tok, rest) := copy_until stop room' p' in (String c tok, rest)
  | _, _ => (EmptyString, p)
  end.

Definition is_quote (c : ascii) : bool := eqb_char c (ascii_of_nat 34).

Fixpoint tokenize_loop (fuel : nat) (p : string) : list string :=
  match fuel with
  | O => []
  | S fuel' =>
      match skip_spaces p with
      | EmptyString => []
      | String c p' =>
          if is_quote c then
            let (token, rest) := copy_until is_quote (MAX_LINE_LENGTH - 1) p' in
            let rest' := match rest with
                         | String q r => if is_quote q then r else rest
                         | EmptyString => rest
                         end in
            ("S:" +++ token) :: tokenize_loop fuel' rest'
          else
            let (token, rest) :=
              copy_until Ctype.isspace (MAX_LINE_LENGTH - 1) (String c p') in
            token :: tokenize_loop fuel' rest
      end
  end.

(** Every round of the outer loop consumes at least one character, so the
    length of the line bounds the number of rounds. *)
Definition tokenize (line : string) : list string :=
  tokenize_loop (String.length line) line.

(** The text that the loop of [join_tokens] appends to [result]: the tokens
    of index [start .. token_count - 1], one blank between neighbours. *)
Definition joined_text (tokens : list string) (start token_count : nat) : string :=
  String.concat " " (firstn (token_count - start) (skipn start tokens)).

(** [join_tokens(tokens, start, token_count)]: [result] is a block of
    [MAX_LINE_LENGTH] bytes filled with [strcat], and no length is checked.
    [None] when the text and its terminator do not fit: the writes past the
    block are undefined. *)
Definition join_tokens (tokens : list string) (start token_count : nat)
  : option string :=
  let result := joined_text tokens start token_count in
  if String.length result <? MAX_LINE_LENGTH then Some result else None.

(** ** The libc conversions *)

Class Libc : Type := {
  (** [strtod(s, &end)]: the value and the unread rest ([s] itself when no
      conversion is performed). *)
  strtod : string -> float * string;
  (** [snprintf(buf, sizeof buf, "%g", x)] *)
  format_g : float -> string;
  strtod_rest : forall s, String.length (snd (strtod s)) <= String.length s
}.

(** [atof(s)] is [strtod(s, NULL)]. *)
Definition atof `{Libc} (s : string) : float := fst (strtod s).

(** [atoi]: optional blanks, an optional sign, decimal digits.
    [atoi_value] is the number that is written; [atoi] returns it as an
    [int], and C leaves the behaviour undefined when the value cannot be
    represented: [None]. *)
Fixpoint atoi_digits (s : string) (acc : Z) : Z :=
  match s with
  | String c s' =>
      if Ctype.isdigit c
      then atoi_digits s' (10 * acc + Z.of_nat (Ctype.code c - 48))
      else acc
  | EmptyString => acc
  end.

Definition atoi_value (s : string) : Z :=
  match skip_spaces s with
  | String "-" s' => - atoi_digits s' 0
  | String "+" s' => atoi_digits s' 0
  | s' => atoi_digits s' 0
  end.

Definition INT_MIN : Z := -2147483648.
Definition INT_MAX : Z := 2147483647.

Definition atoi (s : string) : option Z :=
  let value := atoi_value s in
  if ((INT_MIN <=? value) && (value <=? INT_MAX))%Z then Some value else None.

(** [printf("%d", n)] *)
Definition format_d (n : Z) : string := NilZero.string_of_int (Z.to_int n).

(** ** Data model *)

Inductive VarType : Type := TYPE_INT | TYPE_FLOAT | TYPE_STRING.

(** Numeric values are stored as strings (formatted with [%g]). *)
(** The struct [Variable] of the source ([Variable] is reserved in Rocq). *)
Record Var : Type := mkVariable {
  var_name : string;
  var_type : VarType;
  var_value : string
}.

(** [param_count] and [code_line_count] are the lengths of the two lists. *)
Record FunctionDef : Type := mkFunctionDef {
  fn_name : string;
  params : list string;
  fn_code_lines : list string
}.

(** The places of the program that call [setjmp]. *)
Inductive setjmp_site : Type :=
| MainSite        (* main, on error_buf *)
| LineSite        (* the head of execute_line, on error_buf *)
| TrySite         (* the TRY branch of execute_line, on error_buf *)
| FunctionSite.   (* execute_function, on function_return_buf *)

(** A filled [jmp_buf]: the activation that called [setjmp] and where. *)
Record jmp_point : Type := mkJmp {
  jmp_frame : nat;
  jmp_site : setjmp_site
}.

(** A [jmp_buf] is [None] until the first [setjmp] on it. *)
Definition jmp_buf : Type := option jmp_point.

(** [variable_count], [function_count] and [call_stack_depth] are the lengths
    of [variables], [functions] and [call_stack]: the arrays are only ever
    read below their counters. *)
Record InterpreterContext : Type := mkContext {
  code_lines : list string;
  current_line : Z;
  debug_mode : bool;
  high_contrast_mode : bool;
  audio_mode : bool;
  error_buf : jmp_buf;
  variables : list Var;
  functions : list FunctionDef;
  call_stack : list string;
  in_function : bool;
  function_return_value : float;
  function_return_buf : jmp_buf
}.

Definition variable_count (ctx : InterpreterContext) : nat :=
  List.length (variables ctx).

Definition function_count (ctx : InterpreterContext) : nat :=
  List.length (functions ctx).

Definition call_stack_depth (ctx : InterpreterContext) : nat :=
  List.length (call_stack ctx).

(** Field updates. *)
Definition set_code_lines (v : list string) (c : InterpreterContext) :=
  mkContext v (current_line c) (debug_mode c) (high_contrast_mode c)
    (audio_mode c) (error_buf c) (variables c) (functions c) (call_stack c)
    (in_function c) (function_return_value c) (function_return_buf c).
Definition set_current_line (v : Z) (c : InterpreterContext) :=
  mkContext (code_lines c) v (debug_mode c) (high_contrast_mode c)
    (audio_mode c) (error_buf c) (variables c) (functions c) (call_stack c)
    (in_function c) (function_return_value c) (function_return_buf c).
Definition set_debug_mode (v : bool) (c : InterpreterContext) :=
  mkContext (code_lines c) (current_line c) v (high_contrast_mode c)
    (audio_mode c) (error_buf c) (variables c) (functions c) (call_stack c)
    (in_function c) (function_return_value c) (function_return_buf c).
Definition set_high_contrast_mode (v : bool) (c : InterpreterContext) :=
  mkContext (code_lines c) (current_line c) (debug_mode c) v
    (audio_mode c) (error_buf c) (variables c) (functions c) (call_stack c)
    (in_function c) (function_return_value c) (function_return_buf c).
Definition set_audio_mode (v : bool) (c : InterpreterContext) :=
  mkContext (code_lines c) (current_line c) (debug_mode c)
    (high_contrast_mode c) v (error_buf c) (variables c) (functions c)
    (call_stack c) (in_function c) (function_return_value c)
    (function_return_buf c).
Definition set_error_buf (v : jmp_buf) (c : InterpreterContext) :=
  mkContext (code_lines c) (current_line c) (debug_mode c)
    (high_contrast_mode c) (audio_mode c) v (variables c) (functions c)
    (call_stack c) (in_function c) (function_return_value c)
    (function_return_buf c).
Definition set_variables (v : list Var) (c : InterpreterContext) :=
  mkContext (code_lines c) (current_line c) (debug_mode c)
    (high_contrast_mode c) (audio_mode c) (error_buf c) v (functions c)
    (call_stack c) (in_function c) (function_return_value c)
    (function_return_buf c).
Definition set_functions (v : list FunctionDef) (c : InterpreterContext) :=
  mkContext (code_lines c) (current_line c) (debug_mode c)
    (high_contrast_mode c) (audio_mode c) (error_buf c) (variables c) v
    (call_stack c) (in_function c) (function_return_value c)
    (function_return_buf c).
Definition set_call_stack (v : list string) (c : InterpreterContext) :=
  mkContext (code_lines c) (current_line c) (debug_mode c)
    (high_contrast_mode c) (audio_mode c) (error_buf c) (variables c)
    (functions c) v (in_function c) (function_return_value c)
    (function_return_buf c).
Definition set_in_function (v : bool) (c : InterpreterContext) :=
  mkContext (code_lines c) (current_line c) (debug_mode c)
    (high_contrast_mode c) (audio_mode c) (error_buf c) (variables c)
    (functions c) (call_stack c) v (function_return_value c)
    (function_return_buf c).
Definition set_function_return_value (v : float) (c : InterpreterContext) :=
  mkContext (code_lines c) (current_line c) (debug_mode c)
    (high_contrast_mode c) (audio_mode c) (error_buf c) (variables c)
    (functions c) (call_stack c) (in_function c) v (function_return_buf c).
Definition set_function_return_buf (v : jmp_buf) (c : InterpreterContext) :=
  mkContext (code_lines c) (current_line c) (debug_mode c)
    (high_contrast_mode c) (audio_mode c) (error_buf c) (variables c)
    (functions c) (call_stack c) (in_function c) (function_return_value c) v.

(** ** Variable handling *)

(** The update loop of [set_variable]: the first entry called [name] gets the
    new value and type; [None] when no entry has that name. *)
Fixpoint update_variable (vars : list Var) (name value : string)
  (type : VarType) : option (list Var) :=
  match vars with
  | [] => None
  | v :: vars' =>
      if strcmp_eq (var_name v) name
      then Some (mkVariable (var_name v) type value :: vars')
      else match update_variable vars' name value type with
           | Some vars'' => Some (v :: vars'')
           | None => None
           end
  end.

(** The store after [set_variable], and whether the variable limit was hit
    (the caller of this helper prints the error). *)
Definition store_variable (vars : list Var) (name value : string)
  (type : VarType) : list Var * bool :=
  match update_variable vars name value type with
  | Some vars' => (vars', false)
  | None =>
      if List.length vars <? MAX_VARIABLES
      then (vars ++ [mkVariable name type value], false)
      else (vars, true)
  end.

Fixpoint lookup_variable (vars : list Var) (name : string) : option string :=
  match vars with
  | [] => None
  | v :: vars' =>
      if strcmp_eq (var_name v) name then Some (var_value v)
      else lookup_variable vars' name
  end.

(** [get_variable]: [None] is the NULL pointer. *)
Definition get_variable (ctx : InterpreterContext) (name : string) : option string :=
  lookup_variable (variables ctx) name.

(** ** Expression parser (double precision arithmetic) *)

(** What a parser function does: it returns a value and leaves the cursor on
    [rest], or it reports [msg] with [print_error] and leaves through
    [longjmp(ctx->error_buf, 1)]. *)
Inductive parse_result : Type :=
| PVal (v : float) (rest : string)
| PFault (msg : string)
| PFuel.

Definition pbind (r : parse_result) (k : float -> string -> parse_result)
  : parse_result :=
  match r with
  | PVal v rest => k v rest
  | PFault msg => PFault msg
  | PFuel => PFuel
  end.

Definition float_of_bool (b : bool) : float := if b then 1%float else 0%float.

(** [strncasecmp(str, lit, n) == 0 && !isalnum(str[n])] *)
Definition is_literal (lit s : string) : bool :=
  strncasecmp_eq s lit && negb (Ctype.isalnum (char_at (String.length lit) s)).

Definition is_ident_char (c : ascii) : bool :=
  Ctype.isalnum c || eqb_char c "_"%char.

Definition starts_number (s : string) : bool :=
  match s with
  | String c _ => Ctype.isdigit c || eqb_char c "."%char
  | EmptyString => false
  end.

(** The loop of [parse_factor] that copies a variable name into [varname]. *)
Definition scan_identifier (str : string) : string * string :=
  copy_until (fun c => negb (is_ident_char c)) (MAX_LINE_LENGTH - 1) str.

Definition MSG_PAREN : string :=
  "Oops! It looks like you forgot a closing parenthesis.".
Definition MSG_DIV0 : string := "Division by zero is not allowed.".

Section Parser.

Context `{Libc}.
Variable ctx : InterpreterContext.

Fixpoint parse_factor (fuel : nat) (str : string) : parse_result :=
  match fuel with
  | O => PFuel
  | S fuel' =>
      let str := skip_spaces str in
      if is_literal "true" str then PVal 1%float (string_drop 4 str)
      else if is_literal "false" str then PVal 0%float (string_drop 5 str)
      else if eqb_char (char_at 0 str) "("%char then
        pbind (parse_comparison fuel' (string_drop 1 str)) (fun result str2 =>
          let str3 := skip_spaces str2 in
          if eqb_char (char_at 0 str3) ")"%char then PVal result (string_drop 1 str3)
          else PFault MSG_PAREN)
      else if starts_number str then
        let (result, rest) := strtod str in PVal result rest
      else
        let (varname, rest) := scan_identifier str in
        match get_variable ctx varname with
        | Some val => PVal (atof val) rest
        | None => PVal 0%float rest
        end
  end

with parse_term_loop (fuel : nat) (result : float) (str : string) : parse_result :=
  match fuel with
  | O => PFuel
  | S fuel' =>
      match str with
      | EmptyString => PVal result str
      | _ =>
          let str' := skip_spaces str in
          let op := char_at 0 str' in
          if eqb_char op "*"%char then
            pbind (parse_factor fuel' (string_drop 1 str')) (fun rhs str2 =>
              parse_term_loop fuel' (result * rhs)%float str2)
          else if eqb_char op "/"%char then
            pbind (parse_factor fuel' (string_drop 1 str')) (fun rhs str2 =>
              if PrimFloat.eqb rhs 0%float then PFault MSG_DIV0
              else parse_term_loop fuel' (result / rhs)%float str2)
          else PVal result str'
      end
  end

with parse_term (fuel : nat) (str : string) : parse_result :=
  match fuel with
  | O => PFuel
  | S fuel' =>
      pbind (parse_factor fuel' str) (fun result str1 =>
        parse_term_loop fuel' result str1)
  end

with parse_expression_loop (fuel : nat) (result : float) (str : string)
  : parse_result :=
  match fuel with
  | O => PFuel
  | S fuel' =>
      match str with
      | EmptyString => PVal result str
      | _ =>
          let str' := skip_spaces str in
          let op := char_at 0 str' in
          if eqb_char op "+"%char then
            pbind (parse_term fuel' (string_drop 1 str')) (fun rhs str2 =>
              parse_expression_loop fuel' (result + rhs)%float str2)
          else if eqb_char op "-"%char then
            pbind (parse_term fuel' (string_drop 1 str')) (fun rhs str2 =>
              parse_expression_loop fuel' (result - rhs)%float str2)
          else PVal result str'
      end
  end

with parse_expression (fuel : nat) (str : string) : parse_result :=
  match fuel with
  | O => PFuel
  | S fuel' =>
      pbind (parse_term fuel' str) (fun result str1 =>
        parse_expression_loop fuel' result str1)
  end

with parse_comparison_loop (fuel : nat) (left : float) (str : string)
  : parse_result :=
  match fuel with
  | O => PFuel
  | S fuel' =>
      match str with
      | EmptyString => PVal left str
      | _ =>
          let str' := skip_spaces str in
          let compare (width : nat) (op : float -> float -> bool) :=
            pbind (parse_expression fuel' (string_drop width str'))
              (fun right str2 =>
                 parse_comparison_loop fuel' (float_of_bool (op left right)) str2) in
          if strncmp_eq str' "==" then compare 2 PrimFloat.eqb
          else if strncmp_eq str' "!=" then
            compare 2 (fun a b => negb (PrimFloat.eqb a b))
          else if strncmp_eq str' "<=" then compare 2 PrimFloat.leb
          else if strncmp_eq str' ">=" then compare 2 (fun a b => PrimFloat.leb b a)
          else if strncmp_eq str' "<" then compare 1 PrimFloat.ltb
          else if strncmp_eq str' ">" then compare 1 (fun a b => PrimFloat.ltb b a)
          else PVal left str'
      end
  end

with parse_comparison (fuel : nat) (str : string) : parse_result :=
  match fuel with
  | O => PFuel
  | S fuel' =>
      pbind (parse_expression fuel' str) (fun left str1 =>
        parse_comparison_loop fuel' left str1)
  end.

(** Four units of fuel per character are enough for the recursive descent
    (see [parse_comparison_total]). *)
Definition expression_fuel (expr : string) : nat := 4 * (String.length expr + 1).

Definition evaluate_expression (expr : string) : parse_result :=
  parse_comparison (expression_fuel expr) expr.

End Parser.

(** ** An instance of the libc conversions

    [strtod] for the decimal forms of C99 (blanks, sign, digits with an
    optional point, an optional exponent, and the words inf, infinity and
    nan), correctly rounded to nearest-even; hexadecimal literals are not
    read.  [format_g] is the [%g] conversion with the default precision 6;
    a NaN is always printed without a sign. *)

Module C99.

Local Open Scope Z_scope.

(** The double nearest to [p / q] (ties to even), for positive [p] and [q]. *)
Definition float_of_ratio (p q : Z) : float :=
  let l := Z.log2 p - Z.log2 q in
  let reaches := if 0 <=? l then q * 2 ^ l <=? p else q <=? p * 2 ^ (- l) in
  let lg := if reaches then l else l - 1 in
  let e := Z.max (lg - 52) (-1074) in
  let num := if 0 <=? e then p else p * 2 ^ (- e) in
  let den := if 0 <=? e then q * 2 ^ e else q in
  let m := num / den in
  let r := num mod den in
  let m' := if (den <? 2 * r) || ((den =? 2 * r) && Z.odd m) then m + 1 else m in
  FloatOps.Z.ldexp (PrimFloat.of_uint63 (Uint63.of_Z m')) e.

Definition decimal_length (z : Z) : Z :=
  Z.of_nat (String.length (NilZero.string_of_uint (N.to_uint (Z.to_N z)))).

(** The double nearest to [m * 10 ^ e10], for [0 <= m]. *)
Definition float_of_decimal (m e10 : Z) : float :=
  if m =? 0 then 0%float
  else if 309 <=? decimal_length m - 1 + e10 then infinity
  else if decimal_length m + e10 <=? -325 then 0%float
  else if 0 <=? e10 then float_of_ratio (m * 10 ^ e10) 1
  else float_of_ratio m (10 ^ (- e10)).

(** Decimal digits read from the front of [s]: the accumulated value, how
    many digits were read, and the rest. *)
Fixpoint read_digits (s : string) (acc : Z) (count : Z) : Z * Z * string :=
  match s with
  | String c s' =>
      if Ctype.isdigit c
      then read_digits s' (10 * acc + Z.of_nat (Ctype.code c - 48)) (count + 1)
      else (acc, count, s)
  | EmptyString => (acc, count, s)
  end.

Definition read_sign (s : string) : bool * string :=
  match s with
  | String "-" s' => (true, s')
  | String "+" s' => (false, s')
  | _ => (false, s)
  end.

(** The exponent part: [e] or [E], an optional sign and at least one digit;
    otherwise nothing is read. *)
Definition read_exponent (s : string) : Z * string :=
  match s with
  | String c s' =>
      if eqb_char (Ctype.toupper c) "E"%char then
        let (neg, s1) := read_sign s' in
        match read_digits s1 0 0 with
        | (v, n, s2) => if n =? 0 then (0, s) else ((if neg then - v else v), s2)
        end
      else (0, s)
  | EmptyString => (0, s)
  end.

Definition apply_sign (neg : bool) (x : float) : float :=
  if neg then (- x)%float else x.

Definition strtod (s : string) : float * string :=
  let (neg, s1) := read_sign (skip_spaces s) in
  if strncasecmp_eq s1 "infinity" then (apply_sign neg infinity, string_drop 8 s1)
  else if strncasecmp_eq s1 "inf" then (apply_sign neg infinity, string_drop 3 s1)
  else if strncasecmp_eq s1 "nan" then (nan, string_drop 3 s1)
  else
    match read_digits s1 0 0 with
    | (ip, ni, s2) =>
        let '(m, nf, s3) :=
          match s2 with
          | String "." s2' => read_digits s2' ip 0
          | _ => (ip, 0, s2)
          end in
        if ni + nf =? 0 then (0%float, s)
        else
          let (ex, s4) := read_exponent s3 in
          (apply_sign neg (float_of_decimal m (ex - nf)), s4)
    end.

(** [floor (log10 (num / den))] for positive [num] and [den]. *)
Definition floor_log10 (num den : Z) : Z :=
  let d := decimal_length num - decimal_length den in
  let reaches := if 0 <=? d then den * 10 ^ d <=? num else den <=? num * 10 ^ (- d) in
  if reaches then d else d - 1.

(** [num / den] rounded to the nearest integer, ties to even. *)
Definition round_ratio (num den : Z) : Z :=
  let m := num / den in
  let r := num mod den in
  if (den <? 2 * r) || ((den =? 2 * r) && Z.odd m) then m + 1 else m.

Definition digits_of (z : Z) : string :=
  NilZero.string_of_uint (N.to_uint (Z.to_N z)).

Fixpoint zeros (n : nat) : string :=
  match n with
  | O => EmptyString
  | S n' => String "0" (zeros n')
  end.

(** A fraction without its trailing zeros. *)
Definition strip_zeros (s : string) : string :=
  let fix drop (r : string) : string :=
    match r with
    | String "0" r' => drop r'
    | _ => r
    end in
  string_rev (drop (string_rev s)).

Definition with_fraction (int_part frac : string) : string :=
  match strip_zeros frac with
  | EmptyString => int_part
  | f => int_part +++ "." +++ f
  end.

Definition format_exponent (x : Z) : string :=
  let a := digits_of (Z.abs x) in
  (if x <? 0 then "e-" else "e+") +++
  (if Z.abs x <? 10 then "0" +++ a else a).

(** The [%g] conversion of the positive number [num / den]. *)
Definition format_g_ratio (num den : Z) : string :=
  let x0 := floor_log10 num den in
  let d0 := if 0 <=? 5 - x0 then round_ratio (num * 10 ^ (5 - x0)) den
            else round_ratio num (den * 10 ^ (x0 - 5)) in
  let x := if d0 =? 10 ^ 6 then x0 + 1 else x0 in
  let digits := digits_of (if d0 =? 10 ^ 6 then 10 ^ 5 else d0) in
  if (x <? -4) || (6 <=? x) then
    with_fraction (string_take 1 digits) (string_drop 1 digits) +++ format_exponent x
  else if 0 <=? x then
    with_fraction (string_take (Z.to_nat (x + 1)) digits)
                  (string_drop (Z.to_nat (x + 1)) digits)
  else
    with_fraction "0" (zeros (Z.to_nat (- x - 1)) +++ digits).

Definition format_g (x : float) : string :=
  match Prim2SF x with
  | S754_nan => "nan"
  | S754_infinity s => if s then "-inf" else "inf"
  | S754_zero s => if s then "-0" else "0"
  | S754_finite s m e =>
      (if s then "-" else EmptyString) +++
      (if (0 <=? e)%Z then format_g_ratio (Zpos m * 2 ^ e) 1
       else format_g_ratio (Zpos m) (2 ^ (- e)))
  end.

End C99.

(** ** The machine: interpreter context, input, output, activations *)

Inductive screen : Type := HelpScreen | CheatsheetScreen | TutorialScreen.

(** What the program does to the outside world, in order. *)
Inductive event : Type :=
| Stdout (text : string)          (* one printf *)
| Stderr (text : string)          (* one fprintf(stderr, ...) *)
| System (command : string)       (* one system(...) *)
| Display (which : screen).       (* show_help, show_cheatsheet, show_guided_tutorial *)

(** [stdin] holds the chunks successive [fgets] calls return; [files] is the
    file system seen by [fopen], each file as its [fgets] chunks; [frames]
    counts the activations started so far. *)
Record Machine : Type := mkMachine {
  context : InterpreterContext;
  stdin : list string;
  files : string -> option (list string);
  output : list event;
  frames : nat
}.

Definition with_context (c : InterpreterContext) (m : Machine) : Machine :=
  mkMachine c (stdin m) (files m) (output m) (frames m).
Definition with_stdin (i : list string) (m : Machine) : Machine :=
  mkMachine (context m) i (files m) (output m) (frames m).
Definition with_output (o : list event) (m : Machine) : Machine :=
  mkMachine (context m) (stdin m) (files m) o (frames m).
Definition with_frames (n : nat) (m : Machine) : Machine :=
  mkMachine (context m) (stdin m) (files m) (output m) n.

(** How a piece of the interpreter ends. *)
Inductive outcome (A : Type) : Type :=
| Done (a : A) (m : Machine)               (* it returns *)
| Longjmp (target : jmp_point) (m : Machine) (* a longjmp is under way *)
| Exit (status : Z) (m : Machine)          (* exit(status) *)
| Undefined                                (* undefined behaviour *)
| OutOfFuel.

Arguments Done {A} a m.
Arguments Longjmp {A} target m.
Arguments Exit {A} status m.
Arguments Undefined {A}.
Arguments OutOfFuel {A}.

Definition M (A : Type) : Type := Machine -> outcome A.

Definition ret {A : Type} (a : A) : M A := fun m => Done a m.

Definition bind {A B : Type} (c : M A) (k : A -> M B) : M B :=
  fun m =>
    match c m with
    | Done a m' => k a m'
    | Longjmp p m' => Longjmp p m'
    | Exit s m' => Exit s m'
    | Undefined => Undefined
    | OutOfFuel => OutOfFuel
    end.

Declare Scope claro_scope.
Delimit Scope claro_scope with claro.
Notation "x <- c ;; k" := (bind c (fun x => k))
  (at level 61, c at next level, right associativity) : claro_scope.
Notation "c ;; k" := (bind c (fun _ => k))
  (at level 61, right associativity) : claro_scope.
Local Open Scope claro_scope.

Definition get_context : M InterpreterContext := fun m => Done (context m) m.

Definition modify_context (f : InterpreterContext -> InterpreterContext) : M unit :=
  fun m => Done tt (with_context (f (context m)) m).

Definition emit (e : event) : M unit :=
  fun m => Done tt (with_output (output m ++ [e]) m).

Definition printf (text : string) : M unit := emit (Stdout text).

Definition undefined {A : Type} : M A := fun _ => Undefined.

(** The result of a library call or of a copy that is undefined when it has
    no result. *)
Definition defined {A : Type} (result : option A) : M A :=
  match result with
  | Some a => ret a
  | None => undefined
  end.

Definition exit {A : Type} (status : Z) : M A := fun m => Exit status m.

(** [fgets(buf, sizeof buf, stdin)]: [None] at end of input. *)
Definition fgets_stdin : M (option string) :=
  fun m =>
    match stdin m with
    | [] => Done None m
    | l :: rest => Done (Some l) (with_stdin rest m)
    end.

(** A new activation and its number. *)
Definition new_frame : M nat :=
  fun m => Done (frames m) (with_frames (S (frames m)) m).

Definition site_eqb (a b : setjmp_site) : bool :=
  match a, b with
  | MainSite, MainSite | LineSite, LineSite
  | TrySite, TrySite | FunctionSite, FunctionSite => true
  | _, _ => false
  end.

Definition jmp_eqb (a b : jmp_point) : bool :=
  (jmp_frame a =? jmp_frame b) && site_eqb (jmp_site a) (jmp_site b).

(** [longjmp(buf, 1)]; undefined on a buffer no [setjmp] has filled. *)
Definition longjmp {A : Type} (buf : jmp_buf) : M A :=
  fun m =>
    match buf with
    | Some p => Longjmp p m
    | None => Undefined
    end.

(** The code that runs when [setjmp] returns non-zero: a jump to the same
    point that leaves this code runs it again. *)
Fixpoint resume {A : Type} (fuel : nat) (here : jmp_point) (handler : M A) : M A :=
  fun m =>
    match fuel with
    | O => OutOfFuel
    | S fuel' =>
        match handler m with
        | Longjmp p m' =>
            if jmp_eqb p here then resume fuel' here handler m' else Longjmp p m'
        | o => o
        end
    end.

(** [if (setjmp(buf) == 0) body else handler], once [buf] holds [here]:
    a jump to [here] that leaves [body] continues with [handler]. *)
Definition on_longjmp {A : Type} (fuel : nat) (here : jmp_point)
  (body handler : M A) : M A :=
  fun m =>
    match body m with
    | Longjmp p m' =>
        if jmp_eqb p here then resume fuel here handler m' else Longjmp p m'
    | o => o
    end.

(** ** Debug and error *)

Definition ESC : string := String (ascii_of_nat 27) EmptyString.
Definition NL : string := String (ascii_of_nat 10) EmptyString.
Definition QUOTE : string := String (ascii_of_nat 34) EmptyString.

Definition COLOR_RESET : string := ESC +++ "[0m".
Definition COLOR_ERROR : string := ESC +++ "[31m".
Definition COLOR_DEBUG : string := ESC +++ "[34m".
Definition HC_COLOR_RESET : string := ESC +++ "[0m".
Definition HC_COLOR_ERROR : string := ESC +++ "[91m".
Definition HC_COLOR_DEBUG : string := ESC +++ "[94m".

(** The events of one [debug_log] call, the format already expanded into
    [text]: nothing unless debug mode is on. *)
Definition debug_events (ctx : InterpreterContext) (text : string) : list event :=
  if debug_mode ctx then
    [Stdout (if high_contrast_mode ctx
             then HC_COLOR_DEBUG +++ "[DEBUG] " +++ HC_COLOR_RESET
             else COLOR_DEBUG +++ "[DEBUG] " +++ COLOR_RESET);
     Stdout text; Stdout NL]
  else [].

Definition debug_log (text : string) : M unit :=
  fun m => Done tt (with_output (output m ++ debug_events (context m) text) m).

(** The events of one [print_error] call. *)
Definition error_events (ctx : InterpreterContext) (message : string)
  (line_number : Z) : list event :=
  let error_color := if high_contrast_mode ctx then HC_COLOR_ERROR else COLOR_ERROR in
  let reset_color := if high_contrast_mode ctx then HC_COLOR_RESET else COLOR_RESET in
  Stderr (if (0 <=? line_number)%Z
          then error_color +++ "Oops! Error (line " +++ format_d line_number +++ "): "
               +++ message +++ NL +++ reset_color
          else error_color +++ "Oops! Error: " +++ message +++ NL +++ reset_color)
  :: (if audio_mode ctx
      then [System ("espeak " +++ QUOTE +++ "Error: " +++ message +++ QUOTE)]
      else []).

Definition print_error (message : string) (line_number : Z) : M unit :=
  fun m => Done tt (with_output (output m ++ error_events (context m) message line_number) m).

(** [print_error(ctx, message, ctx->current_line + 1)] *)
Definition print_error_here (message : string) : M unit :=
  ctx <- get_context ;;
  print_error message (current_line ctx + 1)%Z.

(** ** Variable handling, in the machine *)

Definition MSG_VARIABLE_LIMIT : string := "Maximum variable limit reached".

Definition set_variable (name value : string) (type : VarType) : M unit :=
  ctx <- get_context ;;
  let (vars, full) := store_variable (variables ctx) name value type in
  modify_context (set_variables vars) ;;
  if full then print_error MSG_VARIABLE_LIMIT (-1)%Z else ret tt.

(** ** The interpreter *)

Section Interpreter.

Context `{Libc}.

(** [evaluate_expression] as the dispatcher sees it: a fault has printed its
    message and is on its way to [ctx->error_buf]. *)
Definition evaluate (expr : string) : M float :=
  fun m =>
    match evaluate_expression (context m) expr with
    | PVal v _ => Done v m
    | PFault msg => (print_error msg (-1)%Z ;; longjmp (error_buf (context m))) m
    | PFuel => OutOfFuel
    end.

(** A double used as a C condition. *)
Definition truthy (v : float) : bool := negb (PrimFloat.eqb v 0%float).

Definition tok (tokens : list string) (i : nat) : string := nth i tokens EmptyString.

(** *** Block collection *)

(** The reading loops for block bodies: one prompt before every [fgets];
    the loop ends at end of input or when the trimmed line is the sentinel.
    A kept line is the buffer as [trim_whitespace] left it.  The result is
    the block, the unread input and the number of prompts. *)
Fixpoint read_block (sentinel : string -> bool) (input : list string)
  : list string * list string * nat :=
  match input with
  | [] => ([], [], 1)
  | chunk :: input' =>
      let line := strip_newline chunk in
      if sentinel (trim_whitespace line) then ([], input', 1)
      else
        let '(lines, rest, prompts) := read_block sentinel input' in
        (trim_in_place line :: lines, rest, S prompts)
  end.

Definition collect_block (prompt : string) (sentinel : string -> bool)
  : M (list string) :=
  fun m =>
    let '(lines, rest, prompts) := read_block sentinel (stdin m) in
    Done lines
      (with_output (output m ++ repeat (Stdout prompt) prompts) (with_stdin rest m)).

(** Collection into a [char *block_lines[MAX_BLOCK_LINES]] array: storing a
    line beyond the array is undefined. *)
Definition collect_array (prompt : string) (sentinel : string -> bool)
  : M (list string) :=
  lines <- collect_block prompt sentinel ;;
  if MAX_BLOCK_LINES <? List.length lines then undefined else ret lines.

Definition is_sentinel (word : string) (trimmed : string) : bool :=
  strcasecmp_eq trimmed word.

(** *** Block execution *)

Fixpoint execute_block (exec : string -> M unit) (block_lines : list string)
  : M unit :=
  match block_lines with
  | [] => ret tt
  | l :: rest => exec l ;; execute_block exec rest
  end.

(** *** Function handling *)

Fixpoint bind_parameters (ps args : list string) : M unit :=
  match ps, args with
  | p :: ps', a :: args' =>
      set_variable p a TYPE_FLOAT ;; bind_parameters ps' args'
  | _, _ => ret tt
  end.

Fixpoint run_body (exec : string -> M unit) (f : FunctionDef)
  (body : list string) : M unit :=
  match body with
  | [] => ret tt
  | l :: rest =>
      debug_log ("Function '" +++ fn_name f +++ "' executing: " +++ l) ;;
      exec l ;;
      run_body exec f rest
  end.

Definition push_call (name : string) : M unit :=
  ctx <- get_context ;;
  if call_stack_depth ctx <? MAX_CALL_STACK_DEPTH
  then modify_context (set_call_stack (call_stack ctx ++ [name]))
  else ret tt.

(** [if (ctx->call_stack_depth > 0) ctx->call_stack_depth--;] *)
Definition pop_call : M unit :=
  modify_context (fun c => set_call_stack (removelast (call_stack c)) c).

(** The head of [execute_function], after the arity check: parameters are
    bound, the name is pushed, the flag is raised and [setjmp] fills
    [function_return_buf]. *)
Definition enter_function (f : FunctionDef) (args : list string) (frame : nat)
  : M unit :=
  bind_parameters (params f) args ;;
  push_call (fn_name f) ;;
  modify_context (set_in_function true) ;;
  modify_context (set_function_return_buf (Some (mkJmp frame FunctionSite))).

(** The tail of [execute_function], after the body or a jump to its
    [setjmp]. *)
Definition leave_function (local_scope_start : nat) : M float :=
  ctx <- get_context ;;
  let retVal := function_return_value ctx in
  modify_context (fun c => set_variables (firstn local_scope_start (variables c)) c) ;;
  modify_context (set_in_function false) ;;
  pop_call ;;
  ret retVal.

Definition execute_function (exec : string -> M unit) (fuel : nat)
  (f : FunctionDef) (args : list string) : M float :=
  if negb (List.length args =? List.length (params f)) then
    printf ("Error: Function '" +++ fn_name f +++ "' expects "
            +++ format_d (Z.of_nat (List.length (params f)))
            +++ " arguments, got " +++ format_d (Z.of_nat (List.length args))
            +++ "." +++ NL) ;;
    ret 0%float
  else
    frame <- new_frame ;;
    ctx <- get_context ;;
    let local_scope_start := variable_count ctx in
    enter_function f args frame ;;
    on_longjmp (S fuel) (mkJmp frame FunctionSite)
      (run_body exec f (fn_code_lines f)) (ret tt) ;;
    leave_function local_scope_start.

(** [define_function]; no branch of [execute_line] calls it. *)
Definition define_function (tokens : list string) : M unit :=
  let token_count := List.length tokens in
  if token_count <? 2 then print_error_here "Usage: FUNCTION <name> [params...]"
  else
    ctx <- get_context ;;
    if MAX_FUNCTIONS <=? function_count ctx
    then print_error_here "Maximum function limit reached"
    else
      printf ("Enter function body lines. Type ENDFUNCTION on a line by itself to finish:" +++ NL) ;;
      body <- collect_block "... " (fun trimmed => strcmp_eq trimmed "ENDFUNCTION") ;;
      let f := mkFunctionDef (tok tokens 1) (skipn 2 tokens) body in
      modify_context (fun c => set_functions (functions c ++ [f]) c) ;;
      printf ("Function '" +++ fn_name f +++ "' defined with "
              +++ format_d (Z.of_nat (List.length (params f))) +++ " parameter(s) and "
              +++ format_d (Z.of_nat (List.length body)) +++ " code line(s)." +++ NL).

(** *** The commands of [execute_line] *)

Definition cmd_SET (tokens : list string) : M unit :=
  if negb (strcmp_eq (tok tokens 2) "=") then
    print_error_here "Usage: VARIABLE/SET <name> = <expression>"
  else if strncmp_eq (tok tokens 3) "S:" && (List.length tokens =? 4) then
    let str_literal := string_drop 2 (tok tokens 3) in
    set_variable (tok tokens 1) str_literal TYPE_STRING ;;
    printf ("Variable '" +++ tok tokens 1 +++ "' set to '" +++ str_literal +++ "'" +++ NL)
  else
    expr <- defined (join_tokens tokens 3 (List.length tokens)) ;;
    eval <- evaluate expr ;;
    let eval_str := format_g eval in
    set_variable (tok tokens 1) eval_str TYPE_FLOAT ;;
    printf ("Variable '" +++ tok tokens 1 +++ "' set to '" +++ eval_str +++ "'" +++ NL).

Definition print_token (ctx : InterpreterContext) (t : string) : string :=
  match t with
  | String "$" name =>
      match get_variable ctx name with
      | Some val => val +++ " "
      | None => "[undefined] "
      end
  | _ =>
      if strncmp_eq t "S:" then string_drop 2 t +++ " "
      else match get_variable ctx t with
           | Some val => val +++ " "
           | None => t +++ " "
           end
  end.

Fixpoint print_tokens (ts : list string) : M unit :=
  match ts with
  | [] => ret tt
  | t :: ts' =>
      ctx <- get_context ;;
      printf (print_token ctx t) ;;
      print_tokens ts'
  end.

Definition cmd_PRINT (tokens : list string) : M unit :=
  print_tokens (tl tokens) ;; printf NL.

Definition cmd_GET (tokens : list string) : M unit :=
  ctx <- get_context ;;
  match get_variable ctx (tok tokens 1) with
  | Some val =>
      printf ("Variable '" +++ tok tokens 1 +++ "' = '" +++ val +++ "'" +++ NL)
  | None =>
      printf ("Variable '" +++ tok tokens 1 +++ "' is not defined." +++ NL)
  end.

(** The ON/OFF style switches: DEBUG, AUDIO and THEME. *)
Definition cmd_switch (tokens : list string) (on off : string)
  (set : bool -> InterpreterContext -> InterpreterContext)
  (on_text off_text usage : string) : M unit :=
  if strcasecmp_eq (tok tokens 1) on then
    modify_context (set true) ;; printf (on_text +++ NL)
  else if strcasecmp_eq (tok tokens 1) off then
    modify_context (set false) ;; printf (off_text +++ NL)
  else print_error_here usage.

Definition cmd_INPUT (tokens : list string) : M unit :=
  prompt <- defined (join_tokens tokens 2 (List.length tokens)) ;;
  let prompt := trim_whitespace prompt in
  printf (prompt +++ " ") ;;
  input_line <- fgets_stdin ;;
  match input_line with
  | Some chunk =>
      let trimmed_input := trim_whitespace (strip_newline chunk) in
      set_variable (tok tokens 1) trimmed_input TYPE_STRING ;;
      printf ("Variable '" +++ tok tokens 1 +++ "' set to '" +++ trimmed_input +++ "'" +++ NL)
  | None => print_error_here "Failed to read input"
  end.

(** The loop of REPEAT: [i] rounds are done, [remaining] are left. *)
Fixpoint repeat_loop (exec : string -> M unit) (repeat_cmd : string)
  (i remaining : nat) : M unit :=
  match remaining with
  | O => ret tt
  | S remaining' =>
      debug_log ("REPEAT iteration " +++ format_d (Z.of_nat (S i)) +++ ": " +++ repeat_cmd) ;;
      exec repeat_cmd ;;
      repeat_loop exec repeat_cmd (S i) remaining'
  end.

Definition cmd_REPEAT (exec : string -> M unit) (tokens : list string) : M unit :=
  count <- defined (atoi (tok tokens 1)) ;;
  if (count <=? 0)%Z then print_error_here "REPEAT count must be a positive integer"
  else
    repeat_cmd <- defined (join_tokens tokens 2 (List.length tokens)) ;;
    repeat_loop exec repeat_cmd 0 (Z.to_nat count).

(** The scan of IF for the first THEN, the first ELSE and the first ENDIF;
    [None] is the index -1. *)
Definition is_set (idx : option nat) : bool :=
  match idx with Some _ => true | None => false end.

Fixpoint scan_if (tokens : list string) (i : nat) (then_idx else_idx : option nat)
  : option nat * option nat * option nat :=
  match tokens with
  | [] => (then_idx, else_idx, None)
  | t :: rest =>
      let temp := upcase t in
      if strcmp_eq temp "THEN" && negb (is_set then_idx)
      then scan_if rest (S i) (Some i) else_idx
      else if strcmp_eq temp "ELSE" && negb (is_set else_idx)
      then scan_if rest (S i) then_idx (Some i)
      else if strcmp_eq temp "ENDIF" then (then_idx, else_idx, Some i)
      else scan_if rest (S i) then_idx else_idx
  end.

Definition cmd_IF (exec : string -> M unit) (tokens : list string) : M unit :=
  let '(then_idx, else_idx, endif_idx) := scan_if (tl tokens) 1 None None in
  match then_idx, endif_idx with
  | Some then_i, Some endif_i =>
      cond_expr <- defined (join_tokens tokens 1 then_i) ;;
      cond_val <- evaluate cond_expr ;;
      if truthy cond_val then
        then_cmd <- defined (match else_idx with
                             | None => join_tokens tokens (then_i + 1) endif_i
                             | Some else_i => join_tokens tokens (then_i + 1) else_i
                             end) ;;
        exec then_cmd
      else
        match else_idx with
        | Some else_i =>
            else_cmd <- defined (join_tokens tokens (else_i + 1) endif_i) ;;
            exec else_cmd
        | None => ret tt
        end
  | _, _ =>
      print_error_here "IF syntax error. Usage: IF <cond> THEN <cmd> [ELSE <cmd>] ENDIF"
  end.

(** What the first loop of WHILE appends to [cond_expr]: every token before
    BEGIN followed by a blank; the flag tells whether BEGIN was found. *)
Fixpoint while_text (tokens : list string) : string * bool :=
  match tokens with
  | [] => (EmptyString, false)
  | t :: rest =>
      if strcasecmp_eq t "BEGIN" then (EmptyString, true)
      else let (cond, found) := while_text rest in (t +++ " " +++ cond, found)
  end.

(** The condition text of WHILE.  [cond_expr] is an array of
    [MAX_LINE_LENGTH] bytes filled with [strcat], and no length is checked:
    [None] when the text and its terminator do not fit. *)
Definition while_condition (tokens : list string) : option (string * bool) :=
  let (cond_expr, found) := while_text tokens in
  if String.length cond_expr <? MAX_LINE_LENGTH then Some (cond_expr, found) else None.

Fixpoint while_loop (exec : string -> M unit) (fuel : nat) (cond_expr : string)
  (block_lines : list string) : M unit :=
  match fuel with
  | O => fun _ => OutOfFuel
  | S fuel' =>
      cond_val <- evaluate cond_expr ;;
      if truthy cond_val then
        execute_block exec block_lines ;;
        while_loop exec fuel' cond_expr block_lines
      else ret tt
  end.

Definition cmd_WHILE (exec : string -> M unit) (fuel : nat) (tokens : list string)
  : M unit :=
  condition <- defined (while_condition (tl tokens)) ;;
  let (cond_expr, found) := condition in
  if negb found then print_error_here "WHILE syntax error. Missing BEGIN"
  else
    printf ("Enter WHILE loop block lines (type ENDWHILE on a line by itself):" +++ NL) ;;
    block_lines <- collect_array "... " (is_sentinel "ENDWHILE") ;;
    while_loop exec fuel cond_expr block_lines.

(** [(step_val > 0) ? (current_val <= end_val) : (current_val >= end_val)] *)
Definition condition_met (step_val end_val current_val : float) : bool :=
  if PrimFloat.ltb 0%float step_val
  then PrimFloat.leb current_val end_val
  else PrimFloat.leb end_val current_val.

(** The loop of FOR.  [atof] of the NULL pointer, when the loop variable is
    not in the store, is undefined. *)
Fixpoint for_loop (exec : string -> M unit) (fuel : nat) (var : string)
  (end_val step_val : float) (block_lines : list string) : M unit :=
  match fuel with
  | O => fun _ => OutOfFuel
  | S fuel' =>
      ctx <- get_context ;;
      match get_variable ctx var with
      | None => undefined
      | Some current_str =>
          let current_val := atof current_str in
          if negb (condition_met step_val end_val current_val) then ret tt
          else
            execute_block exec block_lines ;;
            set_variable var (format_g (current_val + step_val)%float) TYPE_FLOAT ;;
            for_loop exec fuel' var end_val step_val block_lines
      end
  end.

Definition FOR_USAGE : string :=
  "Usage: FOR <var> = <start> TO <end> [STEP <step>] BEGIN".

(** The tail of the FOR branch, once the step and the index of BEGIN are known. *)
Definition for_body (exec : string -> M unit) (fuel : nat) (tokens : list string)
  (start_val end_val step_val : float) (idx : nat) : M unit :=
  if (List.length tokens <=? idx) || negb (strcasecmp_eq (tok tokens idx) "BEGIN")
  then print_error_here "Missing BEGIN in FOR loop declaration"
  else
    printf ("Enter FOR loop block lines (type ENDFOR on a line by itself):" +++ NL) ;;
    block_lines <- collect_array "... " (is_sentinel "ENDFOR") ;;
    set_variable (tok tokens 1) (format_g start_val) TYPE_FLOAT ;;
    for_loop exec fuel (tok tokens 1) end_val step_val block_lines.

Definition cmd_FOR (exec : string -> M unit) (fuel : nat) (tokens : list string)
  : M unit :=
  let token_count := List.length tokens in
  if token_count <? 7 then print_error_here FOR_USAGE
  else if negb (strcmp_eq (tok tokens 2) "=")
  then print_error_here "Expected '=' in FOR loop declaration"
  else
    start_val <- evaluate (tok tokens 3) ;;
    if negb (strcasecmp_eq (tok tokens 4) "TO")
    then print_error_here "Expected 'TO' in FOR loop declaration"
    else
      end_val <- evaluate (tok tokens 5) ;;
      if (6 <? token_count) && strcasecmp_eq (tok tokens 6) "STEP" then
        if 7 <? token_count then
          step_val <- evaluate (tok tokens 7) ;;
          for_body exec fuel tokens start_val end_val step_val 8
        else print_error_here "Missing step value in FOR loop"
      else for_body exec fuel tokens start_val end_val 1%float 6.

(** The two branches of [if (setjmp(ctx->error_buf) == 0)] in TRY. *)
Definition try_branch (exec : string -> M unit) (try_lines : list string) : M unit :=
  execute_block exec try_lines ;;
  printf ("TRY block executed successfully; skipping CATCH." +++ NL) ;;
  collect_block "CATCH> " (is_sentinel "ENDTRY") ;;
  ret tt.

Definition catch_branch (exec : string -> M unit) : M unit :=
  printf ("Error in TRY block; executing CATCH block." +++ NL) ;;
  catch_lines <- collect_array "CATCH> " (is_sentinel "ENDTRY") ;;
  execute_block exec catch_lines.

Definition cmd_TRY (exec : string -> M unit) (fuel : nat) (frame : nat) : M unit :=
  printf ("Enter TRY block lines (type CATCH on a line by itself):" +++ NL) ;;
  try_lines <- collect_array "TRY> " (is_sentinel "CATCH") ;;
  let here := mkJmp frame TrySite in
  modify_context (set_error_buf (Some here)) ;;
  on_longjmp (S fuel) here (try_branch exec try_lines) (catch_branch exec).

Definition cmd_IMPORT (exec : string -> M unit) (tokens : list string) : M unit :=
  filename <- defined (join_tokens tokens 1 (List.length tokens)) ;;
  fun m =>
    match files m filename with
    | None => print_error_here "Could not open import file." m
    | Some chunks => execute_block exec (map strip_newline chunks) m
    end.

(** [char result[MAX_LINE_LENGTH]] filled with [strcat]: undefined when the
    two values and the terminator do not fit. *)
Definition cmd_CONCAT (tokens : list string) : M unit :=
  ctx <- get_context ;;
  let v1 := match get_variable ctx (tok tokens 2) with Some v => v | None => EmptyString end in
  let v2 := match get_variable ctx (tok tokens 3) with Some v => v | None => EmptyString end in
  let result := v1 +++ v2 in
  if MAX_LINE_LENGTH <=? String.length result then undefined
  else
    set_variable (tok tokens 1) result TYPE_STRING ;;
    printf ("Concatenated value stored in '" +++ tok tokens 1 +++ "'." +++ NL).

Definition find_function (ctx : InterpreterContext) (func_name : string)
  : option FunctionDef :=
  find (fun f => strcmp_eq (fn_name f) func_name) (functions ctx).

Definition cmd_CALL (exec : string -> M unit) (fuel : nat) (tokens : list string)
  : M unit :=
  let func_name := tok tokens 1 in
  ctx <- get_context ;;
  match find_function ctx func_name with
  | None => printf ("Function '" +++ func_name +++ "' not defined." +++ NL)
  | Some f =>
      retVal <- execute_function exec fuel f (skipn 2 tokens) ;;
      printf ("Function '" +++ func_name +++ "' returned " +++ format_g retVal +++ NL)
  end.

Definition MSG_RETURN_OUTSIDE : string := "RETURN can only be used inside a function".

Definition cmd_RETURN (tokens : list string) : M unit :=
  ctx <- get_context ;;
  if negb (in_function ctx) then print_error_here MSG_RETURN_OUTSIDE
  else
    expr <- defined (join_tokens tokens 1 (List.length tokens)) ;;
    retVal <- evaluate expr ;;
    modify_context (set_function_return_value retVal) ;;
    ctx' <- get_context ;;
    longjmp (function_return_buf ctx').

Fixpoint print_all (texts : list string) : M unit :=
  match texts with
  | [] => ret tt
  | t :: rest => printf t ;; print_all rest
  end.

Definition cmd_STACK : M unit :=
  ctx <- get_context ;;
  printf ("Call Stack (depth " +++ format_d (Z.of_nat (call_stack_depth ctx)) +++ "):" +++ NL) ;;
  print_all (map (fun name => "  " +++ name +++ NL) (call_stack ctx)).

Fixpoint trace_params (ps : list string) : list string :=
  match ps with
  | [] => []
  | [p] => [p]
  | p :: rest => p :: ", " :: trace_params rest
  end.

Definition trace_function (f : FunctionDef) : list string :=
  ("  " +++ fn_name f +++ "(") :: trace_params (params f)
  ++ [") with " +++ format_d (Z.of_nat (List.length (fn_code_lines f))) +++ " lines" +++ NL].

Definition cmd_TRACE : M unit :=
  ctx <- get_context ;;
  printf ("---- TRACE ----" +++ NL) ;;
  printf ("Variables (" +++ format_d (Z.of_nat (variable_count ctx)) +++ "):" +++ NL) ;;
  print_all (map (fun v => "  " +++ var_name v +++ " = " +++ var_value v +++ NL) (variables ctx)) ;;
  printf ("Functions (" +++ format_d (Z.of_nat (function_count ctx)) +++ "):" +++ NL) ;;
  print_all (flat_map trace_function (functions ctx)) ;;
  printf ("---- END TRACE ----" +++ NL).

Definition cmd_SAY (tokens : list string) : M unit :=
  msg <- defined (join_tokens tokens 1 (List.length tokens)) ;;
  emit (System ("espeak " +++ QUOTE +++ msg +++ QUOTE)).

(** The chain of branches of [execute_line], after the [setjmp] at its head.
    [frame] is the number of this activation.  [command] is an array of
    [MAX_LINE_LENGTH] bytes filled by [strncpy], which writes no terminator
    when the first token has that many characters or more: the loop that
    folds [command] to upper case then runs past the array. *)
Definition dispatch (exec : string -> M unit) (fuel : nat) (frame : nat)
  (line : string) : M unit :=
  let tokens := tokenize line in
  let token_count := List.length tokens in
  if token_count =? 0 then ret tt
  else if MAX_LINE_LENGTH <=? String.length (tok tokens 0) then undefined
  else
    let command := upcase (tok tokens 0) in
    let cmd name := strcmp_eq command name in
    debug_log ("Executing command: " +++ command) ;;
    if (cmd "VARIABLE" || cmd "SET") && (4 <=? token_count) then cmd_SET tokens
    else if cmd "PRINT" then cmd_PRINT tokens
    else if cmd "GET" && (2 <=? token_count) then cmd_GET tokens
    else if cmd "DEBUG" && (2 <=? token_count) then
      cmd_switch tokens "ON" "OFF" set_debug_mode
        "Debug mode enabled." "Debug mode disabled." "Usage: DEBUG ON|OFF"
    else if cmd "INPUT" && (3 <=? token_count) then cmd_INPUT tokens
    else if cmd "REPEAT" && (3 <=? token_count) then cmd_REPEAT exec tokens
    else if cmd "IF" then cmd_IF exec tokens
    else if cmd "WHILE" then cmd_WHILE exec fuel tokens
    else if cmd "FOR" then cmd_FOR exec fuel tokens
    else if cmd "TRY" then cmd_TRY exec fuel frame
    else if cmd "IMPORT" && (2 <=? token_count) then cmd_IMPORT exec tokens
    else if cmd "CONCAT" && (4 <=? token_count) then cmd_CONCAT tokens
    else if cmd "CALL" && (2 <=? token_count) then cmd_CALL exec fuel tokens
    else if cmd "RETURN" && (2 <=? token_count) then cmd_RETURN tokens
    else if cmd "STACK" then cmd_STACK
    else if cmd "TRACE" then cmd_TRACE
    else if cmd "HELP" then emit (Display HelpScreen)
    else if cmd "CHEATSHEET" then emit (Display CheatsheetScreen)
    else if cmd "CUSTOM" then
      printf ("Custom display mode activated. Extra spacing will be added to outputs to aid readability." +++ NL)
    else if cmd "GUIDED" then emit (Display TutorialScreen)
    else if cmd "AUDIO" && (2 <=? token_count) then
      cmd_switch tokens "ON" "OFF" set_audio_mode
        "Audio mode enabled. Errors and important messages will be read aloud."
        "Audio mode disabled." "Usage: AUDIO ON|OFF"
    else if cmd "THEME" && (2 <=? token_count) then
      cmd_switch tokens "HIGH" "NORMAL" set_high_contrast_mode
        "High contrast mode enabled." "Normal theme enabled."
        "Usage: THEME HIGH|NORMAL"
    else if cmd "SAY" && (2 <=? token_count) then cmd_SAY tokens
    else if cmd "EXIT" then printf ("Exiting interpreter." +++ NL) ;; exit 0%Z
    else print_error_here "Unknown command".

Definition MSG_SKIP : string := "An error occurred; skipping this command".

(** [execute_line]: the [setjmp] on [ctx->error_buf] at its head, then the
    branches.  [fuel] bounds the nesting of activations and the rounds of
    WHILE and FOR. *)
Fixpoint execute_line (fuel : nat) (line : string) : M unit :=
  match fuel with
  | O => fun _ => OutOfFuel
  | S fuel' =>
      frame <- new_frame ;;
      let here := mkJmp frame LineSite in
      modify_context (set_error_buf (Some here)) ;;
      on_longjmp fuel here
        (dispatch (execute_line fuel') fuel' frame line)
        (print_error_here MSG_SKIP)
  end.

(** *** Running a file, the prompt loop, and [main] *)

Fixpoint execute_code_from (fuel : nat) (lines : list string) (i : Z) : M unit :=
  modify_context (set_current_line i) ;;
  match lines with
  | [] => ret tt
  | l :: rest =>
      debug_log ("Line " +++ format_d (i + 1) +++ ": " +++ l) ;;
      execute_line fuel l ;;
      execute_code_from fuel rest (i + 1)%Z
  end.

Definition execute_code (fuel : nat) : M unit :=
  ctx <- get_context ;;
  execute_code_from fuel (code_lines ctx) 0%Z.

Definition COLOR_PROMPT : string := ESC +++ "[32m".
Definition HC_COLOR_PROMPT : string := ESC +++ "[97m".

Fixpoint repl_loop (fuel : nat) : M unit :=
  match fuel with
  | O => fun _ => OutOfFuel
  | S fuel' =>
      ctx <- get_context ;;
      printf (if high_contrast_mode ctx
              then HC_COLOR_PROMPT +++ "Claro> " +++ HC_COLOR_RESET
              else COLOR_PROMPT +++ "Claro> " +++ COLOR_RESET) ;;
      chunk <- fgets_stdin ;;
      match chunk with
      | None => ret tt
      | Some c =>
          let input := strip_newline c in
          if String.length input =? 0 then repl_loop fuel'
          else execute_line fuel' input ;; repl_loop fuel'
      end
  end.

Definition repl (fuel : nat) : M unit :=
  ctx <- get_context ;;
  printf (if high_contrast_mode ctx
          then HC_COLOR_PROMPT +++ "Welcome to Extended Claro Interpreter! (High Contrast Mode)"
               +++ NL +++ "Type HELP or GUIDED for commands." +++ NL +++ HC_COLOR_RESET
          else COLOR_PROMPT +++ "Welcome to Extended Claro Interpreter!"
               +++ NL +++ "Type HELP or GUIDED for commands." +++ NL +++ COLOR_RESET) ;;
  repl_loop fuel.

(** [init_context] assigns every scalar field but [function_return_value],
    which keeps whatever the memory of [ctx] held. *)
Definition init_context (indeterminate : float) : InterpreterContext :=
  mkContext [] 0%Z false false false None [] [] [] false indeterminate None.

(** The machine [main] starts from: its own activation is number 0. *)
Definition start_machine (indeterminate : float) (input : list string)
  (fs : string -> option (list string)) : Machine :=
  mkMachine (set_error_buf (Some (mkJmp 0 MainSite)) (init_context indeterminate))
    input fs [] 1.

(** [main]: [argv1] is the optional file name.  A jump that no live
    activation receives is undefined. *)
Definition main (fuel : nat) (argv1 : option string) (indeterminate : float)
  (input : list string) (fs : string -> option (list string)) : outcome Z :=
  let here := mkJmp 0 MainSite in
  let start := start_machine indeterminate input fs in
  let run : M Z :=
    match argv1 with
    | Some name =>
        match fs name with
        | None => print_error "Could not open file." (-1)%Z ;; ret 1%Z
        | Some chunks =>
            modify_context (set_code_lines chunks) ;; execute_code fuel ;; ret 0%Z
        end
    | None => repl fuel ;; ret 0%Z
    end in
  match on_longjmp 1 here run
          (print_error_here "An unrecoverable error occurred." ;; exit 1%Z) start with
  | Longjmp _ _ => Undefined
  | o => o
  end.

End Interpreter.

(** ** Machines and outcomes used in the statements *)

(** The machine just after the [setjmp] at the head of [execute_line]. *)
Definition enter_line (m : Machine) : Machine :=
  with_context (set_error_buf (Some (mkJmp (frames m) LineSite)) (context m))
    (with_frames (S (frames m)) m).

Definition add_output (events : list event) (m : Machine) : Machine :=
  with_output (output m ++ events) m.

(** The machine after the [debug_log] of [execute_line] for [command]. *)
Definition logged (command : string) (m : Machine) : Machine :=
  add_output (debug_events (context m) ("Executing command: " +++ command)) m.

(** The machine a piece of the interpreter returns with, when it returns. *)
Definition final_machine {A : Type} (o : outcome A) : option Machine :=
  match o with
  | Done _ m => Some m
  | _ => None
  end.

Definition returned_value {A : Type} (o : outcome A) : option A :=
  match o with
  | Done a _ => Some a
  | _ => None
  end.

(** The variable names of the store, in order. *)
Definition names (m : Machine) : list string :=
  map var_name (variables (context m)).

(** A bare identifier as [parse_factor] reads it whole: letters, digits and
    underscores, not starting with a digit, short enough for [varname], and
    not one of the boolean literals. *)
Fixpoint all_ident_chars (s : string) : bool :=
  match s with
  | EmptyString => true
  | String c s' => is_ident_char c && all_ident_chars s'
  end.

Definition is_identifier (s : string) : bool :=
  match s with
  | EmptyString => false
  | String c _ =>
      negb (Ctype.isdigit c) && all_ident_chars s
      && (String.length s <=? MAX_LINE_LENGTH - 1)
      && negb (is_literal "true" s) && negb (is_literal "false" s)
  end.

(** The context [execute_function] leaves: the store cut back to the
    watermark, the flag lowered, the call stack popped. *)
Definition after_call (local_scope_start : nat) (c : InterpreterContext)
  : InterpreterContext :=
  set_call_stack (removelast (call_stack c))
    (set_in_function false
       (set_variables (firstn local_scope_start (variables c)) c)).

(** ** Scenarios for the concrete runs *)

Definition no_files : string -> option (list string) := fun _ => None.

(** The machine [main] starts from, with [fs] in the function registry and
    [indeterminate] where [init_context] leaves [function_return_value]. *)
Definition machine_with (indeterminate : float) (fs : list FunctionDef)
  (input : list string) : Machine :=
  let m := start_machine indeterminate input no_files in
  with_context (set_functions fs (context m)) m.

Definition fn_early : FunctionDef :=
  mkFunctionDef "early" []
    ["PRINT before"; "IF 1 THEN REPEAT 2 RETURN 5 ENDIF"; "PRINT after"].

Definition fn_inner : FunctionDef := mkFunctionDef "inner" [] ["RETURN 7"].

Definition fn_outer : FunctionDef :=
  mkFunctionDef "outer" [] ["CALL inner"; "RETURN 5"; "PRINT after"].

(** A function that never executes RETURN. *)
Definition fn_idle : FunctionDef := mkFunctionDef "idle" [] ["PRINT idle"].

Definition fn_shadow : FunctionDef :=
  mkFunctionDef "shadow" ["x"] ["SET tmp = x + 1"].

(** The events written to [stderr] by a piece that returns. *)
Definition is_stderr (e : event) : bool :=
  match e with
  | Stderr _ => true
  | _ => false
  end.

(** Lines that fill the store: SET v0 = 0, SET v1 = 1, and so on up to
    [MAX_VARIABLES] variables. *)
Definition fill_line (k : nat) : string :=
  "SET v" +++ format_d (Z.of_nat k) +++ " = " +++ format_d (Z.of_nat k).

Definition fill_store : list string := map fill_line (seq 0 MAX_VARIABLES).

(** A store that is full. *)
Definition full_store : list Var :=
  map (fun k => mkVariable ("v" +++ format_d (Z.of_nat k)) TYPE_FLOAT
                  (format_d (Z.of_nat k)))
      (seq 0 MAX_VARIABLES).

Definition printed {A : Type} (o : outcome A) : list event :=
  match final_machine o with
  | Some m => output m
  | None => []
  end.

(** ** What every piece of the interpreter preserves *)

(** [evolves m m']: the store of [m'] holds the names of the store of [m] at
    the same positions, possibly followed by more; the bounds of the store
    and of the call stack, when met by [m], are met by [m']; the function
    registry is the same. *)
Record evolves (m m' : Machine) : Prop := mk_evolves {
  ev_names : exists extra, names m' = names m ++ extra;
  ev_store : variable_count (context m) <= MAX_VARIABLES ->
             variable_count (context m') <= MAX_VARIABLES;
  ev_stack : call_stack_depth (context m) <= MAX_CALL_STACK_DEPTH ->
             call_stack_depth (context m') <= MAX_CALL_STACK_DEPTH;
  ev_functions : functions (context m') = functions (context m)
}.

(** [respects c]: however [c] ends, the machine it leaves has evolved from
    the machine it started in. *)
Definition respects {A : Type} (c : M A) : Prop :=
  forall m,
    match c m with
    | Done _ m' | Longjmp _ m' | Exit _ m' => evolves m m'
    | Undefined | OutOfFuel => True
    end.

(** ** Where a jump can land

    Every activation that calls [setjmp] has a number; [frames] counts the
    activations entered so far. *)

(** [function_return_buf] is empty or was filled by the [setjmp] of
    [execute_function]. *)
Definition return_buf_ok (m : Machine) : Prop :=
  match function_return_buf (context m) with
  | Some p => jmp_site p = FunctionSite
  | None => True
  end.

(** [entered f m]: activation [f] has been entered. *)
Record entered (f : nat) (m : Machine) : Prop := mk_entered {
  en_frames : f < frames m;
  en_return : return_buf_ok m
}.

(** [beyond f m]: moreover [error_buf] was last filled by an activation
    entered after [f]. *)
Record beyond (f : nat) (m : Machine) : Prop := mk_beyond {
  be_entered : entered f m;
  be_error : match error_buf (context m) with
             | Some p => f < jmp_frame p
             | None => False
             end
}.

(** A jump to [p] does not land in activation [f], unless at the [setjmp]
    of [execute_function]. *)
Definition lands_off (f : nat) (p : jmp_point) : Prop :=
  f < jmp_frame p \/ jmp_site p = FunctionSite.

(** [keeps_from pre f c]: started in a machine that meets [pre], the piece
    [c] leaves a machine beyond [f], and a jump that leaves [c] lands off
    [f]. *)
Definition keeps_from {A : Type} (pre : Machine -> Prop) (f : nat) (c : M A) : Prop :=
  forall m, pre m ->
    match c m with
    | Done _ m' => beyond f m'
    | Longjmp p m' => beyond f m' /\ lands_off f p
    | Exit _ _ | Undefined | OutOfFuel => True
    end.

Definition keeps {A : Type} (f : nat) (c : M A) : Prop := keeps_from (beyond f) f c.

Definition enters {A : Type} (f : nat) (c : M A) : Prop := keeps_from (entered f) f c.

(** The TRY branch with the [else] part of its [setjmp] test left out. *)
Definition try_without_catch `{Libc} (exec : string -> M unit) (frame : nat) : M unit :=
  printf ("Enter TRY block lines (type CATCH on a line by itself):" +++ NL) ;;
  try_lines <- collect_array "TRY> " (is_sentinel "CATCH") ;;
  modify_context (set_error_buf (Some (mkJmp frame TrySite))) ;;
  try_branch exec try_lines.

(** ** The grammar of expressions, as a syntax tree with its value

    This is the reading of an expression the parser is compared with: four
    levels (comparison, additive, multiplicative, primary), a binary
    operator node for every operator, the left operand of a node at the
    level of the node or above, the right operand strictly above (operators
    of one level fold from the left). *)

Inductive binop : Type :=
| OpEq | OpNe | OpLe | OpGe | OpLt | OpGt   (* comparison *)
| OpAdd | OpSub                            (* additive *)
| OpMul | OpDiv.                           (* multiplicative *)

Definition level (op : binop) : nat :=
  match op with
  | OpEq | OpNe | OpLe | OpGe | OpLt | OpGt => 0
  | OpAdd | OpSub => 1
  | OpMul | OpDiv => 2
  end.

Definition op_text (op : binop) : string :=
  match op with
  | OpEq => "==" | OpNe => "!=" | OpLe => "<=" | OpGe => ">="
  | OpLt => "<" | OpGt => ">"
  | OpAdd => "+" | OpSub => "-"
  | OpMul => "*" | OpDiv => "/"
  end.

Inductive expr : Type :=
| Num (text : string) (v : float)   (* a numeric literal and the double it denotes *)
| Bool (b : bool)
| Ref (name : string)
| Paren (e : expr)
| Bin (op : binop) (l r : expr).

Definition expr_level (e : expr) : nat :=
  match e with
  | Bin op _ _ => level op
  | _ => 3
  end.

(** The text of a tree: one blank on each side of a binary operator. *)
Fixpoint show (e : expr) : string :=
  match e with
  | Num text _ => text
  | Bool b => if b then "true" else "false"
  | Ref name => name
  | Paren e' => "(" +++ show e' +++ ")"
  | Bin op l r => show l +++ " " +++ op_text op +++ " " +++ show r
  end.

(** What can follow a primary in the text of a tree: nothing, a blank or a
    closing parenthesis. *)
Definition delimited (rest : string) : Prop :=
  match rest with
  | EmptyString => True
  | String c _ => c = " "%char \/ c = ")"%char
  end.

(** [strtod] reads the literal [text] as [v], whatever delimited text
    follows. *)
Definition reads `{Libc} (text : string) (v : float) : Prop :=
  starts_number text = true
  /\ forall rest, delimited rest -> strtod (text +++ rest) = (v, rest).

(** The trees of the grammar. *)
Fixpoint well_formed `{Libc} (e : expr) : Prop :=
  match e with
  | Num text v => reads text v
  | Bool _ => True
  | Ref name => is_identifier name = true
  | Paren e' => well_formed e'
  | Bin op l r =>
      level op <= expr_level l /\ level op < expr_level r
      /\ well_formed l /\ well_formed r
  end.

(** The value of an operator node, or the fault it raises. *)
Definition apply_op (op : binop) (a b : float) : float + string :=
  match op with
  | OpEq => inl (float_of_bool (PrimFloat.eqb a b))
  | OpNe => inl (float_of_bool (negb (PrimFloat.eqb a b)))
  | OpLe => inl (float_of_bool (PrimFloat.leb a b))
  | OpGe => inl (float_of_bool (PrimFloat.leb b a))
  | OpLt => inl (float_of_bool (PrimFloat.ltb a b))
  | OpGt => inl (float_of_bool (PrimFloat.ltb b a))
  | OpAdd => inl (a + b)%float
  | OpSub => inl (a - b)%float
  | OpMul => inl (a * b)%float
  | OpDiv => if PrimFloat.eqb b 0%float then inr MSG_DIV0 else inl (a / b)%float
  end.

(** The value of a tree: operands left to right, then the operator. *)
Fixpoint denote `{Libc} (ctx : InterpreterContext) (e : expr) : float + string :=
  match e with
  | Num _ v => inl v
  | Bool b => inl (float_of_bool b)
  | Ref name =>
      inl (match get_variable ctx name with
           | Some val => atof val
           | None => 0%float
           end)
  | Paren e' => denote ctx e'
  | Bin op l r =>
      match denote ctx l with
      | inr msg => inr msg
      | inl a =>
          match denote ctx r with
          | inr msg => inr msg
          | inl b => apply_op op a b
          end
      end
  end.

(** A value or a fault as the parser returns it, with the cursor on [rest]. *)
Definition returns (d : float + string) (rest : string) : parse_result :=
  match d with
  | inl v => PVal v rest
  | inr msg => PFault msg
  end.

Fixpoint size (e : expr) : nat :=
  match e with
  | Paren e' => S (size e')
  | Bin _ l r => S (size l + size r)
  | _ => 1
  end.

(** [parses p s r]: with enough fuel, the parser function [p] returns [r]
    on [s]. *)
Definition parses (p : nat -> string -> parse_result) (s : string)
  (r : parse_result) : Prop :=
  exists n, forall fuel, n <= fuel -> p fuel s = r.

(** [stops k rest]: the text [rest] ends a chain of level [k]: it is empty,
    or starts with a closing parenthesis, or with an operator of a level
    below [k]. *)
Inductive stops (k : nat) : string -> Prop :=
| stops_end : stops k EmptyString
| stops_paren : forall s, stops k (")" +++ s)
| stops_op : forall op s, level op < k -> stops k (" " +++ op_text op +++ " " +++ s).

(** Decimal numerals: strings of digits and the integers they write. *)
Fixpoint all_digits (s : string) : bool :=
  match s with
  | EmptyString => true
  | String c s' => Ctype.isdigit c && all_digits s'
  end.

Fixpoint digits_value (s : string) (acc : Z) : Z :=
  match s with
  | EmptyString => acc
  | String c s' => digits_value s' (10 * acc + Z.of_nat (Ctype.code c - 48))
  end.

(** [agrees ctx p k n]: on the text of a tree of level [k] or above and of
    size at most [n], followed by text that ends a chain of level [k], the
    parser function [p] returns the value of the tree and stops before that
    text. *)
Definition agrees `{Libc} (ctx : InterpreterContext)
  (p : nat -> string -> parse_result) (k n : nat) : Prop :=
  forall e rest,
    size e <= n -> well_formed e -> k <= expr_level e -> stops k rest ->
    exists rest',
      skip_spaces rest' = skip_spaces rest
      /\ parses p (show e +++ rest) (returns (denote ctx e) rest').

(** ** Fuel of the parser *)

(** [bounded n r]: the parser returned, with a value and a rest no longer
    than [n], or with a fault. *)
Definition bounded (n : nat) (r : parse_result) : Prop :=
  match r with
  | PVal _ rest => String.length rest <= n
  | PFault _ => True
  | PFuel => False
  end.

(** [settles a b]: [a] ran out of fuel, or it is [b]. *)
Definition settles (a b : parse_result) : Prop := a = PFuel \/ a = b.

(** Strings of letters, in either case. *)
Fixpoint all_letters (s : string) : bool :=
  match s with
  | EmptyString => true
  | String a s' => Ctype.isupper (Ctype.toupper a) && all_letters s'
  end.

(** ** Words, blanks and quoted text, for the statements about the
    tokenizer and [trim_whitespace] *)

Fixpoint all_spaces (s : string) : bool :=
  match s with
  | EmptyString => true
  | String c s' => Ctype.isspace c && all_spaces s'
  end.

Fixpoint no_space (s : string) : bool :=
  match s with
  | EmptyString => true
  | String c s' => negb (Ctype.isspace c) && no_space s'
  end.

Fixpoint no_quote (s : string) : bool :=
  match s with
  | EmptyString => true
  | String c s' => negb (is_quote c) && no_quote s'
  end.

(** A token as the unquoted branch of [tokenize] produces it: not empty, no
    blank inside, no quote in front, and short enough for [token]. *)
Definition is_word (w : string) : bool :=
  match w with
  | EmptyString => false
  | String c _ =>
      negb (is_quote c) && no_space w && (String.length w <=? MAX_LINE_LENGTH - 1)
  end.

(** Text that neither starts nor ends with a blank. *)
Definition is_trimmed (s : string) : bool :=
  String.eqb (skip_spaces s) s && String.eqb (skip_spaces (string_rev s)) (string_rev s).

(** What may follow a token: nothing, or a blank. *)
Definition ends_token (rest : string) : Prop :=
  match rest with
  | EmptyString => True
  | String c _ => Ctype.isspace c = true
  end.

(** The lines of the input that are not the sentinel of a block. *)
Definition no_sentinel (sentinel : string -> bool) (input : list string) : bool :=
  forallb (fun chunk => negb (sentinel (trim_whitespace (strip_newline chunk)))) input.

(** A line of the input as a block keeps it. *)
Definition kept_line (chunk : string) : string := trim_in_place (strip_newline chunk).

(** The guards of the branches of [execute_line], in order: whether a line
    whose command word, in upper case, is [command] and which has
    [token_count] tokens is taken by one of them. *)
Definition recognised (command : string) (token_count : nat) : bool :=
  let cmd name := strcmp_eq command name in
  (cmd "VARIABLE" || cmd "SET") && (4 <=? token_count)
  || cmd "PRINT"
  || cmd "GET" && (2 <=? token_count)
  || cmd "DEBUG" && (2 <=? token_count)
  || cmd "INPUT" && (3 <=? token_count)
  || cmd "REPEAT" && (3 <=? token_count)
  || cmd "IF"
  || cmd "WHILE"
  || cmd "FOR"
  || cmd "TRY"
  || cmd "IMPORT" && (2 <=? token_count)
  || cmd "CONCAT" && (4 <=? token_count)
  || cmd "CALL" && (2 <=? token_count)
  || cmd "RETURN" && (2 <=? token_count)
  || cmd "STACK"
  || cmd "TRACE"
  || cmd "HELP"
  || cmd "CHEATSHEET"
  || cmd "CUSTOM"
  || cmd "GUIDED"
  || cmd "AUDIO" && (2 <=? token_count)
  || cmd "THEME" && (2 <=? token_count)
  || cmd "SAY" && (2 <=? token_count)
  || cmd "EXIT".

(** Text in which [parse_factor] finds no operand: it is empty or, after
    its blanks, starts with a character that opens neither a name, a number
    nor a parenthesis. *)
Definition no_operand (s : string) : bool :=
  match skip_spaces s with
  | EmptyString => true
  | String c _ =>
      negb (is_ident_char c) && negb (eqb_char c "("%char) && negb (eqb_char c "."%char)
  end.



(** [passes same c]: however the piece [c] ends, the context it leaves is
    related by [same] to the context it started in. *)
Definition passes {A : Type} (same : InterpreterContext -> InterpreterContext -> Prop)
  (c : M A) : Prop :=
  forall m,
    match c m with
    | Done _ m' | Longjmp _ m' | Exit _ m' => same (context m) (context m')
    | Undefined | OutOfFuel => True
    end.

(** No two variables of the store have the same name. *)
Definition distinct_names (c : InterpreterContext) : Prop :=
  NoDup (map var_name (variables c)).

(** No call is active: the registry is empty, the active-function flag is
    off and the call stack is empty, as [init_context] makes them. *)
Definition outside_function (c : InterpreterContext) : Prop :=
  functions c = [] /\ in_function c = false /\ call_stack c = [].

Definition stays_outside (c c' : InterpreterContext) : Prop :=
  outside_function c -> outside_function c'.

(** The part of the context that tells where the program is in its file. *)
Definition same_position (c c' : InterpreterContext) : Prop :=
  current_line c' = current_line c /\ code_lines c' = code_lines c.

(** * Properties *)

(** ** Lengths of the strings the scanners leave *)

Lemma skip_spaces_length (s : string) :
  String.length (skip_spaces s) <= String.length s.
Proof.
  induction s as [|c s IH]; simpl; [lia|].
  destruct (Ctype.isspace c); simpl; lia.
Qed.

Lemma string_drop_length (n : nat) (s : string) :
  String.length (string_drop n s) <= String.length s.
Proof.
  revert s; induction n as [|n IH]; intros [|c s]; simpl; try lia.
  specialize (IH s); lia.
Qed.

Lemma copy_until_length (stop : ascii -> bool) (room : nat) (p : string) :
  String.length (snd (copy_until stop room p)) <= String.length p.
Proof.
  revert p; induction room as [|room IH]; intros [|c p]; simpl; try lia.
  destruct (stop c); simpl; [lia|].
  specialize (IH p). destruct (copy_until stop room p); simpl in *; lia.
Qed.

Module C99Facts.

Import C99.

Lemma read_digits_length (s : string) (acc count : Z) :
  String.length (snd (read_digits s acc count)) <= String.length s.
Proof.
  revert acc count; induction s as [|c s IH]; intros acc count; simpl; [lia|].
  destruct (Ctype.isdigit c); [|simpl; lia].
  eapply Nat.le_trans; [apply IH | lia].
Qed.

Lemma read_sign_length (s : string) :
  String.length (snd (read_sign s)) <= String.length s.
Proof.
  destruct s as [|c s]; simpl; [lia|].
  destruct c as [[] [] [] [] [] [] [] []]; simpl; lia.
Qed.

Lemma read_exponent_length (s : string) :
  String.length (snd (read_exponent s)) <= String.length s.
Proof.
  destruct s as [|c s]; simpl; [lia|].
  destruct (eqb_char (Ctype.toupper c) "E"); simpl; [|lia].
  pose proof (read_sign_length s) as Hs.
  destruct (read_sign s) as [neg s1]; simpl in Hs.
  pose proof (read_digits_length s1 0 0) as Hd.
  destruct (read_digits s1 0 0) as [[v n] s2]; simpl in Hd.
  destruct (n =? 0)%Z; simpl; lia.
Qed.

Lemma strtod_length (s : string) :
  String.length (snd (strtod s)) <= String.length s.
Proof.
  unfold strtod.
  pose proof (skip_spaces_length s) as H0.
  pose proof (read_sign_length (skip_spaces s)) as H1.
  destruct (read_sign (skip_spaces s)) as [neg s1]; cbn [snd] in H1.
  destruct (strncasecmp_eq s1 "infinity");
    [cbn [snd]; pose proof (string_drop_length 8 s1); lia|].
  destruct (strncasecmp_eq s1 "inf");
    [cbn [snd]; pose proof (string_drop_length 3 s1); lia|].
  destruct (strncasecmp_eq s1 "nan");
    [cbn [snd]; pose proof (string_drop_length 3 s1); lia|].
  pose proof (read_digits_length s1 0 0) as H2.
  destruct (read_digits s1 0 0) as [[ip ni] s2]; cbn [snd] in H2.
  assert (H3 : forall m nf s3,
             (m, nf, s3) = match s2 with
                           | String "." s2' => read_digits s2' ip 0
                           | _ => (ip, 0%Z, s2)
                           end ->
             String.length s3 <= String.length s2).
  { intros m nf s3 E. destruct s2 as [|c s2']; [inversion E; simpl; lia|].
    destruct (Ascii.eqb c ".") eqn:Ec.
    - apply Ascii.eqb_eq in Ec; subst c.
      pose proof (read_digits_length s2' ip 0) as Hd.
      rewrite <- E in Hd; cbn [snd String.length] in *; lia.
    - assert (E' : (m, nf, s3) = (ip, 0%Z, String c s2')).
      { rewrite E. destruct c as [[] [] [] [] [] [] [] []]; try reflexivity.
        discriminate Ec. }
      inversion E'; simpl; lia. }
  destruct (match s2 with
            | String "." s2' => read_digits s2' ip 0
            | _ => (ip, 0%Z, s2)
            end) as [[m nf] s3].
  specialize (H3 m nf s3 eq_refl).
  destruct (ni + nf =? 0)%Z; cbn [snd]; [lia|].
  pose proof (read_exponent_length s3) as H4.
  destruct (read_exponent s3) as [ex s4]; cbn [snd] in *; lia.
Qed.

End C99Facts.

(** The libc used for the concrete runs. *)
#[export] Instance c99_libc : Libc := {|
  strtod := C99.strtod;
  format_g := C99.format_g;
  strtod_rest := C99Facts.strtod_length
|}.

(** ** Laws of the machine monad *)

Lemma bind_done {A B : Type} (c : M A) (k : A -> M B) (m m' : Machine) (a : A) :
  c m = Done a m' -> bind c k m = k a m'.
Proof. intros E; unfold bind; rewrite E; reflexivity. Qed.

Lemma bind_longjmp {A B : Type} (c : M A) (k : A -> M B) (m m' : Machine)
  (p : jmp_point) :
  c m = Longjmp p m' -> bind c k m = Longjmp p m'.
Proof. intros E; unfold bind; rewrite E; reflexivity. Qed.

Lemma bind_assoc {A B C : Type} (c : M A) (k : A -> M B) (h : B -> M C) (m : Machine) :
  bind (bind c k) h m = bind c (fun a => bind (k a) h) m.
Proof. unfold bind; destruct (c m); reflexivity. Qed.

(** ** Results that may be undefined *)

Lemma defined_some {A B : Type} (result : option A) (a : A) (k : A -> M B)
  (m : Machine) :
  result = Some a -> bind (defined result) k m = k a m.
Proof. intros ->; reflexivity. Qed.

Lemma defined_none {A B : Type} (result : option A) (k : A -> M B) (m : Machine) :
  result = None -> bind (defined result) k m = Undefined.
Proof. intros ->; reflexivity. Qed.

Lemma join_tokens_some (tokens : list string) (start token_count : nat) (text : string) :
  join_tokens tokens start token_count = Some text <->
  text = joined_text tokens start token_count /\ String.length text < MAX_LINE_LENGTH.
Proof.
  unfold join_tokens.
  destruct (String.length (joined_text tokens start token_count) <? MAX_LINE_LENGTH)
    eqn:Fits.
  - apply Nat.ltb_lt in Fits. split.
    + intros E; injection E as <-. split; [reflexivity | exact Fits].
    + intros [-> _]. reflexivity.
  - apply Nat.ltb_ge in Fits. split; [discriminate|].
    intros [-> Short]. lia.
Qed.

Lemma join_tokens_none (tokens : list string) (start token_count : nat) :
  join_tokens tokens start token_count = None <->
  MAX_LINE_LENGTH <= String.length (joined_text tokens start token_count).
Proof.
  unfold join_tokens.
  destruct (String.length (joined_text tokens start token_count) <? MAX_LINE_LENGTH)
    eqn:Fits.
  - apply Nat.ltb_lt in Fits. split; [discriminate | lia].
  - apply Nat.ltb_ge in Fits. split; [intros _; exact Fits | reflexivity].
Qed.

Lemma jmp_eqb_refl (p : jmp_point) : jmp_eqb p p = true.
Proof.
  unfold jmp_eqb; rewrite Nat.eqb_refl; destruct (jmp_site p); reflexivity.
Qed.

Lemma jmp_eqb_eq (p q : jmp_point) : jmp_eqb p q = true <-> p = q.
Proof.
  split; [|intros ->; apply jmp_eqb_refl].
  destruct p as [f s], q as [g t]; unfold jmp_eqb; simpl.
  intros E; apply andb_true_iff in E as [Ef Es].
  apply Nat.eqb_eq in Ef; subst g.
  destruct s, t; simpl in Es; try discriminate; reflexivity.
Qed.

Lemma jmp_eqb_site (p q : jmp_point) :
  jmp_site p <> jmp_site q -> jmp_eqb p q = false.
Proof.
  intros N; destruct (jmp_eqb p q) eqn:E; [|reflexivity].
  apply jmp_eqb_eq in E; subst; contradiction.
Qed.

(** A jump to another point passes through [on_longjmp]. *)
Lemma on_longjmp_pass {A : Type} (fuel : nat) (here p : jmp_point)
  (body handler : M A) (m m' : Machine) :
  body m = Longjmp p m' -> jmp_eqb p here = false ->
  on_longjmp fuel here body handler m = Longjmp p m'.
Proof. intros E N; unfold on_longjmp; rewrite E, N; reflexivity. Qed.

Lemma on_longjmp_done {A : Type} (fuel : nat) (here : jmp_point)
  (body handler : M A) (m m' : Machine) (a : A) :
  body m = Done a m' -> on_longjmp fuel here body handler m = Done a m'.
Proof. intros E; unfold on_longjmp; rewrite E; reflexivity. Qed.

(** A jump to [here] continues with the handler. *)
Lemma on_longjmp_caught {A : Type} (fuel : nat) (here : jmp_point)
  (body handler : M A) (m m1 m2 : Machine) (a : A) :
  body m = Longjmp here m1 -> handler m1 = Done a m2 ->
  on_longjmp (S fuel) here body handler m = Done a m2.
Proof.
  intros E Eh; unfold on_longjmp; rewrite E, jmp_eqb_refl; simpl.
  rewrite Eh; reflexivity.
Qed.

(** ** The head of [execute_line] *)

Section LineFacts.

Context `{Libc}.

Lemma execute_line_unfold (fuel : nat) (line : string) (m : Machine) :
  execute_line (S fuel) line m =
  on_longjmp (S fuel) (mkJmp (frames m) LineSite)
    (dispatch (execute_line fuel) fuel (frames m) line)
    (print_error_here MSG_SKIP) (enter_line m).
Proof. reflexivity. Qed.

(** A line whose branch returns, returns. *)
Lemma execute_line_done (fuel : nat) (line : string) (m m' : Machine) :
  dispatch (execute_line fuel) fuel (frames m) line (enter_line m) = Done tt m' ->
  execute_line (S fuel) line m = Done tt m'.
Proof. intros E; rewrite execute_line_unfold; apply on_longjmp_done, E. Qed.

(** The per-line fault boundary: a jump to the line's own [setjmp] prints
    the skip message and the line returns. *)
Lemma execute_line_absorbs (fuel : nat) (line : string) (m m' : Machine) :
  dispatch (execute_line fuel) fuel (frames m) line (enter_line m)
    = Longjmp (mkJmp (frames m) LineSite) m' ->
  execute_line (S fuel) line m =
  Done tt (add_output (error_events (context m') MSG_SKIP (current_line (context m') + 1)) m').
Proof.
  intros E; rewrite execute_line_unfold.
  eapply on_longjmp_caught; [exact E | reflexivity].
Qed.

(** Undefined behaviour in the branch is undefined behaviour of the line. *)
Lemma execute_line_undefined (fuel : nat) (line : string) (m : Machine) :
  dispatch (execute_line fuel) fuel (frames m) line (enter_line m) = Undefined ->
  execute_line (S fuel) line m = Undefined.
Proof.
  intros E; rewrite execute_line_unfold. unfold on_longjmp. rewrite E. reflexivity.
Qed.

(** A jump to a [setjmp] of [execute_function] passes through the line. *)
Lemma execute_line_passes (fuel : nat) (line : string) (m m' : Machine)
  (p : jmp_point) :
  dispatch (execute_line fuel) fuel (frames m) line (enter_line m) = Longjmp p m' ->
  jmp_site p = FunctionSite ->
  execute_line (S fuel) line m = Longjmp p m'.
Proof.
  intros E S; rewrite execute_line_unfold.
  apply on_longjmp_pass; [exact E|].
  apply jmp_eqb_site; rewrite S; discriminate.
Qed.

End LineFacts.

(** ** Identifiers *)

Lemma ident_char_not_space (c : ascii) :
  is_ident_char c = true -> Ctype.isspace c = false.
Proof. destruct c as [[] [] [] [] [] [] [] []]; vm_compute; congruence. Qed.

Lemma ident_char_not_paren (c : ascii) :
  is_ident_char c = true -> c <> "("%char.
Proof. intros I ->; vm_compute in I; discriminate. Qed.

Lemma ident_char_not_point (c : ascii) :
  is_ident_char c = true -> eqb_char c "."%char = false.
Proof. destruct c as [[] [] [] [] [] [] [] []]; vm_compute; congruence. Qed.



(** ** Unfolding equations of the parser *)

Section ParserEquations.

Context `{Libc}.
Variable ctx : InterpreterContext.

Lemma parse_factor_S (fuel : nat) (str : string) :
  parse_factor ctx (S fuel) str =
  let str := skip_spaces str in
  if is_literal "true" str then PVal 1%float (string_drop 4 str)
  else if is_literal "false" str then PVal 0%float (string_drop 5 str)
  else if eqb_char (char_at 0 str) "("%char then
    pbind (parse_comparison ctx fuel (string_drop 1 str)) (fun result str2 =>
      let str3 := skip_spaces str2 in
      if eqb_char (char_at 0 str3) ")"%char then PVal result (string_drop 1 str3)
      else PFault MSG_PAREN)
  else if starts_number str then
    let (result, rest) := strtod str in PVal result rest
  else
    let (varname, rest) := scan_identifier str in
    match get_variable ctx varname with
    | Some val => PVal (atof val) rest
    | None => PVal 0%float rest
    end.
Proof. reflexivity. Qed.

Lemma parse_term_loop_S (fuel : nat) (result : float) (str : string) :
  parse_term_loop ctx (S fuel) result str =
  match str with
  | EmptyString => PVal result str
  | _ =>
      let str' := skip_spaces str in
      let op := char_at 0 str' in
      if eqb_char op "*"%char then
        pbind (parse_factor ctx fuel (string_drop 1 str')) (fun rhs str2 =>
          parse_term_loop ctx fuel (result * rhs)%float str2)
      else if eqb_char op "/"%char then
        pbind (parse_factor ctx fuel (string_drop 1 str')) (fun rhs str2 =>
          if PrimFloat.eqb rhs 0%float then PFault MSG_DIV0
          else parse_term_loop ctx fuel (result / rhs)%float str2)
      else PVal result str'
  end.
Proof. reflexivity. Qed.

Lemma parse_term_S (fuel : nat) (str : string) :
  parse_term ctx (S fuel) str =
  pbind (parse_factor ctx fuel str) (fun result str1 =>
    parse_term_loop ctx fuel result str1).
Proof. reflexivity. Qed.

Lemma parse_expression_loop_S (fuel : nat) (result : float) (str : string) :
  parse_expression_loop ctx (S fuel) result str =
  match str with
  | EmptyString => PVal result str
  | _ =>
      let str' := skip_spaces str in
      let op := char_at 0 str' in
      if eqb_char op "+"%char then
        pbind (parse_term ctx fuel (string_drop 1 str')) (fun rhs str2 =>
          parse_expression_loop ctx fuel (result + rhs)%float str2)
      else if eqb_char op "-"%char then
        pbind (parse_term ctx fuel (string_drop 1 str')) (fun rhs str2 =>
          parse_expression_loop ctx fuel (result - rhs)%float str2)
      else PVal result str'
  end.
Proof. reflexivity. Qed.

Lemma parse_expression_S (fuel : nat) (str : string) :
  parse_expression ctx (S fuel) str =
  pbind (parse_term ctx fuel str) (fun result str1 =>
    parse_expression_loop ctx fuel result str1).
Proof. reflexivity. Qed.

Lemma parse_comparison_loop_S (fuel : nat) (left : float) (str : string) :
  parse_comparison_loop ctx (S fuel) left str =
  match str with
  | EmptyString => PVal left str
  | _ =>
      let str' := skip_spaces str in
      let compare (width : nat) (op : float -> float -> bool) :=
        pbind (parse_expression ctx fuel (string_drop width str'))
          (fun right str2 =>
             parse_comparison_loop ctx fuel (float_of_bool (op left right)) str2) in
      if strncmp_eq str' "==" then compare 2 PrimFloat.eqb
      else if strncmp_eq str' "!=" then
        compare 2 (fun a b => negb (PrimFloat.eqb a b))
      else if strncmp_eq str' "<=" then compare 2 PrimFloat.leb
      else if strncmp_eq str' ">=" then compare 2 (fun a b => PrimFloat.leb b a)
      else if strncmp_eq str' "<" then compare 1 PrimFloat.ltb
      else if strncmp_eq str' ">" then compare 1 (fun a b => PrimFloat.ltb b a)
      else PVal left str'
  end.
Proof. reflexivity. Qed.

Lemma parse_comparison_S (fuel : nat) (str : string) :
  parse_comparison ctx (S fuel) str =
  pbind (parse_expression ctx fuel str) (fun left str1 =>
    parse_comparison_loop ctx fuel left str1).
Proof. reflexivity. Qed.

End ParserEquations.

Section IdentifierFacts.

Context `{Libc}.


End IdentifierFacts.

Section EvaluateIdentifier.

Context `{Libc}.

Lemma expression_fuel_four (expr : string) :
  exists k, expression_fuel expr = S (S (S (S k))).
Proof.
  unfold expression_fuel. exists (4 * String.length expr). lia.
Qed.


End EvaluateIdentifier.

(** ** The evaluator reads nothing of the context but the store *)

Section ParserExtensionality.

Context `{Libc}.
Variables c c' : InterpreterContext.
Hypothesis same_store : variables c = variables c'.

Lemma get_variable_ext (name : string) : get_variable c name = get_variable c' name.
Proof. unfold get_variable; rewrite same_store; reflexivity. Qed.

Lemma parser_ext (fuel : nat) :
  (forall s, parse_factor c fuel s = parse_factor c' fuel s)
  /\ (forall r s, parse_term_loop c fuel r s = parse_term_loop c' fuel r s)
  /\ (forall s, parse_term c fuel s = parse_term c' fuel s)
  /\ (forall r s, parse_expression_loop c fuel r s = parse_expression_loop c' fuel r s)
  /\ (forall s, parse_expression c fuel s = parse_expression c' fuel s)
  /\ (forall r s, parse_comparison_loop c fuel r s = parse_comparison_loop c' fuel r s)
  /\ (forall s, parse_comparison c fuel s = parse_comparison c' fuel s).
Proof.
  induction fuel as [|fuel (F & TL & T & EL & E & CL & C)].
  - repeat split; reflexivity.
  - repeat split; intros.
    + rewrite !parse_factor_S; cbv zeta. rewrite C.
      destruct (scan_identifier (skip_spaces s)) as [varname rest].
      rewrite get_variable_ext; reflexivity.
    + rewrite !parse_term_loop_S; cbv zeta. rewrite F.
      destruct s; [reflexivity|].
      destruct (eqb_char _ _); [|destruct (eqb_char _ _)]; try reflexivity.
      * destruct (parse_factor c' fuel _); simpl; auto.
      * destruct (parse_factor c' fuel _); simpl; auto.
        destruct (PrimFloat.eqb v 0); auto.
    + rewrite !parse_term_S, F.
      destruct (parse_factor c' fuel s); simpl; auto.
    + rewrite !parse_expression_loop_S; cbv zeta. rewrite T.
      destruct s; [reflexivity|].
      destruct (eqb_char _ _); [|destruct (eqb_char _ _)]; try reflexivity.
      * destruct (parse_term c' fuel _); simpl; auto.
      * destruct (parse_term c' fuel _); simpl; auto.
    + rewrite !parse_expression_S, T.
      destruct (parse_term c' fuel s); simpl; auto.
    + rewrite !parse_comparison_loop_S; cbv zeta.
      destruct s; [reflexivity|].
      repeat (destruct (strncmp_eq _ _);
              [rewrite E; destruct (parse_expression c' fuel _); simpl; auto|]).
      reflexivity.
    + rewrite !parse_comparison_S, E.
      destruct (parse_expression c' fuel s); simpl; auto.
Qed.

Lemma evaluate_expression_ext (expr : string) :
  evaluate_expression c expr = evaluate_expression c' expr.
Proof. unfold evaluate_expression; apply parser_ext. Qed.

End ParserExtensionality.

(** ** Which branch of [dispatch] a line takes *)

Lemma upcase_length (s : string) : String.length (upcase s) = String.length s.
Proof.
  unfold upcase. induction s as [|c s IH]; cbn [string_map String.length]; congruence.
Qed.

(** A command word that is one of the commands fits [command]. *)
Lemma command_fits (c command : string) :
  upcase c = command ->
  String.length command < MAX_LINE_LENGTH ->
  (MAX_LINE_LENGTH <=? String.length c) = false.
Proof.
  intros <- Short. rewrite upcase_length in Short. apply Nat.leb_gt. exact Short.
Qed.

Ltac dispatch_branch T C :=
  unfold dispatch; rewrite T;
  cbn [List.length Nat.eqb tok nth];
  rewrite (command_fits _ _ C) by (unfold MAX_LINE_LENGTH; cbn; lia);
  repeat rewrite C; reflexivity.

Section DispatchFacts.

Context `{Libc}.
Variable exec : string -> M unit.
Variables fuel frame : nat.


Lemma dispatch_SET (line c name eq e : string) (es : list string) (m : Machine) :
  tokenize line = c :: name :: eq :: e :: es ->
  upcase c = "SET" \/ upcase c = "VARIABLE" ->
  dispatch exec fuel frame line m =
  cmd_SET (c :: name :: eq :: e :: es) (logged (upcase c) m).
Proof. intros T [C|C]; dispatch_branch T C. Qed.

Lemma dispatch_RETURN (line c e : string) (es : list string) (m : Machine) :
  tokenize line = c :: e :: es -> upcase c = "RETURN" ->
  dispatch exec fuel frame line m = cmd_RETURN (c :: e :: es) (logged "RETURN" m).
Proof. intros T C; dispatch_branch T C. Qed.

Lemma dispatch_IF (line c : string) (rest : list string) (m : Machine) :
  tokenize line = c :: rest -> upcase c = "IF" ->
  dispatch exec fuel frame line m = cmd_IF exec (c :: rest) (logged "IF" m).
Proof. intros T C; dispatch_branch T C. Qed.

Lemma dispatch_REPEAT (line c n x : string) (xs : list string) (m : Machine) :
  tokenize line = c :: n :: x :: xs -> upcase c = "REPEAT" ->
  dispatch exec fuel frame line m =
  cmd_REPEAT exec (c :: n :: x :: xs) (logged "REPEAT" m).
Proof. intros T C; dispatch_branch T C. Qed.

Lemma dispatch_FOR (line c : string) (rest : list string) (m : Machine) :
  tokenize line = c :: rest -> upcase c = "FOR" ->
  dispatch exec fuel frame line m = cmd_FOR exec fuel (c :: rest) (logged "FOR" m).
Proof. intros T C; dispatch_branch T C. Qed.

Lemma dispatch_TRY (line c : string) (rest : list string) (m : Machine) :
  tokenize line = c :: rest -> upcase c = "TRY" ->
  dispatch exec fuel frame line m = cmd_TRY exec fuel frame (logged "TRY" m).
Proof. intros T C; dispatch_branch T C. Qed.

Lemma dispatch_CALL (line c name : string) (args : list string) (m : Machine) :
  tokenize line = c :: name :: args -> upcase c = "CALL" ->
  dispatch exec fuel frame line m =
  cmd_CALL exec fuel (c :: name :: args) (logged "CALL" m).
Proof. intros T C; dispatch_branch T C. Qed.

End DispatchFacts.

(** ** Evaluation inside the dispatcher *)

Section EvaluateFacts.

Context `{Libc}.

Lemma evaluate_value (expr : string) (m : Machine) (v : float) (rest : string) :
  evaluate_expression (context m) expr = PVal v rest ->
  evaluate expr m = Done v m.
Proof. intros E; unfold evaluate; rewrite E; reflexivity. Qed.

(** A fault of the evaluator prints its message and jumps to [error_buf];
    no value comes back. *)
Lemma evaluate_fault (expr : string) (m : Machine) (msg : string) (p : jmp_point) :
  evaluate_expression (context m) expr = PFault msg ->
  error_buf (context m) = Some p ->
  evaluate expr m = Longjmp p (add_output (error_events (context m) msg (-1)) m).
Proof.
  intros E B; unfold evaluate; rewrite E.
  unfold bind, print_error, longjmp; simpl; rewrite B; reflexivity.
Qed.

Lemma evaluate_expression_logged (command expr : string) (m : Machine) :
  evaluate_expression (context (logged command (enter_line m))) expr =
  evaluate_expression (context m) expr.
Proof. apply evaluate_expression_ext; reflexivity. Qed.

End EvaluateFacts.

(** ** Unknown names: permissive in expressions, reported by GET *)



(** ** Evaluation faults *)

Lemma paren_is_no_literal (lit s : string) :
  char_at 0 s = "("%char -> (lit = "true" \/ lit = "false") -> is_literal lit s = false.
Proof.
  intros P Hl. destruct s as [|c s]; [discriminate P|].
  change (c = "("%char) in P; subst c.
  destruct Hl; subst lit; reflexivity.
Qed.

Section FaultFacts.

Context `{Libc}.

Lemma division_by_zero_faults (ctx : InterpreterContext) (fuel : nat)
  (result : float) (str : string) (rhs : float) (rest : string) :
  str <> EmptyString ->
  char_at 0 (skip_spaces str) = "/"%char ->
  parse_factor ctx fuel (string_drop 1 (skip_spaces str)) = PVal rhs rest ->
  PrimFloat.eqb rhs 0%float = true ->
  parse_term_loop ctx (S fuel) result str = PFault MSG_DIV0.
Proof.
  intros N Op F Z. rewrite parse_term_loop_S; cbv zeta.
  destruct str as [|c str]; [contradiction|].
  rewrite Op, F; simpl. rewrite Z; reflexivity.
Qed.

Lemma unmatched_parenthesis_faults (ctx : InterpreterContext) (fuel : nat)
  (str : string) (v : float) (rest : string) :
  char_at 0 (skip_spaces str) = "("%char ->
  parse_comparison ctx fuel (string_drop 1 (skip_spaces str)) = PVal v rest ->
  eqb_char (char_at 0 (skip_spaces rest)) ")"%char = false ->
  parse_factor ctx (S fuel) str = PFault MSG_PAREN.
Proof.
  intros P C N. rewrite parse_factor_S; cbv zeta.
  rewrite (paren_is_no_literal "true"), (paren_is_no_literal "false") by auto.
  rewrite P, C; simpl. rewrite N; reflexivity.
Qed.

(** A SET whose expression faults: both messages are printed, the line
    returns, the store is untouched. *)
Lemma faulting_SET_is_skipped (fuel : nat) (line c name e : string)
  (es : list string) (m : Machine) (expr msg : string) :
  let tokens := c :: name :: "=" :: e :: es in
  tokenize line = tokens ->
  upcase c = "SET" \/ upcase c = "VARIABLE" ->
  strncmp_eq e "S:" && (List.length tokens =? 4) = false ->
  join_tokens tokens 3 (List.length tokens) = Some expr ->
  evaluate_expression (context m) expr = PFault msg ->
  execute_line (S fuel) line m =
  Done tt (add_output (error_events (context m) MSG_SKIP (current_line (context m) + 1))
             (add_output (error_events (context m) msg (-1))
                (logged (upcase c) (enter_line m)))).
Proof.
  intros tokens T C Lit J E.
  rewrite (execute_line_absorbs fuel line m
             (add_output (error_events (context m) msg (-1)) (logged (upcase c) (enter_line m))));
    [reflexivity|].
  rewrite (dispatch_SET _ _ _ line c name "=" e es _ T C).
  unfold cmd_SET. cbn [tok nth].
  change (strcmp_eq "=" "=") with true; cbn [negb].
  fold tokens. rewrite Lit.
  rewrite (defined_some _ expr) by exact J.
  apply bind_longjmp.
  rewrite (evaluate_fault _ _ msg (mkJmp (frames m) LineSite));
    [reflexivity | | reflexivity].
  rewrite evaluate_expression_logged; exact E.
Qed.

End FaultFacts.

(** X2.  A zero divisor and an unmatched opening parenthesis each make the
    parser leave with a fault instead of a value; the evaluation as a whole
    then yields no value but a jump to [error_buf]; in a SET line the jump is
    absorbed at the head of that line, so the line returns, the store is
    unchanged and the next line runs. *)
Theorem evaluation_faults_abort_and_are_absorbed_per_line :
  forall (L : Libc),
    (forall ctx fuel result str rhs rest,
        str <> EmptyString ->
        char_at 0 (skip_spaces str) = "/"%char ->
        parse_factor ctx fuel (string_drop 1 (skip_spaces str)) = PVal rhs rest ->
        PrimFloat.eqb rhs 0%float = true ->
        parse_term_loop ctx (S fuel) result str = PFault MSG_DIV0)
    /\
    (forall ctx fuel str v rest,
        char_at 0 (skip_spaces str) = "("%char ->
        parse_comparison ctx fuel (string_drop 1 (skip_spaces str)) = PVal v rest ->
        eqb_char (char_at 0 (skip_spaces rest)) ")"%char = false ->
        parse_factor ctx (S fuel) str = PFault MSG_PAREN)
    /\
    (forall expr m msg p,
        evaluate_expression (context m) expr = PFault msg ->
        error_buf (context m) = Some p ->
        evaluate expr m = Longjmp p (add_output (error_events (context m) msg (-1)) m))
    /\
    (forall fuel line c name e es m expr msg rest,
        let tokens := c :: name :: "=" :: e :: es in
        tokenize line = tokens ->
        upcase c = "SET" \/ upcase c = "VARIABLE" ->
        strncmp_eq e "S:" && (List.length tokens =? 4) = false ->
        join_tokens tokens 3 (List.length tokens) = Some expr ->
        evaluate_expression (context m) expr = PFault msg ->
        let m' :=
          add_output (error_events (context m) MSG_SKIP (current_line (context m) + 1))
            (add_output (error_events (context m) msg (-1))
               (logged (upcase c) (enter_line m))) in
        execute_line (S fuel) line m = Done tt m'
        /\ variables (context m') = variables (context m)
        /\ execute_block (execute_line (S fuel)) (line :: rest) m =
           execute_block (execute_line (S fuel)) rest m').
Proof.
  intros L; split; [|split; [|split]].
  - intros; eapply division_by_zero_faults; eassumption.
  - intros; eapply unmatched_parenthesis_faults; eassumption.
  - intros; apply evaluate_fault; assumption.
  - intros fuel line c name e es m expr msg rest tokens T C Lit J E m'.
    pose proof (faulting_SET_is_skipped fuel line c name e es m expr msg T C Lit J E)
      as Run.
    fold m' in Run. split; [exact Run | split; [reflexivity|]].
    cbn [execute_block]. unfold bind at 1. rewrite Run. reflexivity.
Qed.

Lemma evaluation_faults_witness :
  @parse_term_loop c99_libc (init_context 0%float) 2 5%float "/0" = PFault MSG_DIV0
  /\ @parse_factor c99_libc (init_context 0%float) 30 "(1+2" = PFault MSG_PAREN
  /\ @execute_block
       (@execute_line c99_libc 2) ["SET x = 5/0"; "SET y = 2"]
       (start_machine 0%float [] (fun _ => None))
     = @execute_block
         (@execute_line c99_libc 2) ["SET y = 2"]
         (add_output (error_events (init_context 0%float) MSG_SKIP 1)
            (add_output (error_events (init_context 0%float) MSG_DIV0 (-1))
               (logged "SET" (enter_line (start_machine 0%float [] (fun _ => None)))))).
Proof.
  pose proof (evaluation_faults_abort_and_are_absorbed_per_line c99_libc)
    as (Div & Paren & _ & Absorb).
  split; [|split].
  - apply (Div (init_context 0%float) 1 5%float "/0" 0%float EmptyString);
      [discriminate | reflexivity | reflexivity | reflexivity].
  - apply (Paren (init_context 0%float) 29 "(1+2" 3%float EmptyString);
      reflexivity.
  - refine (proj2 (proj2 (Absorb 1 "SET x = 5/0" "SET" "x" "5/0" []
             (start_machine 0%float [] (fun _ => None)) "5/0" MSG_DIV0 ["SET y = 2"]
             _ _ _ _ _)));
      [reflexivity | left; reflexivity | reflexivity | reflexivity | reflexivity].
Defined.

(** ** RETURN and the return boundary *)

Section ReturnFacts.

Context `{Libc}.

(** RETURN while no call is active: one report, the line returns. *)
Lemma return_outside_function (fuel : nat) (line c e : string) (es : list string)
  (m : Machine) :
  tokenize line = c :: e :: es ->
  upcase c = "RETURN" ->
  in_function (context m) = false ->
  execute_line (S fuel) line m =
  Done tt (add_output
             (error_events (context m) MSG_RETURN_OUTSIDE (current_line (context m) + 1))
             (logged "RETURN" (enter_line m))).
Proof.
  intros T C I. apply execute_line_done.
  rewrite (dispatch_RETURN _ _ _ line c e es _ T C).
  unfold cmd_RETURN, bind, get_context.
  change (in_function (context (logged "RETURN" (enter_line m))))
    with (in_function (context m)).
  rewrite I; reflexivity.
Qed.

(** RETURN while a call is active: the value is stored and control jumps to
    [function_return_buf]. *)
Lemma return_inside_function (fuel : nat) (line c e : string) (es : list string)
  (m : Machine) (expr : string) (v : float) (rest : string) (p : jmp_point) :
  let tokens := c :: e :: es in
  tokenize line = tokens ->
  upcase c = "RETURN" ->
  in_function (context m) = true ->
  function_return_buf (context m) = Some p ->
  jmp_site p = FunctionSite ->
  join_tokens tokens 1 (List.length tokens) = Some expr ->
  evaluate_expression (context m) expr = PVal v rest ->
  execute_line (S fuel) line m =
  Longjmp p (with_context
               (set_function_return_value v (context (logged "RETURN" (enter_line m))))
               (logged "RETURN" (enter_line m))).
Proof.
  intros tokens T C I B S J E. apply execute_line_passes; [|exact S].
  rewrite (dispatch_RETURN _ _ _ line c e es _ T C).
  unfold cmd_RETURN. unfold bind at 1. unfold get_context at 1.
  change (in_function (context (logged "RETURN" (enter_line m))))
    with (in_function (context m)).
  rewrite I; cbn [negb].
  fold tokens.
  rewrite (defined_some _ expr) by exact J.
  rewrite (bind_done _ _ _ (logged "RETURN" (enter_line m)) v).
  - unfold bind, modify_context, get_context, longjmp; simpl.
    rewrite B; reflexivity.
  - eapply evaluate_value. rewrite evaluate_expression_logged. exact E.
Qed.

(** RETURN while a call is active, with an expression that does not fit the
    block of [join_tokens]. *)
Lemma return_overrun (fuel : nat) (line c e : string) (es : list string)
  (m : Machine) :
  let tokens := c :: e :: es in
  tokenize line = tokens ->
  upcase c = "RETURN" ->
  in_function (context m) = true ->
  join_tokens tokens 1 (List.length tokens) = None ->
  execute_line (S fuel) line m = Undefined.
Proof.
  intros tokens T C I J. apply execute_line_undefined.
  rewrite (dispatch_RETURN _ _ _ line c e es _ T C).
  unfold cmd_RETURN. unfold bind at 1. unfold get_context at 1.
  change (in_function (context (logged "RETURN" (enter_line m))))
    with (in_function (context m)).
  rewrite I; cbn [negb]. fold tokens. apply defined_none, J.
Qed.

(** IF with a true condition around a line that jumps to a return boundary. *)
Lemma if_passes_return (fuel : nat) (line c : string) (rest : list string)
  (m m' : Machine) (then_i endif_i : nat) (else_idx : option nat)
  (cond_expr then_cmd : string) (v : float) (r : string) (p : jmp_point) :
  let tokens := c :: rest in
  tokenize line = tokens ->
  upcase c = "IF" ->
  scan_if rest 1 None None = (Some then_i, else_idx, Some endif_i) ->
  join_tokens tokens 1 then_i = Some cond_expr ->
  evaluate_expression (context m) cond_expr = PVal v r ->
  truthy v = true ->
  match else_idx with
  | None => join_tokens tokens (then_i + 1) endif_i
  | Some else_i => join_tokens tokens (then_i + 1) else_i
  end = Some then_cmd ->
  execute_line fuel then_cmd (logged "IF" (enter_line m)) = Longjmp p m' ->
  jmp_site p = FunctionSite ->
  execute_line (S fuel) line m = Longjmp p m'.
Proof.
  intros tokens T C Sc Jc E Tr Jt Run S. apply execute_line_passes; [|exact S].
  rewrite (dispatch_IF _ _ _ line c rest _ T C).
  unfold cmd_IF. cbn [tl]. rewrite Sc. fold tokens.
  rewrite (defined_some _ cond_expr) by exact Jc.
  rewrite (bind_done _ _ _ (logged "IF" (enter_line m)) v).
  - rewrite Tr. rewrite (defined_some _ then_cmd) by exact Jt. exact Run.
  - eapply evaluate_value. rewrite evaluate_expression_logged. exact E.
Qed.

(** REPEAT around a line that jumps to a return boundary in its first
    round: the other rounds do not run. *)
Lemma repeat_passes_return (fuel : nat) (line c n x : string) (xs : list string)
  (m m' : Machine) (count : Z) (repeat_cmd : string) (p : jmp_point) :
  let tokens := c :: n :: x :: xs in
  tokenize line = tokens ->
  upcase c = "REPEAT" ->
  atoi n = Some count ->
  (0 < count)%Z ->
  join_tokens tokens 2 (List.length tokens) = Some repeat_cmd ->
  execute_line fuel repeat_cmd
    (add_output (debug_events (context m) ("REPEAT iteration 1: " +++ repeat_cmd))
       (logged "REPEAT" (enter_line m))) = Longjmp p m' ->
  jmp_site p = FunctionSite ->
  execute_line (S fuel) line m = Longjmp p m'.
Proof.
  intros tokens T C Count Pos J Run S. apply execute_line_passes; [|exact S].
  rewrite (dispatch_REPEAT _ _ _ line c n x xs _ T C).
  unfold cmd_REPEAT. cbn [tok nth].
  rewrite (defined_some _ count) by exact Count.
  destruct (count <=? 0)%Z eqn:Le; [apply Z.leb_le in Le; lia|].
  fold tokens. rewrite (defined_some _ repeat_cmd) by exact J.
  destruct (Z.to_nat count) as [|k] eqn:K; [lia|].
  cbn [repeat_loop].
  unfold bind at 1. unfold debug_log at 1.
  unfold bind at 1.
  change (format_d (Z.of_nat 1)) with "1".
  change (execute_line fuel repeat_cmd
            (add_output (debug_events (context m) ("REPEAT iteration 1: " +++ repeat_cmd))
               (logged "REPEAT" (enter_line m)))) with
    (execute_line fuel repeat_cmd
       (with_output
          (output (logged "REPEAT" (enter_line m)) ++
           debug_events (context (logged "REPEAT" (enter_line m)))
             ("REPEAT iteration " +++ "1" +++ ": " +++ repeat_cmd))
          (logged "REPEAT" (enter_line m)))) in Run.
  rewrite Run. reflexivity.
Qed.

Lemma leave_function_run (local_scope_start : nat) (m : Machine) :
  leave_function local_scope_start m =
  Done (function_return_value (context m))
    (with_context (after_call local_scope_start (context m)) m).
Proof. reflexivity. Qed.

(** The return boundary: a jump to the [setjmp] of this call, taken by a
    body line, ends the body; the lines after it do not run and the call
    returns the stored value. *)
Lemma function_catches_return (exec : string -> M unit) (fuel : nat)
  (f : FunctionDef) (args : list string) (m m1 m2 m3 : Machine)
  (pre post : list string) (l : string) :
  List.length args = List.length (params f) ->
  enter_function f args (frames m) (with_frames (S (frames m)) m) = Done tt m1 ->
  fn_code_lines f = pre ++ l :: post ->
  run_body exec f pre m1 = Done tt m2 ->
  exec l (add_output (debug_events (context m2)
                        ("Function '" +++ fn_name f +++ "' executing: " +++ l)) m2)
    = Longjmp (mkJmp (frames m) FunctionSite) m3 ->
  execute_function exec fuel f args m =
  Done (function_return_value (context m3))
    (with_context (after_call (variable_count (context m)) (context m3)) m3).
Proof.
  intros Ar En Body Pre Jump.
  unfold execute_function. rewrite Ar, Nat.eqb_refl; cbn [negb].
  unfold bind at 1. unfold new_frame at 1.
  unfold bind at 1. unfold get_context at 1. cbn [context with_frames].
  unfold bind at 1. rewrite En.
  assert (R : run_body exec f (fn_code_lines f) m1
              = Longjmp (mkJmp (frames m) FunctionSite) m3).
  { rewrite Body. clear Body En. revert m1 Pre.
    induction pre as [|l0 pre IH]; intros m1 Pre.
    - cbn [run_body app] in *. inversion Pre; subst m2.
      unfold bind at 1. unfold debug_log at 1. unfold bind at 1.
      unfold add_output in Jump. rewrite Jump. reflexivity.
    - cbn [run_body app] in *.
      unfold bind at 1. unfold bind at 1 in Pre.
      destruct (debug_log _ m1) as [u ma| | | |]; try discriminate.
      unfold bind at 1. unfold bind at 1 in Pre.
      destruct (exec l0 ma) as [u' mb| | | |]; try discriminate.
      apply IH; exact Pre. }
  unfold bind at 1.
  rewrite (on_longjmp_caught fuel _ _ (ret tt) m1 m3 m3 tt R eq_refl).
  apply leave_function_run.
Qed.

End ReturnFacts.

Section CallShape.

Context `{Libc}.

(** Every call that returns, returns through [leave_function]. *)
Lemma execute_function_done (exec : string -> M unit) (fuel : nat)
  (f : FunctionDef) (args : list string) (m m' : Machine) (r : float) :
  List.length args = List.length (params f) ->
  execute_function exec fuel f args m = Done r m' ->
  exists m1 m3,
    enter_function f args (frames m) (with_frames (S (frames m)) m) = Done tt m1
    /\ on_longjmp (S fuel) (mkJmp (frames m) FunctionSite)
         (run_body exec f (fn_code_lines f)) (ret tt) m1 = Done tt m3
    /\ r = function_return_value (context m3)
    /\ m' = with_context (after_call (variable_count (context m)) (context m3)) m3.
Proof.
  intros Ar Run. unfold execute_function in Run.
  rewrite Ar, Nat.eqb_refl in Run; cbn [negb] in Run.
  unfold bind at 1 in Run. unfold new_frame at 1 in Run.
  unfold bind at 1 in Run. unfold get_context at 1 in Run.
  cbn [context with_frames] in Run.
  unfold bind at 1 in Run.
  destruct (enter_function f args (frames m) (with_frames (S (frames m)) m))
    as [[] m1| | | |] eqn:En; try discriminate.
  unfold bind at 1 in Run.
  destruct (on_longjmp (S fuel) _ _ _ m1) as [[] m3| | | |] eqn:Body; try discriminate.
  rewrite leave_function_run in Run. inversion Run; subst.
  exists m1, m3. repeat split; assumption.
Qed.

(** A call with the wrong number of arguments: one report, the result 0.0,
    nothing else happens. *)
Lemma execute_function_arity (exec : string -> M unit) (fuel : nat)
  (f : FunctionDef) (args : list string) (m : Machine) :
  List.length args <> List.length (params f) ->
  exists text, execute_function exec fuel f args m = Done 0%float (add_output [Stdout text] m).
Proof.
  intros Ar. unfold execute_function.
  apply Nat.eqb_neq in Ar. rewrite Ar; cbn [negb].
  eexists; reflexivity.
Qed.

End CallShape.

(** X1.  RETURN with an expression while the active-function flag is false
    is reported and has no other effect; while the flag is true it joins the
    expression with [join_tokens], evaluates it, stores the value and jumps
    to [function_return_buf] (an expression that does not fit the block of
    [join_tokens] is undefined behaviour); an enclosing IF or REPEAT lets
    the jump through (no further REPEAT round runs); and the call whose
    [setjmp] the jump names ends its body there, without running the lines
    that follow, and returns the stored value. *)
Theorem return_reports_outside_and_unwinds_to_the_call :
  forall (L : Libc),
    (forall fuel line c e es m,
        tokenize line = c :: e :: es ->
        upcase c = "RETURN" ->
        in_function (context m) = false ->
        execute_line (S fuel) line m =
        Done tt (add_output
                   (error_events (context m) MSG_RETURN_OUTSIDE
                      (current_line (context m) + 1))
                   (logged "RETURN" (enter_line m))))
    /\
    (forall fuel line c e es m expr v rest p,
        let tokens := c :: e :: es in
        tokenize line = tokens ->
        upcase c = "RETURN" ->
        in_function (context m) = true ->
        function_return_buf (context m) = Some p ->
        jmp_site p = FunctionSite ->
        join_tokens tokens 1 (List.length tokens) = Some expr ->
        evaluate_expression (context m) expr = PVal v rest ->
        execute_line (S fuel) line m =
        Longjmp p (with_context
                     (set_function_return_value v
                        (context (logged "RETURN" (enter_line m))))
                     (logged "RETURN" (enter_line m))))
    /\
    (forall fuel line c rest m m' then_i endif_i else_idx cond_expr then_cmd v r p,
        let tokens := c :: rest in
        tokenize line = tokens ->
        upcase c = "IF" ->
        scan_if rest 1 None None = (Some then_i, else_idx, Some endif_i) ->
        join_tokens tokens 1 then_i = Some cond_expr ->
        evaluate_expression (context m) cond_expr = PVal v r ->
        truthy v = true ->
        match else_idx with
        | None => join_tokens tokens (then_i + 1) endif_i
        | Some else_i => join_tokens tokens (then_i + 1) else_i
        end = Some then_cmd ->
        execute_line fuel then_cmd (logged "IF" (enter_line m)) = Longjmp p m' ->
        jmp_site p = FunctionSite ->
        execute_line (S fuel) line m = Longjmp p m')
    /\
    (forall fuel line c n x xs m m' count repeat_cmd p,
        let tokens := c :: n :: x :: xs in
        tokenize line = tokens ->
        upcase c = "REPEAT" ->
        atoi n = Some count ->
        (0 < count)%Z ->
        join_tokens tokens 2 (List.length tokens) = Some repeat_cmd ->
        execute_line fuel repeat_cmd
          (add_output (debug_events (context m) ("REPEAT iteration 1: " +++ repeat_cmd))
             (logged "REPEAT" (enter_line m))) = Longjmp p m' ->
        jmp_site p = FunctionSite ->
        execute_line (S fuel) line m = Longjmp p m')
    /\
    (forall exec fuel f args m m1 m2 m3 pre post l,
        List.length args = List.length (params f) ->
        enter_function f args (frames m) (with_frames (S (frames m)) m) = Done tt m1 ->
        fn_code_lines f = pre ++ l :: post ->
        run_body exec f pre m1 = Done tt m2 ->
        exec l (add_output
                  (debug_events (context m2)
                     ("Function '" +++ fn_name f +++ "' executing: " +++ l)) m2)
          = Longjmp (mkJmp (frames m) FunctionSite) m3 ->
        execute_function exec fuel f args m =
        Done (function_return_value (context m3))
          (with_context (after_call (variable_count (context m)) (context m3)) m3))
    /\
    (forall fuel line c e es m,
        let tokens := c :: e :: es in
        tokenize line = tokens ->
        upcase c = "RETURN" ->
        in_function (context m) = true ->
        join_tokens tokens 1 (List.length tokens) = None ->
        execute_line (S fuel) line m = Undefined).
Proof.
  intros L; split; [|split; [|split; [|split; [|split]]]].
  - intros; eapply return_outside_function; eassumption.
  - intros; eapply return_inside_function; eassumption.
  - intros; eapply if_passes_return; eassumption.
  - intros; eapply repeat_passes_return; eassumption.
  - intros; eapply function_catches_return; eassumption.
  - intros; eapply return_overrun; eassumption.
Qed.

Lemma return_witness :
  printed (execute_line 1 "RETURN 5" (machine_with 0%float [] []))
  = error_events (init_context 0%float) MSG_RETURN_OUTSIDE 1
  /\ (returned_value
        (execute_function (execute_line 4) 4 fn_early [] (machine_with 0%float [fn_early] []))
      = Some 5%float
      /\ printed
           (execute_function (execute_line 4) 4 fn_early [] (machine_with 0%float [fn_early] []))
         = [Stdout "before "; Stdout NL]).
Proof.
  pose proof (return_reports_outside_and_unwinds_to_the_call c99_libc)
    as (Outside & _ & _ & _ & Boundary & _).
  split.
  - rewrite (Outside 0 "RETURN 5" "RETURN" "5" [] (machine_with 0%float [] []));
      reflexivity.
  - eassert (Run : execute_function (execute_line 4) 4 fn_early []
                       (machine_with 0%float [fn_early] []) = Done _ _).
    { eapply (Boundary (execute_line 4) 4 fn_early [] (machine_with 0%float [fn_early] [])
                _ _ _ ["PRINT before"] ["PRINT after"]
                "IF 1 THEN REPEAT 2 RETURN 5 ENDIF");
        [reflexivity | reflexivity | reflexivity
         | vm_compute; reflexivity | vm_compute; reflexivity]. }
    rewrite Run; split; reflexivity.
Defined.

(** ** The active-function flag *)

(** X28.  [execute_function] and the active-function flag.  When a call
    with the right number of arguments returns, the flag is false, whatever
    it was before the call: a RETURN line executed next (for instance by
    the body of an outer function that made the call) is reported as
    outside a function and returns normally.  A call with the wrong number
    of arguments prints one line, returns 0.0 and leaves the context as it
    is, the flag included. *)
Theorem call_that_runs_its_body_leaves_the_flag_false :
  forall (L : Libc) (fuel : nat) (f : FunctionDef) (args : list string) (m : Machine),
    (List.length args = List.length (params f) ->
     forall (m' : Machine) (r : float),
       execute_function (execute_line fuel) fuel f args m = Done r m' ->
       in_function (context m') = false
       /\ forall fuel' line c e es,
           tokenize line = c :: e :: es ->
           upcase c = "RETURN" ->
           execute_line (S fuel') line m' =
           Done tt (add_output
                      (error_events (context m') MSG_RETURN_OUTSIDE
                         (current_line (context m') + 1))
                      (logged "RETURN" (enter_line m'))))
    /\ (List.length args <> List.length (params f) ->
        execute_function (execute_line fuel) fuel f args m =
        Done 0%float
          (add_output
             [Stdout ("Error: Function '" +++ fn_name f +++ "' expects "
                      +++ format_d (Z.of_nat (List.length (params f)))
                      +++ " arguments, got "
                      +++ format_d (Z.of_nat (List.length args)) +++ "." +++ NL)]
             m)).
Proof.
  intros L fuel f args m. split.
  - intros Ar m' r Run.
    destruct (execute_function_done _ fuel f args m m' r Ar Run)
      as (m1 & m3 & _ & _ & _ & ->).
    split; [reflexivity|].
    intros fuel' line c e es T C.
    apply (return_outside_function fuel' line c e es _ T C). reflexivity.
  - intros Ar. unfold execute_function.
    apply Nat.eqb_neq in Ar. rewrite Ar; cbn [negb]. reflexivity.
Qed.

(** A nested call, from a machine in which an outer call is active. *)
Lemma flag_witness :
  let inside_outer :=
    with_context
      (set_function_return_buf (Some (mkJmp 1 FunctionSite))
         (set_in_function true (context (machine_with 0%float [fn_inner] []))))
      (with_frames 2 (machine_with 0%float [fn_inner] [])) in
  in_function (context inside_outer) = true
  /\ exists m',
      execute_function (execute_line 3) 3 fn_inner [] inside_outer = Done 7%float m'
      /\ in_function (context m') = false
      /\ printed (execute_line 1 "RETURN 5" m')
         = error_events (context m') MSG_RETURN_OUTSIDE 1.
Proof.
  intros inside_outer. split; [reflexivity|].
  eexists. split; [vm_compute; reflexivity|].
  match goal with
  | |- in_function (context ?m') = false /\ _ =>
      pose proof (proj1 (call_that_runs_its_body_leaves_the_flag_false c99_libc 3
                           fn_inner [] inside_outer) eq_refl m' 7%float) as W
  end.
  destruct W as [Flag Rejected]; [vm_compute; reflexivity|].
  split; [exact Flag|].
  rewrite (Rejected 0 "RETURN 5" "RETURN" "5" []); reflexivity.
Defined.

(** With a registry that holds functions: a RETURN executed by the body of
    a call is rejected when that body has made a call of its own before: the
    inner
    call leaves the active-function flag false, so the RETURN of [outer] is
    reported as outside a function, the line after it runs, and [outer]
    falls through with the value [inner] stored.  Without the nested call
    the same shape of body returns at its RETURN, as [early] does. *)
Theorem return_after_a_nested_call_is_rejected :
  printed (execute_line 6 "CALL outer" (machine_with 0%float [fn_outer; fn_inner] []))
  = [Stdout ("Function 'inner' returned 7" +++ NL)]
    ++ error_events (init_context 0%float) MSG_RETURN_OUTSIDE 1
    ++ [Stdout "after "; Stdout NL]
    ++ [Stdout ("Function 'outer' returned 7" +++ NL)]
  /\ printed (execute_line 6 "CALL early" (machine_with 0%float [fn_early] []))
     = [Stdout "before "; Stdout NL; Stdout ("Function 'early' returned 5" +++ NL)].
Proof. split; vm_compute; reflexivity. Qed.

(** ** The result of a call that executes no RETURN *)

(** With a registry that holds functions: a call whose body runs to its end
    returns the value [function_return_value] holds at that moment: the
    value the
    previous RETURN stored, or, before any RETURN, whatever the memory of the
    context held, since [init_context] does not assign the field. *)
Theorem fall_through_returns_the_stale_value :
  (forall (indeterminate : float),
      returned_value
        (execute_function (execute_line 3) 3 fn_idle []
           (machine_with indeterminate [fn_idle] []))
      = Some indeterminate)
  /\ printed
       (execute_block (execute_line 5) ["CALL inner"; "CALL idle"]
          (machine_with 0%float [fn_inner; fn_idle] []))
     = [Stdout ("Function 'inner' returned 7" +++ NL);
        Stdout "idle "; Stdout NL;
        Stdout ("Function 'idle' returned 7" +++ NL)].
Proof.
  split.
  - intros indeterminate. reflexivity.
  - vm_compute. reflexivity.
Qed.

(** ** Capacity *)

(** The three registries at their limits: [set_variable] on a full store
    and [define_function] on a full registry report the limit and leave the
    registry as it is; the push of [execute_function] on a full call stack
    does nothing and reports nothing, the call runs, and it still pops: the
    stack is one entry shorter after the call. *)
Theorem full_call_stack_is_not_reported :
  (forall (m : Machine) (name value : string) (type : VarType),
      lookup_variable (variables (context m)) name = None ->
      variable_count (context m) = MAX_VARIABLES ->
      exists m',
        set_variable name value type m = Done tt m'
        /\ variables (context m') = variables (context m)
        /\ output m' = output m ++ error_events (context m) MSG_VARIABLE_LIMIT (-1))
  /\
  (forall (L : Libc) (m : Machine) (tokens : list string),
      2 <= List.length tokens ->
      function_count (context m) = MAX_FUNCTIONS ->
      define_function tokens m =
      Done tt (add_output
                 (error_events (context m) "Maximum function limit reached"
                    (current_line (context m) + 1)) m))
  /\
  (forall (m : Machine) (name : string),
      call_stack_depth (context m) = MAX_CALL_STACK_DEPTH ->
      push_call name m = Done tt m)
  /\
  (let full :=
     with_context
       (set_call_stack (repeat "f" MAX_CALL_STACK_DEPTH)
          (context (machine_with 0%float [fn_idle] [])))
       (machine_with 0%float [fn_idle] []) in
   let run := execute_function (execute_line 3) 3 fn_idle [] full in
   printed run = [Stdout "idle "; Stdout NL]
   /\ option_map (fun m => call_stack_depth (context m)) (final_machine run) = Some 99).
Proof.
  split; [|split; [|split]].
  - intros m name value type Absent Full.
    assert (U : update_variable (variables (context m)) name value type = None).
    { clear Full. induction (variables (context m)) as [|v vars IH]; [reflexivity|].
      simpl in *. destruct (strcmp_eq (var_name v) name); [discriminate|].
      rewrite (IH Absent); reflexivity. }
    unfold set_variable, bind, get_context, store_variable. rewrite U.
    unfold variable_count in Full. rewrite Full.
    change (MAX_VARIABLES <? MAX_VARIABLES) with false.
    eexists; split; [reflexivity|split; reflexivity].
  - intros L m tokens Len Full. unfold define_function.
    replace (List.length tokens <? 2) with false
      by (symmetry; apply Nat.ltb_ge; exact Len).
    unfold bind, get_context. rewrite Full. reflexivity.
  - intros m name Full. unfold push_call, bind, get_context.
    rewrite Full. reflexivity.
  - vm_compute. split; reflexivity.
Qed.

(** ** Parameters that shadow *)

(** With a registry that holds functions: a call whose parameter is called
    like an existing variable overwrites that variable, and the value it had
    before the call is not back after the call. *)
Lemma shadowed_variable_is_not_restored :
  let before :=
    final_machine (execute_line 3 "SET x = 1" (machine_with 0%float [fn_shadow] [])) in
  let after :=
    match before with
    | Some m => final_machine (execute_line 5 "CALL shadow 7" m)
    | None => None
    end in
  option_map (fun m => get_variable (context m) "x") before = Some (Some "1")
  /\ option_map (fun m => get_variable (context m) "x") after = Some (Some "7")
  /\ option_map (fun m => get_variable (context m) "x") after
     <> option_map (fun m => get_variable (context m) "x") before.
Proof. vm_compute. repeat split; discriminate. Qed.

(** ** FOR *)

Section ForFacts.

Context `{Libc}.
Variable exec : string -> M unit.

(** One round of the loop of FOR: the variable is read back from the store,
    the test uses the fixed [end_val] and [step_val], and after the body the
    variable is set to the value read plus the step. *)
Lemma for_loop_round (fuel : nat) (var : string) (end_val step_val : float)
  (block_lines : list string) (m : Machine) :
  for_loop exec (S fuel) var end_val step_val block_lines m =
  match get_variable (context m) var with
  | None => Undefined
  | Some current_str =>
      if condition_met step_val end_val (atof current_str) then
        (execute_block exec block_lines ;;
         set_variable var (format_g (atof current_str + step_val)%float) TYPE_FLOAT ;;
         for_loop exec fuel var end_val step_val block_lines) m
      else Done tt m
  end.
Proof.
  cbn [for_loop]. unfold bind at 1. unfold get_context at 1.
  destruct (get_variable (context m) var) as [current_str|]; [|reflexivity].
  destruct (condition_met step_val end_val (atof current_str)); reflexivity.
Qed.

(** FOR without STEP: the start and end expressions are evaluated at entry,
    the step is 1.0, and the loop runs on these values. *)
Lemma for_entry (fuel : nat) (c var s to e b : string) (rest : list string)
  (m : Machine) (start_val end_val : float) (r1 r2 : string) :
  let tokens := c :: var :: "=" :: s :: to :: e :: b :: rest in
  strcasecmp_eq to "TO" = true ->
  strcasecmp_eq b "STEP" = false ->
  strcasecmp_eq b "BEGIN" = true ->
  evaluate_expression (context m) s = PVal start_val r1 ->
  evaluate_expression (context m) e = PVal end_val r2 ->
  cmd_FOR exec fuel tokens m =
  (printf ("Enter FOR loop block lines (type ENDFOR on a line by itself):" +++ NL) ;;
   block_lines <- collect_array "... " (is_sentinel "ENDFOR") ;;
   set_variable var (format_g start_val) TYPE_FLOAT ;;
   for_loop exec fuel var end_val 1%float block_lines) m.
Proof.
  intros tokens To NoStep Begin Es Ee. subst tokens.
  unfold cmd_FOR. cbn [List.length Nat.ltb Nat.leb tok nth].
  change (strcmp_eq "=" "=") with true. cbn [negb].
  rewrite (bind_done _ _ _ m start_val (evaluate_value s m start_val r1 Es)).
  rewrite To; cbn [negb].
  rewrite (bind_done _ _ _ m end_val (evaluate_value e m end_val r2 Ee)).
  rewrite NoStep, andb_false_r.
  unfold for_body. cbn [List.length Nat.leb tok nth].
  rewrite Begin. reflexivity.
Qed.

(** FOR with STEP: the step expression is evaluated at entry as well. *)
Lemma for_entry_step (fuel : nat) (c var s to e st sv b : string)
  (rest : list string) (m : Machine) (start_val end_val step_val : float)
  (r1 r2 r3 : string) :
  let tokens := c :: var :: "=" :: s :: to :: e :: st :: sv :: b :: rest in
  strcasecmp_eq to "TO" = true ->
  strcasecmp_eq st "STEP" = true ->
  strcasecmp_eq b "BEGIN" = true ->
  evaluate_expression (context m) s = PVal start_val r1 ->
  evaluate_expression (context m) e = PVal end_val r2 ->
  evaluate_expression (context m) sv = PVal step_val r3 ->
  cmd_FOR exec fuel tokens m =
  (printf ("Enter FOR loop block lines (type ENDFOR on a line by itself):" +++ NL) ;;
   block_lines <- collect_array "... " (is_sentinel "ENDFOR") ;;
   set_variable var (format_g start_val) TYPE_FLOAT ;;
   for_loop exec fuel var end_val step_val block_lines) m.
Proof.
  intros tokens To Step Begin Es Ee Ev. subst tokens.
  unfold cmd_FOR. cbn [List.length Nat.ltb Nat.leb tok nth].
  change (strcmp_eq "=" "=") with true. cbn [negb].
  rewrite (bind_done _ _ _ m start_val (evaluate_value s m start_val r1 Es)).
  rewrite To; cbn [negb].
  rewrite (bind_done _ _ _ m end_val (evaluate_value e m end_val r2 Ee)).
  rewrite Step. cbn [andb].
  rewrite (bind_done _ _ _ m step_val (evaluate_value sv m step_val r3 Ev)).
  unfold for_body. cbn [List.length Nat.leb tok nth].
  rewrite Begin. reflexivity.
Qed.

End ForFacts.

(** C9.  FOR evaluates the start, end and (when present) step expressions
    once, before the block is read; the step is 1.0 without STEP.  Every
    round reads the loop variable back from the store and tests the value
    read: with a step above zero the body runs when the value is at most
    the end, with any other step when the value is at least the end, and
    otherwise the loop is over.  After the body the variable is set to the
    value read plus the step.  FOR i = 1 TO 3 runs its body for i = 1, 2, 3
    in this order; FOR i = 1 TO 3 STEP -1 does not run it at all. *)
Theorem for_evaluates_bounds_once_and_tests_the_stored_variable :
  (forall (L : Libc) exec fuel c var s to e b rest m start_val end_val r1 r2,
      let tokens := c :: var :: "=" :: s :: to :: e :: b :: rest in
      strcasecmp_eq to "TO" = true ->
      strcasecmp_eq b "STEP" = false ->
      strcasecmp_eq b "BEGIN" = true ->
      evaluate_expression (context m) s = PVal start_val r1 ->
      evaluate_expression (context m) e = PVal end_val r2 ->
      cmd_FOR exec fuel tokens m =
      (printf ("Enter FOR loop block lines (type ENDFOR on a line by itself):" +++ NL) ;;
       block_lines <- collect_array "... " (is_sentinel "ENDFOR") ;;
       set_variable var (format_g start_val) TYPE_FLOAT ;;
       for_loop exec fuel var end_val 1%float block_lines) m)
  /\
  (forall (L : Libc) exec fuel c var s to e st sv b rest m
          start_val end_val step_val r1 r2 r3,
      let tokens := c :: var :: "=" :: s :: to :: e :: st :: sv :: b :: rest in
      strcasecmp_eq to "TO" = true ->
      strcasecmp_eq st "STEP" = true ->
      strcasecmp_eq b "BEGIN" = true ->
      evaluate_expression (context m) s = PVal start_val r1 ->
      evaluate_expression (context m) e = PVal end_val r2 ->
      evaluate_expression (context m) sv = PVal step_val r3 ->
      cmd_FOR exec fuel tokens m =
      (printf ("Enter FOR loop block lines (type ENDFOR on a line by itself):" +++ NL) ;;
       block_lines <- collect_array "... " (is_sentinel "ENDFOR") ;;
       set_variable var (format_g start_val) TYPE_FLOAT ;;
       for_loop exec fuel var end_val step_val block_lines) m)
  /\
  (forall (L : Libc) exec fuel var end_val step_val block_lines m,
      for_loop exec (S fuel) var end_val step_val block_lines m =
      match get_variable (context m) var with
      | None => Undefined
      | Some current_str =>
          let value := atof current_str in
          if (if PrimFloat.ltb 0%float step_val
              then PrimFloat.leb value end_val
              else PrimFloat.leb end_val value)
          then
            (execute_block exec block_lines ;;
             set_variable var (format_g (value + step_val)%float) TYPE_FLOAT ;;
             for_loop exec fuel var end_val step_val block_lines) m
          else Done tt m
      end)
  /\
  (forall step_val end_val value : float,
      condition_met step_val end_val value =
      if PrimFloat.ltb 0%float step_val
      then PrimFloat.leb value end_val
      else PrimFloat.leb end_val value)
  /\
  printed (execute_line 5 "FOR i = 1 TO 3 BEGIN"
             (machine_with 0%float [] ["PRINT $i"; "ENDFOR"]))
  = [Stdout ("Enter FOR loop block lines (type ENDFOR on a line by itself):" +++ NL);
     Stdout "... "; Stdout "... ";
     Stdout "1 "; Stdout NL; Stdout "2 "; Stdout NL; Stdout "3 "; Stdout NL]
  /\
  printed (execute_line 5 "FOR i = 1 TO 3 STEP -1 BEGIN"
             (machine_with 0%float [] ["PRINT $i"; "ENDFOR"]))
  = [Stdout ("Enter FOR loop block lines (type ENDFOR on a line by itself):" +++ NL);
     Stdout "... "; Stdout "... "].
Proof.
  split; [|split; [|split; [|split; [|split]]]].
  - intros; eapply for_entry; eassumption.
  - intros; eapply for_entry_step; eassumption.
  - intros L exec fuel var end_val step_val block_lines m.
    rewrite for_loop_round. unfold condition_met. reflexivity.
  - intros step_val end_val value. reflexivity.
  - vm_compute. reflexivity.
  - vm_compute. reflexivity.
Qed.

Lemma for_witness :
  cmd_FOR (execute_line 4) 4 (tokenize "FOR i = 1 TO 3 STEP -1 BEGIN")
    (machine_with 0%float [] ["PRINT $i"; "ENDFOR"])
  = (printf ("Enter FOR loop block lines (type ENDFOR on a line by itself):" +++ NL) ;;
     block_lines <- collect_array "... " (is_sentinel "ENDFOR") ;;
     set_variable "i" (format_g 1%float) TYPE_FLOAT ;;
     for_loop (execute_line 4) 4 "i" 3%float (-1)%float block_lines)
      (machine_with 0%float [] ["PRINT $i"; "ENDFOR"]).
Proof.
  pose proof for_evaluates_bounds_once_and_tests_the_stored_variable
    as (_ & Step & _).
  apply (Step c99_libc (execute_line 4) 4 "FOR" "i" "1" "TO" "3" "STEP" "-1" "BEGIN" []
           (machine_with 0%float [] ["PRINT $i"; "ENDFOR"])
           1%float 3%float (-1)%float EmptyString EmptyString EmptyString);
    reflexivity.
Defined.

(** ** The store and the call stack through every piece of the interpreter *)

Lemma evolves_refl (m : Machine) : evolves m m.
Proof.
  split; auto. exists []; rewrite app_nil_r; reflexivity.
Qed.

Lemma evolves_trans (m1 m2 m3 : Machine) :
  evolves m1 m2 -> evolves m2 m3 -> evolves m1 m3.
Proof.
  intros [[e1 N1] S1 K1 F1] [[e2 N2] S2 K2 F2]; split; auto.
  - exists (e1 ++ e2). rewrite N2, N1, app_assoc; reflexivity.
  - congruence.
Qed.

(** A step that leaves the store, the call stack and the registry alone. *)
Lemma evolves_same (m m' : Machine) :
  variables (context m') = variables (context m) ->
  call_stack (context m') = call_stack (context m) ->
  functions (context m') = functions (context m) ->
  evolves m m'.
Proof.
  intros V K F; split; unfold names, variable_count, call_stack_depth;
    rewrite ?V, ?K, ?F; auto.
  exists []; rewrite app_nil_r; reflexivity.
Qed.

Lemma update_variable_names (vars vars' : list Var) (name value : string)
  (type : VarType) :
  update_variable vars name value type = Some vars' ->
  map var_name vars' = map var_name vars.
Proof.
  revert vars'; induction vars as [|v vars IH]; intros vars' U; [discriminate|].
  simpl in U. destruct (strcmp_eq (var_name v) name).
  - inversion U; reflexivity.
  - destruct (update_variable vars name value type) as [vars''|]; [|discriminate].
    inversion U; simpl. rewrite (IH vars'' eq_refl); reflexivity.
Qed.

Lemma store_variable_names (vars : list Var) (name value : string) (type : VarType) :
  exists extra,
    map var_name (fst (store_variable vars name value type)) = map var_name vars ++ extra.
Proof.
  unfold store_variable.
  destruct (update_variable vars name value type) as [vars'|] eqn:U.
  - exists []. rewrite app_nil_r. apply (update_variable_names _ _ _ _ _ U).
  - destruct (List.length vars <? MAX_VARIABLES).
    + exists [name]. simpl. rewrite map_app; reflexivity.
    + exists []. rewrite app_nil_r; reflexivity.
Qed.

Lemma store_variable_bound (vars : list Var) (name value : string) (type : VarType) :
  List.length vars <= MAX_VARIABLES ->
  List.length (fst (store_variable vars name value type)) <= MAX_VARIABLES.
Proof.
  intros B. unfold store_variable.
  destruct (update_variable vars name value type) as [vars'|] eqn:U.
  - apply update_variable_names in U.
    simpl. rewrite <- (length_map var_name vars'), U, length_map. exact B.
  - destruct (List.length vars <? MAX_VARIABLES) eqn:Lt; simpl; [|exact B].
    apply Nat.ltb_lt in Lt. rewrite length_app; simpl; lia.
Qed.

Lemma removelast_length_le {A : Type} (l : list A) :
  List.length (removelast l) <= List.length l.
Proof.
  induction l as [|a l IH]; [simpl; lia|].
  destruct l; simpl in *; lia.
Qed.

Create HintDb claro discriminated.

Section Respects.

Context `{Libc}.

Lemma respects_ret {A : Type} (a : A) : respects (ret a).
Proof. intros m; apply evolves_refl. Qed.

Lemma respects_bind {A B : Type} (c : M A) (k : A -> M B) :
  respects c -> (forall a, respects (k a)) -> respects (bind c k).
Proof.
  intros Rc Rk m. unfold bind. specialize (Rc m).
  destruct (c m) as [a m1| | | |]; auto.
  specialize (Rk a m1). destruct (k a m1); auto; eapply evolves_trans; eauto.
Qed.

(** Any step that only touches input, output, the frame counter, or fields
    of the context the relation does not read. *)
Lemma respects_quiet {A : Type} (c : M A) :
  (forall m,
      match c m with
      | Done _ m' | Longjmp _ m' | Exit _ m' =>
          variables (context m') = variables (context m)
          /\ call_stack (context m') = call_stack (context m)
          /\ functions (context m') = functions (context m)
      | Undefined | OutOfFuel => True
      end) ->
  respects c.
Proof.
  intros Q m. specialize (Q m).
  destruct (c m); auto; destruct Q as (V & K & F); apply evolves_same; auto.
Qed.

Lemma respects_get_context : respects get_context.
Proof. apply respects_quiet; intros m; simpl; auto. Qed.

Lemma respects_emit (e : event) : respects (emit e).
Proof. apply respects_quiet; intros m; simpl; auto. Qed.

Lemma respects_printf (text : string) : respects (printf text).
Proof. apply respects_emit. Qed.

Lemma respects_print_error (message : string) (line_number : Z) :
  respects (print_error message line_number).
Proof. apply respects_quiet; intros m; simpl; auto. Qed.

Lemma respects_print_error_here (message : string) :
  respects (print_error_here message).
Proof. apply respects_quiet; intros m; simpl; auto. Qed.

Lemma respects_debug_log (text : string) : respects (debug_log text).
Proof. apply respects_quiet; intros m; simpl; auto. Qed.

Lemma respects_fgets : respects fgets_stdin.
Proof.
  apply respects_quiet; intros m; unfold fgets_stdin.
  destruct (stdin m); simpl; auto.
Qed.

Lemma respects_new_frame : respects new_frame.
Proof. apply respects_quiet; intros m; simpl; auto. Qed.

Lemma respects_undefined {A : Type} : respects (@undefined A).
Proof. intros m; exact I. Qed.

Lemma respects_defined {A : Type} (result : option A) : respects (defined result).
Proof.
  destruct result; [apply respects_ret | apply respects_undefined].
Qed.

Lemma respects_exit {A : Type} (status : Z) : respects (@exit A status).
Proof. intros m; apply evolves_refl. Qed.

Lemma respects_longjmp {A : Type} (buf : jmp_buf) : respects (@longjmp A buf).
Proof. intros m; unfold longjmp; destruct buf; [apply evolves_refl | exact I]. Qed.

Lemma respects_out_of_fuel {A : Type} : respects (fun _ : Machine => @OutOfFuel A).
Proof. intros m; exact I. Qed.

(** Updates of the flags, of the saved value and of the two jump buffers. *)
Lemma respects_modify (f : InterpreterContext -> InterpreterContext) :
  (forall c, variables (f c) = variables c
             /\ call_stack (f c) = call_stack c
             /\ functions (f c) = functions c) ->
  respects (modify_context f).
Proof. intros F; apply respects_quiet; intros m; simpl; apply F. Qed.

Lemma respects_set_variable (name value : string) (type : VarType) :
  respects (set_variable name value type).
Proof.
  intros m. unfold set_variable, bind, get_context.
  pose proof (store_variable_names (variables (context m)) name value type) as N.
  pose proof (store_variable_bound (variables (context m)) name value type) as B.
  destruct (store_variable (variables (context m)) name value type) as [vars full].
  cbn [fst] in N, B.
  assert (E : evolves m (with_context (set_variables vars (context m)) m))
    by (split; auto).
  destruct full; simpl; [|exact E].
  eapply evolves_trans; [exact E|]. apply evolves_same; reflexivity.
Qed.

Lemma respects_evaluate (expr : string) : respects (evaluate expr).
Proof.
  intros m. unfold evaluate.
  destruct (evaluate_expression (context m) expr); [apply evolves_refl | | exact I].
  unfold bind, print_error, longjmp; simpl.
  destruct (error_buf (context m)); [|exact I].
  apply evolves_same; reflexivity.
Qed.

Lemma respects_collect_block (prompt : string) (sentinel : string -> bool) :
  respects (collect_block prompt sentinel).
Proof.
  apply respects_quiet; intros m; unfold collect_block.
  destruct (read_block sentinel (stdin m)) as [[lines rest] prompts]; simpl; auto.
Qed.

Lemma respects_collect_array (prompt : string) (sentinel : string -> bool) :
  respects (collect_array prompt sentinel).
Proof.
  unfold collect_array. apply respects_bind; [apply respects_collect_block|].
  intros lines. destruct (_ <? _); [apply respects_undefined | apply respects_ret].
Qed.

Lemma respects_resume {A : Type} (fuel : nat) (here : jmp_point) (handler : M A) :
  respects handler -> respects (resume fuel here handler).
Proof.
  intros Rh. induction fuel as [|fuel IH]; intros m; [exact I|].
  cbn [resume]. specialize (Rh m).
  destruct (handler m) as [a m1|p m1| | |]; auto.
  destruct (jmp_eqb p here); auto.
  specialize (IH m1). destruct (resume fuel here handler m1); auto;
    eapply evolves_trans; eauto.
Qed.

Lemma respects_on_longjmp {A : Type} (fuel : nat) (here : jmp_point)
  (body handler : M A) :
  respects body -> respects handler -> respects (on_longjmp fuel here body handler).
Proof.
  intros Rb Rh m. unfold on_longjmp. specialize (Rb m).
  destruct (body m) as [a m1|p m1| | |]; auto.
  destruct (jmp_eqb p here); auto.
  pose proof (respects_resume fuel here handler Rh m1) as R.
  destruct (resume fuel here handler m1); auto; eapply evolves_trans; eauto.
Qed.

End Respects.

#[export] Hint Resolve respects_ret respects_get_context respects_emit
  respects_printf respects_print_error respects_print_error_here
  respects_debug_log respects_fgets respects_new_frame respects_undefined
  respects_defined respects_exit respects_longjmp respects_out_of_fuel respects_set_variable
  respects_evaluate respects_collect_block respects_collect_array : claro.

(** Decompose a goal [respects c] along the structure of [c]. *)
Ltac respects_tac :=
  repeat first
    [ progress auto with claro
    | apply respects_bind; [|intros ?]
    | apply respects_on_longjmp
    | apply respects_modify; intros ?; repeat split; reflexivity
    | match goal with
      | |- respects (if ?b then _ else _) => destruct b
      | |- respects (match ?x with _ => _ end) => destruct x
      | |- respects (let (_, _) := ?x in _) => destruct x
      end ].

Section RespectsInterpreter.

Context `{Libc}.
Variable exec : string -> M unit.
Hypothesis respects_exec : forall line, respects (exec line).

Lemma respects_execute_block (block_lines : list string) :
  respects (execute_block exec block_lines).
Proof. induction block_lines; cbn [execute_block]; respects_tac. Qed.

Lemma respects_bind_parameters (ps args : list string) :
  respects (bind_parameters ps args).
Proof.
  revert args; induction ps as [|p ps IH]; intros [|a args];
    cbn [bind_parameters]; respects_tac.
Qed.

Lemma respects_run_body (f : FunctionDef) (body : list string) :
  respects (run_body exec f body).
Proof. induction body; cbn [run_body]; respects_tac. Qed.

Lemma respects_push_call (name : string) : respects (push_call name).
Proof.
  intros m. unfold push_call, bind, get_context.
  destruct (call_stack_depth (context m) <? MAX_CALL_STACK_DEPTH) eqn:Lt;
    [|apply evolves_refl].
  apply Nat.ltb_lt in Lt. simpl. split; simpl; auto.
  - exists []; rewrite app_nil_r; reflexivity.
  - intros _. unfold call_stack_depth in *; simpl.
    rewrite length_app; simpl. unfold MAX_CALL_STACK_DEPTH in *; lia.
Qed.

Lemma respects_enter_function (f : FunctionDef) (args : list string) (frame : nat) :
  respects (enter_function f args frame).
Proof.
  unfold enter_function.
  pose proof respects_bind_parameters. pose proof respects_push_call.
  respects_tac.
Qed.

(** The call as a whole: the store is back to the names it had. *)
Lemma respects_execute_function (fuel : nat) (f : FunctionDef) (args : list string) :
  respects (execute_function exec fuel f args).
Proof.
  unfold execute_function.
  destruct (negb (List.length args =? List.length (params f))); [respects_tac|].
  intros m.
  unfold bind at 1. unfold new_frame at 1.
  unfold bind at 1. unfold get_context at 1. cbn [context with_frames].
  set (m0 := with_frames (S (frames m)) m).
  assert (E0 : evolves m m0) by (apply evolves_same; reflexivity).
  pose proof (respects_enter_function f args (frames m) m0) as E1.
  unfold bind at 1.
  destruct (enter_function f args (frames m) m0) as [[] m1|p m1|s m1| |]; auto;
    try (eapply evolves_trans; eassumption).
  assert (R : respects (on_longjmp (S fuel) (mkJmp (frames m) FunctionSite)
                          (run_body exec f (fn_code_lines f)) (ret tt)))
    by (apply respects_on_longjmp; [apply respects_run_body | apply respects_ret]).
  specialize (R m1). unfold bind at 1.
  destruct (on_longjmp _ _ _ _ m1) as [[] m3|p m3|s m3| |]; auto;
    try (eapply evolves_trans; [eapply evolves_trans|]; eassumption).
  rewrite leave_function_run.
  assert (E3 : evolves m m3)
    by (eapply evolves_trans; [eapply evolves_trans|]; eassumption).
  destruct E3 as [[extra N] S K F].
  split.
  - exists []. rewrite app_nil_r. unfold names in *. cbn.
    rewrite <- firstn_map, N. unfold variable_count.
    rewrite <- (length_map var_name (variables (context m))).
    rewrite firstn_app, firstn_all, Nat.sub_diag. cbn. apply app_nil_r.
  - intros B. unfold variable_count in *. cbn.
    rewrite length_firstn. lia.
  - intros B. specialize (K B). unfold call_stack_depth in *. cbn.
    pose proof (removelast_length_le (call_stack (context m3))). lia.
  - exact F.
Qed.

Lemma respects_print_tokens (ts : list string) : respects (print_tokens ts).
Proof. induction ts; cbn [print_tokens]; respects_tac. Qed.

Lemma respects_print_all (texts : list string) : respects (print_all texts).
Proof. induction texts; cbn [print_all]; respects_tac. Qed.

Lemma respects_repeat_loop (repeat_cmd : string) (i remaining : nat) :
  respects (repeat_loop exec repeat_cmd i remaining).
Proof.
  revert i; induction remaining; intros i; cbn [repeat_loop]; respects_tac.
Qed.

Lemma respects_while_loop (fuel : nat) (cond_expr : string) (block_lines : list string) :
  respects (while_loop exec fuel cond_expr block_lines).
Proof.
  pose proof respects_execute_block.
  induction fuel; cbn [while_loop]; respects_tac.
Qed.

Lemma respects_for_loop (fuel : nat) (var : string) (end_val step_val : float)
  (block_lines : list string) :
  respects (for_loop exec fuel var end_val step_val block_lines).
Proof.
  pose proof respects_execute_block.
  induction fuel; cbn [for_loop]; respects_tac.
Qed.

Lemma respects_dispatch (fuel frame : nat) (line : string) :
  respects (dispatch exec fuel frame line).
Proof.
  pose proof respects_execute_block. pose proof respects_execute_function.
  pose proof respects_print_tokens. pose proof respects_print_all.
  pose proof respects_repeat_loop. pose proof respects_while_loop.
  pose proof respects_for_loop.
  unfold dispatch.
  destruct (List.length (tokenize line) =? 0); [respects_tac|].
  destruct (MAX_LINE_LENGTH <=? _); [respects_tac|].
  apply respects_bind; [respects_tac|intros _].
  repeat match goal with
         | |- respects (if ?b then _ else _) => destruct b
         end.
  all: try solve [respects_tac].
  all: try solve [unfold cmd_SET; respects_tac].
  all: try solve [unfold cmd_PRINT; respects_tac].
  all: try solve [unfold cmd_GET; respects_tac].
  all: try solve [unfold cmd_switch; respects_tac].
  all: try solve [unfold cmd_INPUT; respects_tac].
  all: try solve [unfold cmd_REPEAT; respects_tac].
  all: try solve [unfold cmd_IF; respects_tac].
  all: try solve [unfold cmd_WHILE; respects_tac].
  all: try solve [unfold cmd_FOR, for_body; respects_tac].
  all: try solve [unfold cmd_TRY, try_branch, catch_branch; respects_tac].
  all: try solve [unfold cmd_CONCAT; respects_tac].
  all: try solve [unfold cmd_CALL; respects_tac].
  all: try solve [unfold cmd_RETURN; respects_tac].
  all: try solve [unfold cmd_STACK; respects_tac].
  all: try solve [unfold cmd_TRACE; respects_tac].
  all: try solve [unfold cmd_SAY; respects_tac].
  - unfold cmd_IMPORT. apply respects_bind; [auto with claro | intros filename].
    intros m.
    destruct (files m _); [apply respects_execute_block | apply respects_print_error_here].
Qed.

End RespectsInterpreter.

Section RespectsLine.

Context `{Libc}.

Lemma respects_execute_line (fuel : nat) : forall line, respects (execute_line fuel line).
Proof.
  induction fuel as [|fuel IH]; intros line; [intros m; exact I|].
  cbn [execute_line].
  apply respects_bind; [apply respects_new_frame|intros frame].
  apply respects_bind;
    [apply respects_modify; intros ?; repeat split; reflexivity|intros _].
  apply respects_on_longjmp;
    [apply respects_dispatch; exact IH | apply respects_print_error_here].
Qed.

End RespectsLine.

(** ** The store after a call *)

Lemma lookup_variable_none (vars : list Var) (name : string) :
  lookup_variable vars name = None <-> ~ In name (map var_name vars).
Proof.
  induction vars as [|v vars IH]; simpl; [tauto|].
  unfold strcmp_eq. destruct (String.eqb_spec (var_name v) name) as [E|N].
  - split; [discriminate | intros A; exfalso; apply A; left; exact E].
  - rewrite IH. tauto.
Qed.

Lemma after_call_names (m m3 : Machine) :
  (exists extra, names m3 = names m ++ extra) ->
  names (with_context (after_call (variable_count (context m)) (context m3)) m3)
  = names m.
Proof.
  intros [extra N]. unfold names in *. cbn.
  rewrite <- firstn_map, N. unfold variable_count.
  rewrite <- (length_map var_name (variables (context m))).
  rewrite firstn_app, firstn_all, Nat.sub_diag. cbn. apply app_nil_r.
Qed.

(** A parameter called like a variable of the store takes that variable's
    place: same position, new value, no new entry. *)
Lemma store_variable_overwrites (vars : list Var) (name value : string)
  (type : VarType) :
  lookup_variable vars name <> None ->
  exists vars',
    store_variable vars name value type = (vars', false)
    /\ map var_name vars' = map var_name vars
    /\ lookup_variable vars' name = Some value.
Proof.
  intros P. unfold store_variable.
  assert (U : exists vars', update_variable vars name value type = Some vars'
                            /\ lookup_variable vars' name = Some value).
  { induction vars as [|v vars IH]; [contradiction|].
    simpl in *. destruct (strcmp_eq (var_name v) name) eqn:E.
    - eexists; split; [reflexivity|]. simpl. rewrite E. reflexivity.
    - destruct (IH P) as (vars' & U & Lk). rewrite U.
      eexists; split; [reflexivity|]. simpl. rewrite E. exact Lk. }
  destruct U as (vars' & U & Lk). rewrite U.
  exists vars'; repeat split; [|exact Lk].
  apply (update_variable_names _ _ _ _ _ U).
Qed.

Section CallStore.

Context `{Libc}.

Lemma execute_function_names (fuel : nat) (f : FunctionDef) (args : list string)
  (m m' : Machine) (r : float) :
  execute_function (execute_line fuel) fuel f args m = Done r m' ->
  names m' = names m.
Proof.
  intros Run.
  destruct (Nat.eq_dec (List.length args) (List.length (params f))) as [Ar|Ar].
  - destruct (execute_function_done _ fuel f args m m' r Ar Run)
      as (m1 & m3 & En & Body & _ & ->).
    apply after_call_names.
    pose proof (respects_enter_function f args (frames m)
                  (with_frames (S (frames m)) m)) as E1.
    rewrite En in E1.
    assert (R : respects (on_longjmp (S fuel) (mkJmp (frames m) FunctionSite)
                            (run_body (execute_line fuel) f (fn_code_lines f)) (ret tt)))
      by (apply respects_on_longjmp;
          [apply respects_run_body, respects_execute_line | apply respects_ret]).
    specialize (R m1). rewrite Body in R.
    destruct E1 as [[e1 N1] _ _ _], R as [[e2 N2] _ _ _].
    exists (e1 ++ e2). rewrite N2, N1, app_assoc. reflexivity.
  - destruct (execute_function_arity (execute_line fuel) fuel f args m Ar) as [text E].
    rewrite E in Run. inversion Run. reflexivity.
Qed.

End CallStore.

(** X27.  After a call returns, the store holds exactly the names it
    held before the call, at the same positions: every variable first
    created during the call, be it a parameter or a variable of the body, is
    gone.  A parameter called like a variable of the store is bound by
    overwriting that variable in place. *)
Theorem call_restores_the_names_of_the_store :
  forall (L : Libc),
    (forall fuel f args m m' r,
        execute_function (execute_line fuel) fuel f args m = Done r m' ->
        names m' = names m
        /\ variable_count (context m') = variable_count (context m)
        /\ forall name,
            get_variable (context m) name = None ->
            get_variable (context m') name = None)
    /\
    (forall vars name value,
        lookup_variable vars name <> None ->
        exists vars',
          store_variable vars name value TYPE_FLOAT = (vars', false)
          /\ map var_name vars' = map var_name vars
          /\ lookup_variable vars' name = Some value).
Proof.
  intros L; split.
  - intros fuel f args m m' r Run.
    pose proof (execute_function_names fuel f args m m' r Run) as N.
    split; [exact N|split].
    + unfold variable_count.
      rewrite <- (length_map var_name (variables (context m'))).
      rewrite <- (length_map var_name (variables (context m))).
      unfold names in N. rewrite N. reflexivity.
    + intros name. unfold get_variable. rewrite !lookup_variable_none.
      unfold names in N. rewrite N. tauto.
  - intros; apply store_variable_overwrites; assumption.
Qed.

Lemma call_store_witness :
  let before :=
    with_context
      (set_variables [mkVariable "x" TYPE_FLOAT "1"]
         (context (machine_with 0%float [fn_shadow] [])))
      (machine_with 0%float [fn_shadow] []) in
  exists m',
    execute_function (execute_line 4) 4 fn_shadow ["7"] before = Done 0%float m'
    /\ names m' = ["x"]
    /\ get_variable (context m') "tmp" = None
    /\ get_variable (context m') "x" = Some "7".
Proof.
  intros before. eexists. split; [vm_compute; reflexivity|].
  match goal with
  | |- names ?m' = _ /\ _ =>
      pose proof (proj1 (call_restores_the_names_of_the_store c99_libc)
                    4 fn_shadow ["7"] before m' 0%float) as W
  end.
  destruct W as (N & _ & Absent); [vm_compute; reflexivity|].
  split; [rewrite N; reflexivity|].
  split; [apply Absent; reflexivity | reflexivity].
Defined.

(** ** The parser never runs out of fuel *)

Lemma bounded_weaken (n n' : nat) (r : parse_result) :
  bounded n r -> n <= n' -> bounded n' r.
Proof. destruct r; simpl; auto; lia. Qed.

Lemma bounded_pbind (n1 n : nat) (r : parse_result)
  (k : float -> string -> parse_result) :
  bounded n1 r ->
  (forall v rest, String.length rest <= n1 -> bounded n (k v rest)) ->
  bounded n (pbind r k).
Proof. destruct r; simpl; auto. Qed.

Lemma char_at_some (s : string) (c : ascii) :
  char_at 0 s = c -> c <> Ascii.zero -> exists s', s = String c s'.
Proof.
  intros E N. destruct s as [|d s].
  - exfalso; apply N; rewrite <- E; reflexivity.
  - change (d = c) in E. subst d. eauto.
Qed.

Lemma drop_one_length (s : string) (c : ascii) :
  eqb_char (char_at 0 s) c = true -> c <> Ascii.zero ->
  S (String.length (string_drop 1 s)) = String.length s.
Proof.
  intros E N. apply Ascii.eqb_eq in E.
  destruct (char_at_some s c E N) as [s' ->]. reflexivity.
Qed.

Lemma strncmp_length (s p : string) :
  strncmp_eq s p = true -> String.length p <= String.length s.
Proof.
  unfold strncmp_eq. intros E. apply String.eqb_eq in E.
  rewrite <- E at 1. clear E. generalize (String.length p) as n.
  intros n; revert s; induction n as [|n IH]; intros [|c s]; simpl; try lia.
  specialize (IH s). lia.
Qed.

Lemma string_drop_exact (n : nat) (s : string) :
  n <= String.length s ->
  String.length (string_drop n s) + n = String.length s.
Proof.
  revert s; induction n as [|n IH]; intros [|c s] L; simpl in *; try lia.
  specialize (IH s). lia.
Qed.

Section ParserTotal.

Context `{Libc}.
Variable ctx : InterpreterContext.

Lemma parser_total (fuel : nat) :
  (forall s, 4 * String.length s + 1 <= fuel ->
             bounded (String.length s) (parse_factor ctx fuel s))
  /\ (forall r s, 4 * String.length s + 1 <= fuel ->
                  bounded (String.length s) (parse_term_loop ctx fuel r s))
  /\ (forall s, 4 * String.length s + 2 <= fuel ->
                bounded (String.length s) (parse_term ctx fuel s))
  /\ (forall r s, 4 * String.length s + 1 <= fuel ->
                  bounded (String.length s) (parse_expression_loop ctx fuel r s))
  /\ (forall s, 4 * String.length s + 3 <= fuel ->
                bounded (String.length s) (parse_expression ctx fuel s))
  /\ (forall r s, 4 * String.length s + 1 <= fuel ->
                  bounded (String.length s) (parse_comparison_loop ctx fuel r s))
  /\ (forall s, 4 * String.length s + 4 <= fuel ->
                bounded (String.length s) (parse_comparison ctx fuel s)).
Proof.
  induction fuel as [|fuel (F & TL & T & EL & E & CL & C)].
  - repeat split; intros; lia.
  - repeat split; intros.
    + (* parse_factor *)
      rewrite parse_factor_S; cbv zeta.
      pose proof (skip_spaces_length s) as Sk.
      set (s0 := skip_spaces s) in *.
      destruct (is_literal "true" s0);
        [cbn [bounded]; pose proof (string_drop_length 4 s0); lia|].
      destruct (is_literal "false" s0);
        [cbn [bounded]; pose proof (string_drop_length 5 s0); lia|].
      destruct (eqb_char (char_at 0 s0) "(") eqn:P.
      * pose proof (drop_one_length s0 "(" P ltac:(discriminate)) as D.
        eapply bounded_pbind.
        -- apply C; lia.
        -- intros v rest L.
           pose proof (skip_spaces_length rest) as Sr.
           destruct (eqb_char _ ")"); cbn [bounded]; [|exact I].
           pose proof (string_drop_length 1 (skip_spaces rest)). lia.
      * destruct (starts_number s0).
        -- pose proof (strtod_rest s0) as R.
           destruct (strtod s0) as [v rest]; cbn [bounded snd] in *; lia.
        -- pose proof (copy_until_length (fun c => negb (is_ident_char c))
                         (MAX_LINE_LENGTH - 1) s0) as R.
           unfold scan_identifier.
           destruct (copy_until _ _ s0) as [varname rest]; cbn [snd] in R.
           destruct (get_variable ctx varname); cbn [bounded]; lia.
    + (* parse_term_loop *)
      rewrite parse_term_loop_S; cbv zeta.
      destruct s as [|c0 s0]; [cbn [bounded]; lia|].
      set (s := String c0 s0) in *.
      pose proof (skip_spaces_length s) as Sk.
      set (s1 := skip_spaces s) in *.
      destruct (eqb_char (char_at 0 s1) "*") eqn:Mul.
      * pose proof (drop_one_length s1 "*" Mul ltac:(discriminate)) as D.
        eapply bounded_pbind.
        -- apply F; lia.
        -- intros v rest L.
           eapply bounded_weaken; [apply TL; lia | lia].
      * destruct (eqb_char (char_at 0 s1) "/") eqn:Div; [|cbn [bounded]; lia].
        pose proof (drop_one_length s1 "/" Div ltac:(discriminate)) as D.
        eapply bounded_pbind.
        -- apply F; lia.
        -- intros v rest L. destruct (PrimFloat.eqb v 0); [exact I|].
           eapply bounded_weaken; [apply TL; lia | lia].
    + (* parse_term *)
      rewrite parse_term_S. eapply bounded_pbind; [apply F; lia|].
      intros v rest L. eapply bounded_weaken; [apply TL; lia | lia].
    + (* parse_expression_loop *)
      rewrite parse_expression_loop_S; cbv zeta.
      destruct s as [|c0 s0]; [cbn [bounded]; lia|].
      set (s := String c0 s0) in *.
      pose proof (skip_spaces_length s) as Sk.
      set (s1 := skip_spaces s) in *.
      destruct (eqb_char (char_at 0 s1) "+") eqn:Add.
      * pose proof (drop_one_length s1 "+" Add ltac:(discriminate)) as D.
        eapply bounded_pbind.
        -- apply T; lia.
        -- intros v rest L.
           eapply bounded_weaken; [apply EL; lia | lia].
      * destruct (eqb_char (char_at 0 s1) "-") eqn:Sub; [|cbn [bounded]; lia].
        pose proof (drop_one_length s1 "-" Sub ltac:(discriminate)) as D.
        eapply bounded_pbind.
        -- apply T; lia.
        -- intros v rest L.
           eapply bounded_weaken; [apply EL; lia | lia].
    + (* parse_expression *)
      rewrite parse_expression_S. eapply bounded_pbind; [apply T; lia|].
      intros v rest L. eapply bounded_weaken; [apply EL; lia | lia].
    + (* parse_comparison_loop *)
      rewrite parse_comparison_loop_S; cbv zeta.
      destruct s as [|c0 s0]; [cbn [bounded]; lia|].
      set (s := String c0 s0) in *.
      pose proof (skip_spaces_length s) as Sk.
      set (s1 := skip_spaces s) in *.
      assert (Step : forall width op p,
                 strncmp_eq s1 p = true -> String.length p = width -> 1 <= width ->
                 bounded (String.length s)
                   (pbind (parse_expression ctx fuel (string_drop width s1))
                      (fun right str2 =>
                         parse_comparison_loop ctx fuel
                           (float_of_bool (op r right)) str2))).
      { intros width op p M W Pos.
        pose proof (strncmp_length s1 p M) as Lp.
        pose proof (string_drop_exact width s1 ltac:(lia)) as D.
        eapply bounded_pbind.
        - apply E; lia.
        - intros v rest L.
          eapply bounded_weaken; [apply CL; lia | lia]. }
      destruct (strncmp_eq s1 "==") eqn:M1;
        [apply (Step 2 PrimFloat.eqb "=="); auto|].
      destruct (strncmp_eq s1 "!=") eqn:M2;
        [apply (Step 2 (fun a b => negb (PrimFloat.eqb a b)) "!="); auto|].
      destruct (strncmp_eq s1 "<=") eqn:M3;
        [apply (Step 2 PrimFloat.leb "<="); auto|].
      destruct (strncmp_eq s1 ">=") eqn:M4;
        [apply (Step 2 (fun a b => PrimFloat.leb b a) ">="); auto|].
      destruct (strncmp_eq s1 "<") eqn:M5;
        [apply (Step 1 PrimFloat.ltb "<"); auto|].
      destruct (strncmp_eq s1 ">") eqn:M6;
        [apply (Step 1 (fun a b => PrimFloat.ltb b a) ">"); auto|].
      cbn [bounded]; lia.
    + (* parse_comparison *)
      rewrite parse_comparison_S. eapply bounded_pbind; [apply E; lia|].
      intros v rest L. eapply bounded_weaken; [apply CL; lia | lia].
Qed.

(** [evaluate_expression] always returns a value or a fault. *)
Lemma evaluate_expression_total (expr : string) :
  evaluate_expression ctx expr <> PFuel.
Proof.
  unfold evaluate_expression, expression_fuel.
  pose proof (proj2 (proj2 (proj2 (proj2 (proj2 (proj2
                (parser_total (4 * (String.length expr + 1)))))))) expr) as T.
  intros E. rewrite E in T. apply T. lia.
Qed.

End ParserTotal.

(** ** More fuel does not change what the parser returns *)

Lemma settles_refl (a : parse_result) : settles a a.
Proof. right; reflexivity. Qed.

Lemma settles_pbind (a b : parse_result) (k k' : float -> string -> parse_result) :
  settles a b -> (forall v rest, settles (k v rest) (k' v rest)) ->
  settles (pbind a k) (pbind b k').
Proof.
  intros [->| ->] K; [left; reflexivity|].
  destruct b; simpl; [apply K | right; reflexivity | left; reflexivity].
Qed.

Section ParserMonotone.

Context `{Libc}.
Variable ctx : InterpreterContext.

Lemma parser_step (fuel : nat) :
  (forall s, settles (parse_factor ctx fuel s) (parse_factor ctx (S fuel) s))
  /\ (forall r s, settles (parse_term_loop ctx fuel r s) (parse_term_loop ctx (S fuel) r s))
  /\ (forall s, settles (parse_term ctx fuel s) (parse_term ctx (S fuel) s))
  /\ (forall r s, settles (parse_expression_loop ctx fuel r s)
                    (parse_expression_loop ctx (S fuel) r s))
  /\ (forall s, settles (parse_expression ctx fuel s) (parse_expression ctx (S fuel) s))
  /\ (forall r s, settles (parse_comparison_loop ctx fuel r s)
                    (parse_comparison_loop ctx (S fuel) r s))
  /\ (forall s, settles (parse_comparison ctx fuel s) (parse_comparison ctx (S fuel) s)).
Proof.
  induction fuel as [|fuel (F & TL & T & EL & E & CL & C)].
  - repeat split; intros; left; reflexivity.
  - repeat split; intros.
    + rewrite (parse_factor_S ctx fuel), (parse_factor_S ctx (S fuel)); cbv zeta.
      repeat (match goal with
              | |- settles (if ?b then _ else _) _ => destruct b
              end; try apply settles_refl).
      apply settles_pbind; [apply C | intros; apply settles_refl].
    + rewrite (parse_term_loop_S ctx fuel), (parse_term_loop_S ctx (S fuel)); cbv zeta.
      destruct s; [apply settles_refl|].
      repeat (match goal with
              | |- settles (if ?b then _ else _) _ => destruct b
              end; try apply settles_refl).
      * apply settles_pbind; [apply F | intros; apply TL].
      * apply settles_pbind; [apply F|]. intros v rest.
        destruct (PrimFloat.eqb v 0); [apply settles_refl | apply TL].
    + rewrite (parse_term_S ctx fuel), (parse_term_S ctx (S fuel)).
      apply settles_pbind; [apply F | intros; apply TL].
    + rewrite (parse_expression_loop_S ctx fuel), (parse_expression_loop_S ctx (S fuel));
        cbv zeta.
      destruct s; [apply settles_refl|].
      repeat (match goal with
              | |- settles (if ?b then _ else _) _ => destruct b
              end; try apply settles_refl).
      * apply settles_pbind; [apply T | intros; apply EL].
      * apply settles_pbind; [apply T | intros; apply EL].
    + rewrite (parse_expression_S ctx fuel), (parse_expression_S ctx (S fuel)).
      apply settles_pbind; [apply T | intros; apply EL].
    + rewrite (parse_comparison_loop_S ctx fuel), (parse_comparison_loop_S ctx (S fuel));
        cbv zeta.
      destruct s; [apply settles_refl|].
      repeat (match goal with
              | |- settles (if ?b then _ else _) _ => destruct b
              end; try apply settles_refl);
        (apply settles_pbind; [apply E | intros; apply CL]).
    + rewrite (parse_comparison_S ctx fuel), (parse_comparison_S ctx (S fuel)).
      apply settles_pbind; [apply E | intros; apply CL].
Qed.

Lemma parse_comparison_more_fuel (fuel extra : nat) (s : string) :
  settles (parse_comparison ctx fuel s) (parse_comparison ctx (extra + fuel) s).
Proof.
  induction extra as [|extra IH]; [apply settles_refl|].
  destruct IH as [E|E]; [left; exact E|].
  rewrite E. cbn [Nat.add]. apply parser_step.
Qed.

(** Whatever [parse_comparison] returns with some fuel is what
    [evaluate_expression] returns. *)
Lemma evaluate_expression_any_fuel (fuel : nat) (expr : string) (r : parse_result) :
  parse_comparison ctx fuel expr = r -> r <> PFuel ->
  evaluate_expression ctx expr = r.
Proof.
  intros E N. unfold evaluate_expression.
  pose proof (evaluate_expression_total ctx expr) as Tot.
  unfold evaluate_expression in Tot.
  destruct (parse_comparison_more_fuel fuel (expression_fuel expr) expr) as [A|A];
    [congruence|].
  destruct (parse_comparison_more_fuel (expression_fuel expr) fuel expr) as [B|B];
    [contradiction|].
  rewrite B, (Nat.add_comm fuel), <- A. exact E.
Qed.

End ParserMonotone.

(** ** The parser agrees with the grammar *)

Lemma str_app_assoc (a b c : string) : (a +++ b) +++ c = a +++ (b +++ c).
Proof. induction a as [|x a IH]; simpl; [reflexivity | rewrite IH; reflexivity]. Qed.

Lemma skip_spaces_idem (s : string) : skip_spaces (skip_spaces s) = skip_spaces s.
Proof.
  induction s as [|c s IH]; [reflexivity|].
  simpl. destruct (Ctype.isspace c) eqn:E; [exact IH|].
  simpl. rewrite E. reflexivity.
Qed.

Lemma stops_mono (k k' : nat) (rest : string) : stops k rest -> k <= k' -> stops k' rest.
Proof. intros [] L; constructor; lia. Qed.

Lemma stops_delimited (k : nat) (rest : string) : stops k rest -> delimited rest.
Proof. intros []; simpl; auto. Qed.

Lemma parses_fault (p : nat -> string -> parse_result) (s : string) (r r' : parse_result) :
  parses p s r -> r = r' -> parses p s r'.
Proof. intros P <-; exact P. Qed.

Section Chain.

Context `{Libc}.
Variable ctx : InterpreterContext.
Variable k : nat.
Variables operand whole : nat -> string -> parse_result.
Variable loop : nat -> float -> string -> parse_result.
Variable size_bound : nat.

Hypothesis k_small : k < 3.

Hypothesis whole_0 : forall s, whole 0 s = PFuel.

Hypothesis whole_S : forall fuel s,
  whole (S fuel) s = pbind (operand fuel s) (fun v s1 => loop fuel v s1).

Hypothesis loop_op : forall fuel acc op s,
  level op = k ->
  loop (S fuel) acc (" " +++ op_text op +++ " " +++ s) =
  pbind (operand fuel (" " +++ s))
    (fun b s2 =>
       match apply_op op acc b with
       | inl v => loop fuel v s2
       | inr msg => PFault msg
       end).

Hypothesis loop_stop : forall fuel acc rest,
  stops k rest -> loop (S fuel) acc rest = PVal acc (skip_spaces rest).

Hypothesis loop_skip : forall fuel acc s s',
  skip_spaces s = skip_spaces s' -> loop fuel acc s = loop fuel acc s'.

Hypothesis operand_space : forall fuel s, operand fuel (" " +++ s) = operand fuel s.

Hypothesis operand_ok : forall e rest,
  size e <= size_bound -> well_formed e -> k < expr_level e -> stops (S k) rest ->
  exists rest',
    skip_spaces rest' = skip_spaces rest
    /\ parses operand (show e +++ rest) (returns (denote ctx e) rest').

Lemma whole_space (fuel : nat) (s : string) : whole fuel (" " +++ s) = whole fuel s.
Proof.
  destruct fuel as [|fuel]; [rewrite !whole_0; reflexivity|].
  rewrite !whole_S, operand_space. reflexivity.
Qed.

(** The level-[k] parser on the text of a tree followed by [rest] does what
    its loop does on [rest], started with the value of the tree. *)
Lemma chain (e : expr) :
  size e <= size_bound -> well_formed e -> k <= expr_level e ->
  forall rest R,
    stops (S k) rest ->
    (forall v, denote ctx e = inl v -> parses (fun fuel => loop fuel v) rest R) ->
    (forall msg, denote ctx e = inr msg -> R = PFault msg) ->
    parses whole (show e +++ rest) R.
Proof.
  assert (Base : forall e0, size e0 <= size_bound -> well_formed e0 ->
                   k < expr_level e0 ->
                   forall rest R,
                     stops (S k) rest ->
                     (forall v, denote ctx e0 = inl v ->
                                parses (fun fuel => loop fuel v) rest R) ->
                     (forall msg, denote ctx e0 = inr msg -> R = PFault msg) ->
                     parses whole (show e0 +++ rest) R).
  { intros e0 Sz Wf Lv rest R St Hv Hm.
    destruct (operand_ok e0 rest Sz Wf Lv St) as (rest' & Sk & n1 & P1).
    destruct (denote ctx e0) as [v|msg] eqn:D.
    - destruct (Hv v eq_refl) as (n2 & P2).
      exists (S (Nat.max n1 n2)). intros fuel L.
      destruct fuel as [|fuel]; [lia|].
      rewrite whole_S, P1 by lia. cbn [returns pbind].
      rewrite (loop_skip fuel v rest' rest Sk). apply P2. lia.
    - exists (S n1). intros fuel L.
      destruct fuel as [|fuel]; [lia|].
      rewrite whole_S, P1 by lia. cbn [returns pbind].
      symmetry. apply Hm. reflexivity. }
  induction e as [text v|b|name|e' _|op l IHl r _]; intros Sz Wf Lv rest R St Hv Hm;
    try (apply Base; auto; cbn [expr_level]; lia).
  cbn [expr_level] in Lv.
  destruct (Nat.eq_dec (level op) k) as [Eq|Ne];
    [|apply Base; auto; cbn [expr_level]; lia].
  cbn [well_formed] in Wf. destruct Wf as (Ll & Lr & Wl & Wr).
  cbn [size] in Sz.
  cbn [show]. rewrite !str_app_assoc.
  apply IHl; [lia | exact Wl | lia | constructor; lia | |].
  - intros a Da.
    destruct (operand_ok r rest ltac:(lia) Wr ltac:(lia) St) as (rest' & Sk & n1 & P1).
    cbn [denote] in Hv, Hm. rewrite Da in Hv, Hm.
    destruct (denote ctx r) as [b|msg] eqn:Dr.
    + destruct (apply_op op a b) as [v|msg] eqn:Ap.
      * destruct (Hv v eq_refl) as (n2 & P2).
        exists (S (Nat.max n1 n2)). intros fuel L.
        destruct fuel as [|fuel]; [lia|].
        rewrite (loop_op fuel a op _ Eq), operand_space, P1 by lia.
        cbn [returns pbind]. rewrite Ap.
        rewrite (loop_skip fuel v rest' rest Sk). apply P2. lia.
      * exists (S n1). intros fuel L.
        destruct fuel as [|fuel]; [lia|].
        rewrite (loop_op fuel a op _ Eq), operand_space, P1 by lia.
        cbn [returns pbind]. rewrite Ap.
        symmetry. apply Hm. reflexivity.
    + exists (S n1). intros fuel L.
      destruct fuel as [|fuel]; [lia|].
      rewrite (loop_op fuel a op _ Eq), operand_space, P1 by lia.
      cbn [returns pbind]. symmetry. apply Hm. reflexivity.
  - intros msg Dl. apply Hm. cbn [denote]. rewrite Dl. reflexivity.
Qed.

(** When [rest] ends the chain, the level-[k] parser returns the value of
    the tree and leaves the cursor on [rest], blanks skipped. *)
Lemma chain_stop (e : expr) (rest : string) :
  size e <= size_bound -> well_formed e -> k <= expr_level e -> stops k rest ->
  exists rest',
    skip_spaces rest' = skip_spaces rest
    /\ parses whole (show e +++ rest) (returns (denote ctx e) rest').
Proof.
  intros Sz Wf Lv St. exists (skip_spaces rest). split; [apply skip_spaces_idem|].
  apply chain; auto.
  - eapply stops_mono; [exact St | lia].
  - intros v D. rewrite D. exists 1. intros fuel L.
    destruct fuel as [|fuel]; [lia|]. apply loop_stop, St.
  - intros msg D. rewrite D. reflexivity.
Qed.

End Chain.

(** *** The three loops *)

Lemma pbind_ext (r : parse_result) (f g : float -> string -> parse_result) :
  (forall v s, f v s = g v s) -> pbind r f = pbind r g.
Proof. intros E; destruct r; simpl; auto. Qed.

Section Loops.

Context `{Libc}.
Variable ctx : InterpreterContext.

Lemma parse_factor_space (fuel : nat) (s : string) :
  parse_factor ctx fuel (" " +++ s) = parse_factor ctx fuel s.
Proof. destruct fuel; [reflexivity|]. rewrite !parse_factor_S. reflexivity. Qed.

(** Each loop looks at its input through [skip_spaces] only. *)
Lemma parse_term_loop_skip (fuel : nat) (acc : float) (s s' : string) :
  skip_spaces s = skip_spaces s' ->
  parse_term_loop ctx fuel acc s = parse_term_loop ctx fuel acc s'.
Proof.
  intros E. destruct fuel; [reflexivity|].
  transitivity (parse_term_loop ctx (S fuel) acc (skip_spaces s)).
  - rewrite !parse_term_loop_S; cbv zeta. rewrite skip_spaces_idem.
    destruct s as [|c s]; [reflexivity|].
    destruct (skip_spaces (String c s)); reflexivity.
  - rewrite E. rewrite !parse_term_loop_S; cbv zeta. rewrite skip_spaces_idem.
    destruct s' as [|c s']; [reflexivity|].
    destruct (skip_spaces (String c s')); reflexivity.
Qed.

Lemma parse_expression_loop_skip (fuel : nat) (acc : float) (s s' : string) :
  skip_spaces s = skip_spaces s' ->
  parse_expression_loop ctx fuel acc s = parse_expression_loop ctx fuel acc s'.
Proof.
  intros E. destruct fuel; [reflexivity|].
  transitivity (parse_expression_loop ctx (S fuel) acc (skip_spaces s)).
  - rewrite !parse_expression_loop_S; cbv zeta. rewrite skip_spaces_idem.
    destruct s as [|c s]; [reflexivity|].
    destruct (skip_spaces (String c s)); reflexivity.
  - rewrite E. rewrite !parse_expression_loop_S; cbv zeta. rewrite skip_spaces_idem.
    destruct s' as [|c s']; [reflexivity|].
    destruct (skip_spaces (String c s')); reflexivity.
Qed.

Lemma parse_comparison_loop_skip (fuel : nat) (acc : float) (s s' : string) :
  skip_spaces s = skip_spaces s' ->
  parse_comparison_loop ctx fuel acc s = parse_comparison_loop ctx fuel acc s'.
Proof.
  intros E. destruct fuel; [reflexivity|].
  transitivity (parse_comparison_loop ctx (S fuel) acc (skip_spaces s)).
  - rewrite !parse_comparison_loop_S; cbv zeta. rewrite skip_spaces_idem.
    destruct s as [|c s]; [reflexivity|].
    destruct (skip_spaces (String c s)); reflexivity.
  - rewrite E. rewrite !parse_comparison_loop_S; cbv zeta. rewrite skip_spaces_idem.
    destruct s' as [|c s']; [reflexivity|].
    destruct (skip_spaces (String c s')); reflexivity.
Qed.

Lemma parse_term_loop_op (fuel : nat) (acc : float) (op : binop) (s : string) :
  level op = 2 ->
  parse_term_loop ctx (S fuel) acc (" " +++ op_text op +++ " " +++ s) =
  pbind (parse_factor ctx fuel (" " +++ s))
    (fun b s2 =>
       match apply_op op acc b with
       | inl v => parse_term_loop ctx fuel v s2
       | inr msg => PFault msg
       end).
Proof.
  intros L. rewrite parse_term_loop_S.
  destruct op; try discriminate L; cbn.
  - reflexivity.
  - apply pbind_ext. intros v s'. destruct (PrimFloat.eqb v 0); reflexivity.
Qed.

Lemma parse_expression_loop_op (fuel : nat) (acc : float) (op : binop) (s : string) :
  level op = 1 ->
  parse_expression_loop ctx (S fuel) acc (" " +++ op_text op +++ " " +++ s) =
  pbind (parse_term ctx fuel (" " +++ s))
    (fun b s2 =>
       match apply_op op acc b with
       | inl v => parse_expression_loop ctx fuel v s2
       | inr msg => PFault msg
       end).
Proof.
  intros L. rewrite parse_expression_loop_S.
  destruct op; try discriminate L; reflexivity.
Qed.

Lemma parse_comparison_loop_op (fuel : nat) (acc : float) (op : binop) (s : string) :
  level op = 0 ->
  parse_comparison_loop ctx (S fuel) acc (" " +++ op_text op +++ " " +++ s) =
  pbind (parse_expression ctx fuel (" " +++ s))
    (fun b s2 =>
       match apply_op op acc b with
       | inl v => parse_comparison_loop ctx fuel v s2
       | inr msg => PFault msg
       end).
Proof.
  intros L. rewrite parse_comparison_loop_S.
  destruct op; try discriminate L; reflexivity.
Qed.

Lemma parse_term_loop_stop (fuel : nat) (acc : float) (rest : string) :
  stops 2 rest ->
  parse_term_loop ctx (S fuel) acc rest = PVal acc (skip_spaces rest).
Proof.
  intros St. rewrite parse_term_loop_S.
  destruct St as [|s|op s L]; [reflexivity | reflexivity |].
  destruct op; cbn in L; try lia; reflexivity.
Qed.

Lemma parse_expression_loop_stop (fuel : nat) (acc : float) (rest : string) :
  stops 1 rest ->
  parse_expression_loop ctx (S fuel) acc rest = PVal acc (skip_spaces rest).
Proof.
  intros St. rewrite parse_expression_loop_S.
  destruct St as [|s|op s L]; [reflexivity | reflexivity |].
  destruct op; cbn in L; try lia; reflexivity.
Qed.

Lemma parse_comparison_loop_stop (fuel : nat) (acc : float) (rest : string) :
  stops 0 rest ->
  parse_comparison_loop ctx (S fuel) acc rest = PVal acc (skip_spaces rest).
Proof.
  intros St. rewrite parse_comparison_loop_S.
  destruct St as [|s|op s L]; [reflexivity | reflexivity | lia].
Qed.

End Loops.

(** *** Primaries *)

Lemma is_literal_cons (a c : ascii) (lit t : string) :
  is_literal (String a lit) (String c t) =
  Ascii.eqb (Ctype.toupper c) (Ctype.toupper a) && is_literal lit t.
Proof.
  unfold is_literal, strncasecmp_eq, char_at. cbn.
  rewrite andb_assoc. reflexivity.
Qed.

Lemma number_first_char (c : ascii) :
  Ctype.isdigit c || eqb_char c "."%char = true ->
  Ctype.isspace c = false
  /\ eqb_char c "("%char = false
  /\ Ascii.eqb (Ctype.toupper c) (Ctype.toupper "t") = false
  /\ Ascii.eqb (Ctype.toupper c) (Ctype.toupper "f") = false.
Proof.
  destruct c as [[] [] [] [] [] [] [] []]; vm_compute; intros E;
    try discriminate E; repeat split; reflexivity.
Qed.

Lemma delimiter_not_letter (d u : ascii) :
  d = " "%char \/ d = ")"%char -> Ctype.isupper u = true ->
  Ascii.eqb (Ctype.toupper d) u = false.
Proof.
  intros D U. destruct (Ascii.eqb (Ctype.toupper d) u) eqn:E; [|reflexivity].
  apply Ascii.eqb_eq in E. subst u.
  destruct D; subst d; vm_compute in U; discriminate.
Qed.

Lemma delimiter_not_ident (d : ascii) :
  d = " "%char \/ d = ")"%char ->
  is_ident_char d = false /\ Ctype.isalnum d = false.
Proof. intros [-> | ->]; split; reflexivity. Qed.

(** A literal is recognised in [name] followed by delimited text exactly as
    in [name] alone. *)
Lemma is_literal_delimited (lit name rest : string) :
  all_letters lit = true -> delimited rest ->
  is_literal lit (name +++ rest) = is_literal lit name.
Proof.
  revert name; induction lit as [|a lit IH]; intros name L D.
  - destruct name as [|c name]; [|reflexivity].
    destruct rest as [|d rest]; [reflexivity|].
    simpl in D. destruct (delimiter_not_ident d D) as [_ N].
    unfold is_literal, char_at. cbn. rewrite N. reflexivity.
  - simpl in L. apply andb_true_iff in L as [La Ll].
    destruct name as [|c name].
    + destruct rest as [|d rest]; [reflexivity|].
      cbn [String.append]. rewrite is_literal_cons.
      simpl in D. rewrite (delimiter_not_letter d _ D La). reflexivity.
    + cbn [String.append]. rewrite !is_literal_cons, IH by assumption. reflexivity.
Qed.

Lemma copy_identifier_delimited (room : nat) (name rest : string) :
  all_ident_chars name = true -> String.length name <= room -> delimited rest ->
  copy_until (fun c => negb (is_ident_char c)) room (name +++ rest) = (name, rest).
Proof.
  revert room; induction name as [|c name IH]; intros room A L D.
  - cbn [String.append]. destruct rest as [|d rest]; [destruct room; reflexivity|].
    simpl in D. destruct (delimiter_not_ident d D) as [N _].
    destruct room; [reflexivity|]. simpl. rewrite N. reflexivity.
  - simpl in A. apply andb_true_iff in A as [Ac An].
    destruct room as [|room]; [simpl in L; lia|].
    cbn [String.append copy_until]. rewrite Ac. cbn [negb].
    rewrite IH; [reflexivity | exact An | simpl in L; lia | exact D].
Qed.

Section Primaries.

Context `{Libc}.
Variable ctx : InterpreterContext.

Lemma parse_factor_number (fuel : nat) (text rest : string) (v : float) :
  reads text v -> delimited rest ->
  parse_factor ctx (S fuel) (text +++ rest) = PVal v rest.
Proof.
  intros [St Rd] D. rewrite parse_factor_S; cbv zeta.
  destruct text as [|c text]; [discriminate St|].
  destruct (number_first_char c St) as (Sp & Pa & Nt & Nf).
  cbn [String.append skip_spaces]. rewrite Sp.
  rewrite !is_literal_cons, Nt, Nf. cbn [andb].
  change (char_at 0 (String c (text +++ rest))) with c. rewrite Pa.
  change (starts_number (String c (text +++ rest)))
    with (starts_number (String c text)). rewrite St.
  change (String c (text +++ rest)) with (String c text +++ rest).
  rewrite (Rd rest D). reflexivity.
Qed.

Lemma parse_factor_bool (fuel : nat) (b : bool) (rest : string) :
  delimited rest ->
  parse_factor ctx (S fuel) ((if b then "true" else "false") +++ rest)
  = PVal (float_of_bool b) rest.
Proof.
  intros D. rewrite parse_factor_S; cbv zeta.
  destruct b.
  - change (skip_spaces ("true" +++ rest)) with ("true" +++ rest).
    rewrite (is_literal_delimited "true" "true" rest eq_refl D). reflexivity.
  - change (skip_spaces ("false" +++ rest)) with ("false" +++ rest).
    rewrite (is_literal_delimited "true" "false" rest eq_refl D).
    rewrite (is_literal_delimited "false" "false" rest eq_refl D). reflexivity.
Qed.

Lemma parse_factor_reference (fuel : nat) (name rest : string) :
  is_identifier name = true -> delimited rest ->
  parse_factor ctx (S fuel) (name +++ rest) =
  PVal (match get_variable ctx name with
        | Some val => atof val
        | None => 0%float
        end) rest.
Proof.
  intros I D. destruct name as [|c name]; [discriminate|].
  unfold is_identifier in I.
  apply andb_true_iff in I as [I Lf]; apply andb_true_iff in I as [I Lt].
  apply andb_true_iff in I as [I Len]; apply andb_true_iff in I as [Dg All].
  apply negb_true_iff in Lf, Lt, Dg. apply Nat.leb_le in Len.
  assert (Ac : is_ident_char c = true)
    by (simpl in All; apply andb_true_iff in All as [A _]; exact A).
  rewrite parse_factor_S; cbv zeta.
  assert (Sk : skip_spaces (String c name +++ rest) = String c name +++ rest)
    by (simpl; rewrite (ident_char_not_space c Ac); reflexivity).
  rewrite Sk.
  rewrite (is_literal_delimited "true" _ rest eq_refl D), Lt.
  rewrite (is_literal_delimited "false" _ rest eq_refl D), Lf.
  assert (Pa : eqb_char (char_at 0 (String c name +++ rest)) "(" = false).
  { destruct (eqb_char (char_at 0 (String c name +++ rest)) "(") eqn:E; [|reflexivity].
    apply Ascii.eqb_eq in E. exfalso; apply (ident_char_not_paren c Ac E). }
  rewrite Pa.
  assert (Np : starts_number (String c name +++ rest) = false)
    by (cbn; rewrite Dg, (ident_char_not_point c Ac); reflexivity).
  rewrite Np. unfold scan_identifier.
  rewrite copy_identifier_delimited by assumption.
  destruct (get_variable ctx (String c name)); reflexivity.
Qed.

End Primaries.

(** *** All levels together *)

Lemma size_positive (e : expr) : 1 <= size e.
Proof. destruct e; simpl; lia. Qed.

Lemma str_app_nil (s : string) : s +++ EmptyString = s.
Proof. induction s as [|c s IH]; simpl; [reflexivity | rewrite IH; reflexivity]. Qed.

Section Levels.

Context `{Libc}.
Variable ctx : InterpreterContext.

Lemma agrees_operand (p : nat -> string -> parse_result) (k n : nat) :
  agrees ctx p (S k) n ->
  forall e rest,
    size e <= n -> well_formed e -> k < expr_level e -> stops (S k) rest ->
    exists rest',
      skip_spaces rest' = skip_spaces rest
      /\ parses p (show e +++ rest) (returns (denote ctx e) rest').
Proof. intros A e rest Sz Wf Lv St. apply A; auto. Qed.

Lemma parse_term_space (fuel : nat) (s : string) :
  parse_term ctx fuel (" " +++ s) = parse_term ctx fuel s.
Proof.
  destruct fuel; [reflexivity|].
  rewrite !parse_term_S, parse_factor_space. reflexivity.
Qed.

Lemma parse_expression_space (fuel : nat) (s : string) :
  parse_expression ctx fuel (" " +++ s) = parse_expression ctx fuel s.
Proof.
  destruct fuel; [reflexivity|].
  rewrite !parse_expression_S, parse_term_space. reflexivity.
Qed.

Lemma agrees_term (n : nat) :
  agrees ctx (parse_factor ctx) 3 n -> agrees ctx (parse_term ctx) 2 n.
Proof.
  intros F e rest.
  apply (chain_stop ctx 2 (parse_factor ctx) (parse_term ctx) (parse_term_loop ctx) n
           ltac:(lia) (parse_term_S ctx) (parse_term_loop_op ctx)
           (parse_term_loop_stop ctx) (parse_term_loop_skip ctx)
           (parse_factor_space ctx) (agrees_operand _ 2 n F)).
Qed.

Lemma agrees_expression (n : nat) :
  agrees ctx (parse_term ctx) 2 n -> agrees ctx (parse_expression ctx) 1 n.
Proof.
  intros T e rest.
  apply (chain_stop ctx 1 (parse_term ctx) (parse_expression ctx)
           (parse_expression_loop ctx) n
           ltac:(lia) (parse_expression_S ctx) (parse_expression_loop_op ctx)
           (parse_expression_loop_stop ctx) (parse_expression_loop_skip ctx)
           parse_term_space (agrees_operand _ 1 n T)).
Qed.

Lemma agrees_comparison (n : nat) :
  agrees ctx (parse_expression ctx) 1 n -> agrees ctx (parse_comparison ctx) 0 n.
Proof.
  intros E e rest.
  apply (chain_stop ctx 0 (parse_expression ctx) (parse_comparison ctx)
           (parse_comparison_loop ctx) n
           ltac:(lia) (parse_comparison_S ctx) (parse_comparison_loop_op ctx)
           (parse_comparison_loop_stop ctx) (parse_comparison_loop_skip ctx)
           parse_expression_space (agrees_operand _ 0 n E)).
Qed.

(** Primaries, given the comparison level on smaller trees (for the inside
    of parentheses). *)
Lemma agrees_factor (n : nat) :
  agrees ctx (parse_comparison ctx) 0 n -> agrees ctx (parse_factor ctx) 3 (S n).
Proof.
  intros C e rest Sz Wf Lv St.
  pose proof (stops_delimited 3 rest St) as D.
  destruct e as [text v|b|name|e'|op l r].
  - exists rest; split; [reflexivity|]. exists 1. intros fuel L.
    destruct fuel; [lia|]. apply parse_factor_number; assumption.
  - exists rest; split; [reflexivity|]. exists 1. intros fuel L.
    destruct fuel; [lia|]. apply parse_factor_bool; assumption.
  - exists rest; split; [reflexivity|]. exists 1. intros fuel L.
    destruct fuel; [lia|]. apply parse_factor_reference; assumption.
  - cbn [size] in Sz. cbn [well_formed] in Wf.
    destruct (C e' (")" +++ rest) ltac:(lia) Wf ltac:(lia) (stops_paren 0 rest))
      as (rest' & Sk & n1 & P1).
    exists rest; split; [reflexivity|]. exists (S n1). intros fuel L.
    destruct fuel as [|fuel]; [lia|].
    cbn [show denote]. rewrite !str_app_assoc.
    rewrite parse_factor_S; cbv zeta.
    change (skip_spaces ("(" +++ show e' +++ ")" +++ rest))
      with ("(" +++ show e' +++ ")" +++ rest).
    rewrite (paren_is_no_literal "true") by (try reflexivity; left; reflexivity).
    rewrite (paren_is_no_literal "false") by (try reflexivity; right; reflexivity).
    change (eqb_char (char_at 0 ("(" +++ show e' +++ ")" +++ rest)) "(") with true.
    cbv iota.
    change (string_drop 1 ("(" +++ show e' +++ ")" +++ rest))
      with (show e' +++ ")" +++ rest).
    rewrite P1 by lia.
    destruct (denote ctx e') as [v|msg]; [|reflexivity].
    cbn [returns pbind]. rewrite Sk. reflexivity.
  - cbn [expr_level] in Lv. destruct op; cbn in Lv; lia.
Qed.

Lemma agrees_all (n : nat) :
  agrees ctx (parse_factor ctx) 3 n /\ agrees ctx (parse_term ctx) 2 n
  /\ agrees ctx (parse_expression ctx) 1 n /\ agrees ctx (parse_comparison ctx) 0 n.
Proof.
  induction n as [|n (F & T & E & C)].
  - repeat split; intros e rest Sz; pose proof (size_positive e); lia.
  - pose proof (agrees_factor n C) as F'.
    pose proof (agrees_term (S n) F') as T'.
    pose proof (agrees_expression (S n) T') as E'.
    pose proof (agrees_comparison (S n) E') as C'.
    auto.
Qed.

(** The evaluator on the text of any tree of the grammar. *)
Lemma evaluate_show (e : expr) :
  well_formed e ->
  evaluate_expression ctx (show e) = returns (denote ctx e) EmptyString.
Proof.
  intros Wf.
  destruct (agrees_all (size e)) as (_ & _ & E & _).
  assert (P : parses (parse_comparison ctx) (show e +++ EmptyString)
                (returns (denote ctx e) EmptyString)).
  { apply (chain ctx 0 (parse_expression ctx) (parse_comparison ctx)
             (parse_comparison_loop ctx) (size e)
             ltac:(lia) (parse_comparison_S ctx) (parse_comparison_loop_op ctx)
             (parse_comparison_loop_skip ctx)
             parse_expression_space (agrees_operand _ 0 _ E));
      auto using stops_end with arith.
    - intros v D. rewrite D. exists 1. intros fuel L.
      destruct fuel as [|fuel]; [lia|].
      apply (parse_comparison_loop_stop ctx fuel v EmptyString (stops_end 0)).
    - intros msg D. rewrite D. reflexivity. }
  rewrite str_app_nil in P. destruct P as (n & P).
  apply (evaluate_expression_any_fuel ctx n (show e)); [apply P; lia|].
  destruct (denote ctx e); discriminate.
Qed.

End Levels.

(** *** Decimal numerals under the C99 conversion *)

Lemma digit_cases (c : ascii) :
  Ctype.isdigit c = true ->
  In c ["0"; "1"; "2"; "3"; "4"; "5"; "6"; "7"; "8"; "9"]%char.
Proof.
  destruct c as [[] [] [] [] [] [] [] []]; intros D; try discriminate D;
    simpl; tauto.
Qed.

Lemma delimiter_not_digit (rest : string) :
  delimited rest -> C99.read_digits rest = fun acc count => (acc, count, rest).
Proof.
  destruct rest as [|c r]; [reflexivity|].
  intros [-> | ->]; reflexivity.
Qed.

Lemma read_digits_numeral (text rest : string) (acc count : Z) :
  all_digits text = true -> delimited rest ->
  C99.read_digits (text +++ rest) acc count =
  (digits_value text acc, (count + Z.of_nat (String.length text))%Z, rest).
Proof.
  intros A D. revert acc count A.
  induction text as [|c t IH]; intros acc count A.
  - cbn [String.append String.length digits_value].
    rewrite (delimiter_not_digit rest D), Z.add_0_r. reflexivity.
  - cbn [all_digits] in A. apply andb_prop in A as [Dc At].
    cbn [String.append C99.read_digits digits_value String.length].
    rewrite Dc, (IH _ _ At). do 2 f_equal. lia.
Qed.

Lemma read_exponent_delimited (rest : string) :
  delimited rest -> C99.read_exponent rest = (0%Z, rest).
Proof.
  destruct rest as [|c r]; [reflexivity|].
  intros [-> | ->]; reflexivity.
Qed.

(** [strtod] reads a non-empty string of decimal digits as the double
    nearest to the integer it writes, and stops right after it. *)
Lemma reads_numeral (text : string) :
  text <> EmptyString -> all_digits text = true ->
  @reads c99_libc text (C99.float_of_decimal (digits_value text 0) 0).
Proof.
  intros N A. destruct text as [|c t]; [contradiction N; reflexivity|].
  pose proof A as A0. cbn [all_digits] in A0. apply andb_prop in A0 as [Dc _].
  split.
  - cbn [starts_number]. rewrite Dc. reflexivity.
  - intros rest D. cbn [strtod c99_libc]. unfold C99.strtod.
    assert (Head : skip_spaces (String c t +++ rest) = String c t +++ rest
                   /\ C99.read_sign (String c t +++ rest) = (false, String c t +++ rest)
                   /\ strncasecmp_eq (String c t +++ rest) "infinity" = false
                   /\ strncasecmp_eq (String c t +++ rest) "inf" = false
                   /\ strncasecmp_eq (String c t +++ rest) "nan" = false).
    { pose proof (digit_cases c Dc) as Cases. cbn [In] in Cases.
      repeat (destruct Cases as [<- | Cases]; [repeat split|]);
        contradiction. }
    destruct Head as (-> & -> & -> & -> & ->).
    rewrite (read_digits_numeral (String c t) rest 0 0 A D).
    assert (Tail : match rest with
                   | String "." s2' => C99.read_digits s2' (digits_value (String c t) 0) 0
                   | _ => (digits_value (String c t) 0, 0%Z, rest)
                   end = (digits_value (String c t) 0, 0%Z, rest)).
    { destruct rest as [|d r]; [reflexivity|].
      destruct D as [-> | ->]; reflexivity. }
    rewrite Tail. cbn [String.length].
    replace (0 + Z.of_nat (S (String.length t)) + 0 =? 0)%Z with false
      by (symmetry; apply Z.eqb_neq; lia).
    rewrite (read_exponent_delimited rest D).
    reflexivity.
Qed.

(** ** Precedence *)

(** C6.  The evaluator computes the value of the grammar with the levels
    comparison, additive, multiplicative and primary: on the text of any tree
    whose operator nodes have a left operand of the same level or above and a
    right operand of a level strictly above (so that operators of one level
    fold from the left, and a lower level needs parentheses below a higher
    one), it returns the value of the tree, operands evaluated left to right,
    and reads the whole text.  With the C99 conversions, "2 + 3 * 4" is 14,
    "(2+3)*4" is 20 and "10/4" is 2.5. *)
Theorem precedence_of_the_evaluator :
  (forall (libc : Libc) (ctx : InterpreterContext) (e : expr),
      well_formed e ->
      evaluate_expression ctx (show e) = returns (denote ctx e) EmptyString)
  /\ (forall ctx : InterpreterContext,
        evaluate_expression ctx "2 + 3 * 4" = PVal 14%float EmptyString
        /\ evaluate_expression ctx "(2+3)*4" = PVal 20%float EmptyString
        /\ evaluate_expression ctx "10/4" = PVal 2.5%float EmptyString
        /\ evaluate_expression ctx "10 - 4 - 3" = PVal 3%float EmptyString
        /\ evaluate_expression ctx "16 / 4 / 2" = PVal 2%float EmptyString
        /\ evaluate_expression ctx "2 * 3 + 4" = PVal 10%float EmptyString
        /\ evaluate_expression ctx "1 + 2 < 2 * 2" = PVal 1%float EmptyString
        /\ evaluate_expression ctx "3 < 2 == 0" = PVal 1%float EmptyString).
Proof.
  split.
  - intros libc ctx e Wf. apply evaluate_show, Wf.
  - intros ctx. repeat split; vm_compute; reflexivity.
Qed.

(** The first example of the claim as an instance of the general part: the
    text is that of the tree 2 + (3 * 4). *)
Lemma precedence_witness :
  evaluate_expression (init_context 0%float) "2 + 3 * 4" = PVal 14%float EmptyString.
Proof.
  refine (proj1 precedence_of_the_evaluator c99_libc (init_context 0%float)
            (Bin OpAdd (Num "2" 2%float) (Bin OpMul (Num "3" 3%float) (Num "4" 4%float)))
            _).
  assert (R : forall text v,
             text <> EmptyString -> all_digits text = true ->
             v = C99.float_of_decimal (digits_value text 0) 0 ->
             reads text v)
    by (intros text v N A ->; apply reads_numeral; assumption).
  cbn [well_formed expr_level level].
  repeat match goal with
         | |- _ /\ _ => split
         | |- _ <= _ => lia
         | |- _ < _ => lia
         | |- reads _ _ => apply R; [discriminate | reflexivity | vm_compute; reflexivity]
         end.
Defined.

(** ** The registries through a line, and the evaluator on every text *)

(** X3.  Whatever a line does, when it returns the store and the call stack
    are within their bounds if they were before, the names the store held
    are still there at the same positions, and the function registry is the
    same. *)
Theorem registries_stay_within_bounds_through_a_line :
  forall (L : Libc) (fuel : nat) (line : string) (m m' : Machine),
    execute_line fuel line m = Done tt m' ->
    variable_count (context m) <= MAX_VARIABLES ->
    call_stack_depth (context m) <= MAX_CALL_STACK_DEPTH ->
    variable_count (context m') <= MAX_VARIABLES
    /\ call_stack_depth (context m') <= MAX_CALL_STACK_DEPTH
    /\ (exists extra, names m' = names m ++ extra)
    /\ functions (context m') = functions (context m).
Proof.
  intros L fuel line m m' Run Store Stack.
  pose proof (respects_execute_line fuel line m) as R.
  rewrite Run in R. destruct R as [N S K F]. auto.
Qed.

Lemma registries_witness :
  exists m',
    execute_line 3 "CALL shadow 7" (machine_with 0%float [fn_shadow] []) = Done tt m'
    /\ variable_count (context m') <= MAX_VARIABLES
    /\ call_stack_depth (context m') <= MAX_CALL_STACK_DEPTH.
Proof.
  eexists. split; [vm_compute; reflexivity|].
  match goal with
  | |- variable_count (context ?m') <= _ /\ _ =>
      pose proof (registries_stay_within_bounds_through_a_line c99_libc 3
                    "CALL shadow 7" (machine_with 0%float [fn_shadow] []) m') as W
  end.
  destruct W as (Store & Stack & _);
    [vm_compute; reflexivity | cbv; lia | cbv; lia |].
  split; assumption.
Defined.

(** X4.  [evaluate_expression] returns a value or a fault on every text, and
    it is what the recursive descent returns with any amount of fuel that
    is enough for it to return. *)
Theorem evaluator_returns_on_every_text :
  forall (L : Libc) (ctx : InterpreterContext) (expr : string),
    evaluate_expression ctx expr <> PFuel
    /\ forall fuel r,
        parse_comparison ctx fuel expr = r -> r <> PFuel ->
        evaluate_expression ctx expr = r.
Proof.
  intros L ctx expr. split.
  - apply evaluate_expression_total.
  - intros fuel r. apply evaluate_expression_any_fuel.
Qed.

(** ** Where the jumps of the interpreter land *)

Lemma beyond_same (f : nat) (m m' : Machine) :
  frames m <= frames m' ->
  error_buf (context m') = error_buf (context m) ->
  function_return_buf (context m') = function_return_buf (context m) ->
  beyond f m -> beyond f m'.
Proof.
  intros Fr Er Rt [[F R] E]. unfold return_buf_ok in R.
  repeat split; try lia; unfold return_buf_ok; rewrite ?Er, ?Rt; assumption.
Qed.

Lemma lands_off_misses (f : nat) (p : jmp_point) :
  lands_off f p -> jmp_eqb p (mkJmp f TrySite) = false.
Proof.
  intros [Above | Site]; unfold jmp_eqb; cbn [jmp_frame jmp_site].
  - replace (jmp_frame p =? f) with false by (symmetry; apply Nat.eqb_neq; lia).
    reflexivity.
  - rewrite Site. apply andb_false_r.
Qed.

(** Two continuations that agree where the first piece returns. *)
Lemma bind_agree {A B : Type} (c : M A) (k k' : A -> M B) (m : Machine) :
  (forall a m', c m = Done a m' -> k a m' = k' a m') ->
  bind c k m = bind c k' m.
Proof.
  intros Agree. unfold bind. destruct (c m); auto.
Qed.

Section Keeps.

Context `{Libc}.
Variable f : nat.

Lemma keeps_ret {A : Type} (a : A) : keeps f (ret a).
Proof. intros m B; exact B. Qed.

Lemma keeps_bind {A B : Type} (c : M A) (k : A -> M B) :
  keeps f c -> (forall a, keeps f (k a)) -> keeps f (bind c k).
Proof.
  intros Kc Kk m Bm. unfold bind. specialize (Kc m Bm).
  destruct (c m) as [a m1| | | |]; auto.
  exact (Kk a m1 Kc).
Qed.

(** A step that never jumps and leaves the activation counter and the two
    jump buffers alone. *)
Lemma keeps_quiet {A : Type} (c : M A) :
  (forall m,
      match c m with
      | Done _ m' =>
          frames m' = frames m
          /\ error_buf (context m') = error_buf (context m)
          /\ function_return_buf (context m') = function_return_buf (context m)
      | Longjmp _ _ => False
      | Exit _ _ | Undefined | OutOfFuel => True
      end) ->
  keeps f c.
Proof.
  intros Q m Bm. specialize (Q m).
  destruct (c m); auto; [|contradiction].
  destruct Q as (Fr & Er & Rt). apply (beyond_same f m); auto. lia.
Qed.

Lemma keeps_get_context : keeps f get_context.
Proof. apply keeps_quiet; intros m; simpl; auto. Qed.

Lemma keeps_emit (e : event) : keeps f (emit e).
Proof. apply keeps_quiet; intros m; simpl; auto. Qed.

Lemma keeps_printf (text : string) : keeps f (printf text).
Proof. apply keeps_emit. Qed.

Lemma keeps_print_error (message : string) (line_number : Z) :
  keeps f (print_error message line_number).
Proof. apply keeps_quiet; intros m; simpl; auto. Qed.

Lemma keeps_print_error_here (message : string) : keeps f (print_error_here message).
Proof. apply keeps_quiet; intros m; simpl; auto. Qed.

Lemma keeps_debug_log (text : string) : keeps f (debug_log text).
Proof. apply keeps_quiet; intros m; simpl; auto. Qed.

Lemma keeps_fgets : keeps f fgets_stdin.
Proof.
  apply keeps_quiet; intros m; unfold fgets_stdin.
  destruct (stdin m); simpl; auto.
Qed.

Lemma keeps_new_frame : keeps f new_frame.
Proof.
  intros m Bm. cbn. apply (beyond_same f m); auto. cbn. lia.
Qed.

Lemma keeps_undefined {A : Type} : keeps f (@undefined A).
Proof. intros m _; exact I. Qed.

Lemma keeps_defined {A : Type} (result : option A) : keeps f (defined result).
Proof.
  destruct result; [apply keeps_ret | apply keeps_undefined].
Qed.

Lemma keeps_exit {A : Type} (status : Z) : keeps f (@exit A status).
Proof. intros m _; exact I. Qed.

Lemma keeps_out_of_fuel {A : Type} : keeps f (fun _ : Machine => @OutOfFuel A).
Proof. intros m _; exact I. Qed.

(** Updates of the context that leave the two jump buffers alone. *)
Lemma keeps_modify (g : InterpreterContext -> InterpreterContext) :
  (forall c, error_buf (g c) = error_buf c
             /\ function_return_buf (g c) = function_return_buf c) ->
  keeps f (modify_context g).
Proof.
  intros G. apply keeps_quiet; intros m; simpl.
  destruct (G (context m)); auto.
Qed.

(** [setjmp(ctx->error_buf)] in an activation entered after [f]. *)
Lemma keeps_set_error_buf (p : jmp_point) :
  f < jmp_frame p -> keeps f (modify_context (set_error_buf (Some p))).
Proof.
  intros Above m [[F R] _]. cbn. repeat split; auto.
Qed.

(** [setjmp(ctx->function_return_buf)] *)
Lemma keeps_set_return_buf (p : jmp_point) :
  jmp_site p = FunctionSite ->
  keeps f (modify_context (set_function_return_buf (Some p))).
Proof.
  intros Site m [[F R] E]. cbn. repeat split; auto.
Qed.

Lemma keeps_set_variable (name value : string) (type : VarType) :
  keeps f (set_variable name value type).
Proof.
  apply keeps_quiet; intros m. unfold set_variable, bind, get_context.
  destruct (store_variable (variables (context m)) name value type) as [vars full].
  destruct full; simpl; auto.
Qed.

(** A fault jumps to [error_buf]. *)
Lemma keeps_evaluate (expr : string) : keeps f (evaluate expr).
Proof.
  intros m Bm. unfold evaluate.
  destruct (evaluate_expression (context m) expr); [exact Bm | | exact I].
  unfold bind, print_error, longjmp; simpl.
  destruct Bm as [[F R] E].
  destruct (error_buf (context m)) as [p|] eqn:Buf; [|contradiction].
  split; [|left; exact E].
  repeat split; auto. cbn. rewrite Buf. exact E.
Qed.

(** RETURN jumps to [function_return_buf]. *)
Lemma keeps_return_jump {A : Type} :
  keeps f (bind get_context (fun ctx' => @longjmp A (function_return_buf ctx'))).
Proof.
  intros m Bm. unfold bind, get_context, longjmp.
  destruct Bm as [[F R] E]. unfold return_buf_ok in R.
  destruct (function_return_buf (context m)) as [p|] eqn:Buf; [|exact I].
  split; [|right; exact R].
  repeat split; auto. unfold return_buf_ok. rewrite Buf. exact R.
Qed.

Lemma keeps_collect_block (prompt : string) (sentinel : string -> bool) :
  keeps f (collect_block prompt sentinel).
Proof.
  apply keeps_quiet; intros m; unfold collect_block.
  destruct (read_block sentinel (stdin m)) as [[lines rest] prompts]; simpl; auto.
Qed.

Lemma keeps_collect_array (prompt : string) (sentinel : string -> bool) :
  keeps f (collect_array prompt sentinel).
Proof.
  unfold collect_array. apply keeps_bind; [apply keeps_collect_block|].
  intros lines. destruct (_ <? _); [apply keeps_undefined | apply keeps_ret].
Qed.

Lemma keeps_resume {A : Type} (fuel : nat) (here : jmp_point) (handler : M A) :
  keeps f handler -> keeps f (resume fuel here handler).
Proof.
  intros Kh. induction fuel as [|fuel IH]; intros m Bm; [exact I|].
  cbn [resume]. specialize (Kh m Bm).
  destruct (handler m) as [a m1|p m1| | |]; auto.
  destruct (jmp_eqb p here); auto.
  exact (IH m1 (proj1 Kh)).
Qed.

Lemma keeps_on_longjmp {A : Type} (fuel : nat) (here : jmp_point)
  (body handler : M A) :
  keeps f body -> keeps f handler -> keeps f (on_longjmp fuel here body handler).
Proof.
  intros Kb Kh m Bm. unfold on_longjmp. specialize (Kb m Bm).
  destruct (body m) as [a m1|p m1| | |]; auto.
  destruct (jmp_eqb p here); auto.
  exact (keeps_resume fuel here handler Kh m1 (proj1 Kb)).
Qed.

Lemma enters_keeps {A : Type} (c : M A) : enters f c -> keeps f c.
Proof. intros E m [En _]. exact (E m En). Qed.

End Keeps.

#[export] Hint Resolve keeps_ret keeps_get_context keeps_emit keeps_printf
  keeps_print_error keeps_print_error_here keeps_debug_log keeps_fgets
  keeps_new_frame keeps_undefined keeps_defined keeps_exit keeps_out_of_fuel
  keeps_set_variable keeps_evaluate keeps_return_jump keeps_collect_block
  keeps_collect_array : claro.

(** Decompose a goal [keeps f c] along the structure of [c]. *)
Ltac keeps_tac :=
  repeat first
    [ progress auto with claro
    | apply keeps_return_jump
    | apply keeps_bind; [|intros ?]
    | apply keeps_on_longjmp
    | apply keeps_set_error_buf; cbn [jmp_frame]; assumption
    | apply keeps_set_return_buf; reflexivity
    | apply keeps_modify; intros ?; split; reflexivity
    | match goal with
      | |- keeps _ (if ?b then _ else _) => destruct b
      | |- keeps _ (match ?x with _ => _ end) => destruct x
      | |- keeps _ (let (_, _) := ?x in _) => destruct x
      end ].

Section KeepsInterpreter.

Context `{Libc}.
Variable f : nat.
Variable exec : string -> M unit.
Hypothesis enters_exec : forall line, enters f (exec line).

Lemma keeps_exec (line : string) : keeps f (exec line).
Proof. apply enters_keeps, enters_exec. Qed.

#[local] Hint Resolve keeps_exec : claro.

Lemma keeps_execute_block (block_lines : list string) :
  keeps f (execute_block exec block_lines).
Proof. induction block_lines; cbn [execute_block]; keeps_tac. Qed.

Lemma keeps_bind_parameters (ps args : list string) :
  keeps f (bind_parameters ps args).
Proof.
  revert args; induction ps as [|p ps IH]; intros [|a args];
    cbn [bind_parameters]; keeps_tac.
Qed.

Lemma keeps_run_body (fn : FunctionDef) (body : list string) :
  keeps f (run_body exec fn body).
Proof. induction body; cbn [run_body]; keeps_tac. Qed.

Lemma keeps_execute_function (fuel : nat) (fn : FunctionDef) (args : list string) :
  keeps f (execute_function exec fuel fn args).
Proof.
  pose proof keeps_bind_parameters. pose proof keeps_run_body.
  unfold execute_function, enter_function, leave_function, push_call, pop_call.
  keeps_tac.
Qed.

Lemma keeps_print_tokens (ts : list string) : keeps f (print_tokens ts).
Proof. induction ts; cbn [print_tokens]; keeps_tac. Qed.

Lemma keeps_print_all (texts : list string) : keeps f (print_all texts).
Proof. induction texts; cbn [print_all]; keeps_tac. Qed.

Lemma keeps_repeat_loop (repeat_cmd : string) (i remaining : nat) :
  keeps f (repeat_loop exec repeat_cmd i remaining).
Proof.
  revert i; induction remaining; intros i; cbn [repeat_loop]; keeps_tac.
Qed.

Lemma keeps_while_loop (fuel : nat) (cond_expr : string) (block_lines : list string) :
  keeps f (while_loop exec fuel cond_expr block_lines).
Proof.
  pose proof keeps_execute_block.
  induction fuel; cbn [while_loop]; keeps_tac.
Qed.

Lemma keeps_for_loop (fuel : nat) (var : string) (end_val step_val : float)
  (block_lines : list string) :
  keeps f (for_loop exec fuel var end_val step_val block_lines).
Proof.
  pose proof keeps_execute_block.
  induction fuel; cbn [for_loop]; keeps_tac.
Qed.

Lemma keeps_dispatch (fuel frame : nat) (line : string) :
  f < frame -> keeps f (dispatch exec fuel frame line).
Proof.
  intros Above.
  pose proof keeps_execute_block. pose proof keeps_execute_function.
  pose proof keeps_print_tokens. pose proof keeps_print_all.
  pose proof keeps_repeat_loop. pose proof keeps_while_loop.
  pose proof keeps_for_loop.
  unfold dispatch.
  destruct (List.length (tokenize line) =? 0); [keeps_tac|].
  destruct (MAX_LINE_LENGTH <=? _); [keeps_tac|].
  apply keeps_bind; [keeps_tac|intros _].
  repeat match goal with
         | |- keeps _ (if ?b then _ else _) => destruct b
         end.
  all: try solve [keeps_tac].
  all: try solve [unfold cmd_SET; keeps_tac].
  all: try solve [unfold cmd_PRINT; keeps_tac].
  all: try solve [unfold cmd_GET; keeps_tac].
  all: try solve [unfold cmd_switch; keeps_tac].
  all: try solve [unfold cmd_INPUT; keeps_tac].
  all: try solve [unfold cmd_REPEAT; keeps_tac].
  all: try solve [unfold cmd_IF; keeps_tac].
  all: try solve [unfold cmd_WHILE; keeps_tac].
  all: try solve [unfold cmd_FOR, for_body; keeps_tac].
  all: try solve [unfold cmd_TRY, try_branch, catch_branch; keeps_tac].
  all: try solve [unfold cmd_CONCAT; keeps_tac].
  all: try solve [unfold cmd_CALL; keeps_tac].
  all: try solve [unfold cmd_RETURN; keeps_tac].
  all: try solve [unfold cmd_STACK; keeps_tac].
  all: try solve [unfold cmd_TRACE; keeps_tac].
  all: try solve [unfold cmd_SAY; keeps_tac].
  - unfold cmd_IMPORT. apply keeps_bind; [auto with claro | intros filename].
    intros m Bm.
    destruct (files m _);
      [apply keeps_execute_block | apply keeps_print_error_here]; exact Bm.
Qed.

End KeepsInterpreter.

Section KeepsLine.

Context `{Libc}.
Variable f : nat.

(** A line entered after [f] fills [error_buf] itself before anything can
    jump. *)
Lemma enters_execute_line (fuel : nat) :
  forall line, enters f (execute_line fuel line).
Proof.
  induction fuel as [|fuel IH]; intros line m En; [exact I|].
  cbn [execute_line].
  unfold bind at 1. unfold new_frame at 1.
  unfold bind at 1. unfold modify_context at 1.
  cbn [context with_frames].
  set (m1 := with_context _ _).
  assert (B1 : beyond f m1).
  { destruct En as [F R]. repeat split; cbn; auto. }
  refine (keeps_on_longjmp f (S fuel) (mkJmp (frames m) LineSite) _ _ _ _ m1 B1).
  - apply keeps_dispatch; [exact IH | destruct En; assumption].
  - apply keeps_print_error_here.
Qed.

(** The lines of a block entered after [f]: no jump lands in [f] except at
    the [setjmp] of [execute_function]. *)
Lemma block_lands_off (fuel : nat) (block_lines : list string) (m : Machine) :
  entered f m ->
  match execute_block (execute_line fuel) block_lines m with
  | Done _ m' => entered f m'
  | Longjmp p _ => lands_off f p
  | Exit _ _ | Undefined | OutOfFuel => True
  end.
Proof.
  intros En. destruct block_lines as [|l rest]; [exact En|].
  cbn [execute_block]. unfold bind at 1.
  pose proof (enters_execute_line fuel l m En) as First.
  destruct (execute_line fuel l m) as [[] m1|p m1| | |]; auto;
    [|exact (proj2 First)].
  pose proof (keeps_execute_block f (execute_line fuel) (enters_execute_line fuel)
                rest m1 First) as Rest.
  destruct (execute_block (execute_line fuel) rest m1); auto;
    [exact (be_entered _ _ Rest) | exact (proj2 Rest)].
Qed.

Lemma collect_array_context (prompt : string) (sentinel : string -> bool)
  (m m' : Machine) (lines : list string) :
  collect_array prompt sentinel m = Done lines m' ->
  context m' = context m /\ frames m' = frames m.
Proof.
  unfold collect_array, bind, collect_block.
  destruct (read_block sentinel (stdin m)) as [[ls rest] prompts].
  destruct (MAX_BLOCK_LINES <? List.length ls); [discriminate|].
  intros E. injection E as _ <-. split; reflexivity.
Qed.

Lemma try_branch_lands_off (fuel : nat) (try_lines : list string) (m : Machine) :
  entered f m ->
  match try_branch (execute_line fuel) try_lines m with
  | Longjmp p _ => lands_off f p
  | _ => True
  end.
Proof.
  intros En. unfold try_branch. unfold bind at 1.
  pose proof (block_lands_off fuel try_lines m En) as Block.
  destruct (execute_block (execute_line fuel) try_lines m) as [[] m1|p m1| | |];
    auto.
  unfold bind, printf, emit, collect_block; cbn.
  destruct (read_block _ _) as [[ls rest] prompts]. exact I.
Qed.

(** The [else] part of the [setjmp] test of TRY is never run. *)
Lemma cmd_TRY_never_catches (fuel : nat) (m : Machine) :
  f < frames m -> return_buf_ok m ->
  cmd_TRY (execute_line fuel) fuel f m = try_without_catch (execute_line fuel) f m.
Proof.
  intros Fr Rt. unfold cmd_TRY, try_without_catch.
  apply bind_agree; intros [] m0 E0.
  apply bind_agree; intros try_lines m1 E1. cbv zeta.
  apply bind_agree; intros [] m2 E2.
  assert (En : entered f m2).
  { injection E0 as <-. injection E2 as <-.
    destruct (collect_array_context _ _ _ _ _ E1) as [Ctx Frm].
    split; [cbn; rewrite Frm; exact Fr|].
    unfold return_buf_ok; cbn. rewrite Ctx. exact Rt. }
  unfold on_longjmp.
  pose proof (try_branch_lands_off fuel try_lines m2 En) as Lands.
  destruct (try_branch (execute_line fuel) try_lines m2) as [[] m3|p m3| | |];
    try reflexivity.
  rewrite (lands_off_misses f p Lands). reflexivity.
Qed.

End KeepsLine.

(** ** A fault in the condition of WHILE *)

Section WhileFault.

Context `{Libc}.

(** After a block of at least one line, [error_buf] holds the [setjmp] of
    an activation entered during the block. *)
Lemma block_leaves_error_buf (fuel : nat) (block_lines : list string) (m m1 : Machine) :
  0 < frames m -> return_buf_ok m -> block_lines <> [] ->
  execute_block (execute_line fuel) block_lines m = Done tt m1 ->
  exists p, error_buf (context m1) = Some p /\ frames m <= jmp_frame p.
Proof.
  intros Fr Rt NE Run.
  destruct block_lines as [|l rest]; [contradiction NE; reflexivity|].
  assert (En : entered (frames m - 1) m) by (split; [lia | exact Rt]).
  cbn [execute_block] in Run. unfold bind at 1 in Run.
  pose proof (enters_execute_line (frames m - 1) fuel l m En) as First.
  destruct (execute_line fuel l m) as [[] m0|p m0| | |]; try discriminate Run.
  pose proof (keeps_execute_block (frames m - 1) (execute_line fuel)
                (enters_execute_line (frames m - 1) fuel) rest m0 First) as Rest.
  rewrite Run in Rest. destruct Rest as [_ E].
  destruct (error_buf (context m1)) as [p|]; [|contradiction].
  exists p. split; [reflexivity | lia].
Qed.

(** The condition of WHILE that faults when it is evaluated again after a
    round: the jump goes to the [setjmp] of an activation entered during the
    body, and no [setjmp] of an activation entered before receives it. *)
Lemma while_fault_after_a_round (fuel n : nat) (cond_expr : string)
  (block_lines : list string) (m m1 : Machine) (v : float) (rest msg : string) :
  0 < frames m -> return_buf_ok m -> block_lines <> [] ->
  evaluate_expression (context m) cond_expr = PVal v rest -> truthy v = true ->
  execute_block (execute_line fuel) block_lines m = Done tt m1 ->
  evaluate_expression (context m1) cond_expr = PFault msg ->
  exists p,
    while_loop (execute_line fuel) (S (S n)) cond_expr block_lines m
    = Longjmp p (add_output (error_events (context m1) msg (-1)) m1)
    /\ frames m <= jmp_frame p
    /\ forall g site, g < frames m -> jmp_eqb p (mkJmp g site) = false.
Proof.
  intros Fr Rt NE V Tr Run Fault.
  destruct (block_leaves_error_buf fuel block_lines m m1 Fr Rt NE Run)
    as (p & Buf & Above).
  exists p. split; [|split; [exact Above|]].
  - cbn [while_loop].
    rewrite (bind_done _ _ m m v (evaluate_value cond_expr m v rest V)).
    rewrite Tr.
    rewrite (bind_done _ _ m m1 tt Run).
    apply bind_longjmp, evaluate_fault; assumption.
  - intros g site Lt. unfold jmp_eqb; cbn [jmp_frame].
    replace (jmp_frame p =? g) with false by (symmetry; apply Nat.eqb_neq; lia).
    reflexivity.
Qed.

End WhileFault.

(** C7 (what the code does).  A fault in the condition of WHILE, met when
    the condition is evaluated again after a round of a body of at least one
    line, jumps to [error_buf] as the last line of the body filled it: to
    the [setjmp] of an activation that was entered during the body and has
    returned.  No [setjmp] of an activation entered before the loop receives
    the jump, the one of the line of WHILE included.  So for the division by
    zero in [WHILE 1/x BEGIN] with the body [SET x = 0]: the behaviour of
    the program is undefined.  The same fault in a condition that is
    evaluated before any body line is absorbed by the line of WHILE, and the
    input that follows is left for the next line. *)
Theorem fault_in_a_repeated_WHILE_condition_is_not_absorbed :
  let input := ["SET x = 0"; "ENDWHILE"; "PRINT next"] in
  (forall (L : Libc) (fuel n : nat) (cond_expr : string) (block_lines : list string)
          (m m1 : Machine) (v : float) (rest msg : string),
      entered 0 m -> block_lines <> [] ->
      evaluate_expression (context m) cond_expr = PVal v rest -> truthy v = true ->
      execute_block (execute_line fuel) block_lines m = Done tt m1 ->
      evaluate_expression (context m1) cond_expr = PFault msg ->
      exists p,
        while_loop (execute_line fuel) (S (S n)) cond_expr block_lines m
        = Longjmp p (add_output (error_events (context m1) msg (-1)) m1)
        /\ frames m <= jmp_frame p
        /\ forall g site, g < frames m -> jmp_eqb p (mkJmp g site) = false)
  /\
  (exists m',
      execute_block (execute_line 5) ["SET x = 1"; "WHILE 1/x BEGIN"]
        (machine_with 0%float [] input)
      = Longjmp (mkJmp 3 LineSite) m'
      /\ frames m' = 4
      /\ get_variable (context m') "x" = Some "0"
      /\ output m' =
         [Stdout ("Variable 'x' set to '1'" +++ NL);
          Stdout ("Enter WHILE loop block lines (type ENDWHILE on a line by itself):"
                  +++ NL);
          Stdout "... "; Stdout "... ";
          Stdout ("Variable 'x' set to '0'" +++ NL)]
         ++ error_events (init_context 0%float) MSG_DIV0 (-1))
  /\ main 10 None 0%float ("SET x = 1" :: "WHILE 1/x BEGIN" :: input) no_files
     = Undefined
  /\ (let run := execute_line 5 "WHILE 1/0 BEGIN" (machine_with 0%float [] input) in
      printed run =
        [Stdout ("Enter WHILE loop block lines (type ENDWHILE on a line by itself):"
                 +++ NL);
         Stdout "... "; Stdout "... "]
        ++ error_events (init_context 0%float) MSG_DIV0 (-1)
        ++ error_events (init_context 0%float) MSG_SKIP 1
      /\ option_map stdin (final_machine run) = Some ["PRINT next"]).
Proof.
  intros input. split; [|split; [|split]].
  - intros L fuel n cond_expr block_lines m m1 v rest msg [Fr Rt].
    apply while_fault_after_a_round; assumption.
  - eexists. split; [vm_compute; reflexivity|]. repeat split.
  - vm_compute. reflexivity.
  - vm_compute. split; reflexivity.
Qed.

Lemma while_witness :
  let m := enter_line (with_context
                         (set_variables [mkVariable "x" TYPE_FLOAT "1"]
                            (context (machine_with 0%float [] [])))
                         (machine_with 0%float [] [])) in
  exists p m',
    while_loop (execute_line 3) 2 "1/x " ["SET x = 0"] m = Longjmp p m'
    /\ frames m <= jmp_frame p.
Proof.
  intros m.
  destruct (proj1 fault_in_a_repeated_WHILE_condition_is_not_absorbed
              c99_libc 3 0 "1/x " ["SET x = 0"] m
              (with_output
                 [Stdout ("Variable 'x' set to '0'" +++ NL)]
                 (with_context
                    (set_variables [mkVariable "x" TYPE_FLOAT "0"]
                       (set_error_buf (Some (mkJmp 2 LineSite)) (context m)))
                    (with_frames 3 m)))
              1%float EmptyString MSG_DIV0)
    as (p & Run & Above & _).
  - split; [cbn; lia | exact I].
  - discriminate.
  - vm_compute. reflexivity.
  - vm_compute. reflexivity.
  - vm_compute. reflexivity.
  - vm_compute. reflexivity.
  - exists p. eexists. split; [exact Run | exact Above].
Defined.

(** ** TRY *)

(** C3 (what the code does).  The [else] part of the [setjmp] test of TRY,
    which collects and runs the CATCH lines, is never run: a line of TRY
    behaves as the TRY branch without that part, from every machine whose
    [function_return_buf] is empty or was filled by [execute_function], which
    is every machine the interpreter reaches from its start by lines that
    return.  A fault inside a TRY line is
    absorbed by that line's own [setjmp], since [execute_line] overwrites
    [error_buf] on entry; the TRY block counts as successful and the CATCH
    lines are read but not executed. *)
Theorem fault_inside_TRY_does_not_reach_CATCH :
  (forall (L : Libc) (fuel : nat) (line c : string) (rest : list string) (m : Machine),
      tokenize line = c :: rest -> upcase c = "TRY" ->
      return_buf_ok m ->
      execute_line (S fuel) line m =
      on_longjmp (S fuel) (mkJmp (frames m) LineSite)
        (fun m0 => try_without_catch (execute_line fuel) (frames m) (logged "TRY" m0))
        (print_error_here MSG_SKIP) (enter_line m))
  /\ (forall (indeterminate : float) (input : list string) fs,
        entered 0 (start_machine indeterminate input fs))
  /\ (forall (L : Libc) (fuel : nat) (line : string) (m m' : Machine),
        entered 0 m ->
        execute_line fuel line m = Done tt m' ->
        entered 0 m' /\ return_buf_ok m')
  /\ (let input := ["SET x = 5/0"; "CATCH"; "SET y = 1"; "ENDTRY"; "PRINT next"] in
      let run := execute_line 4 "TRY" (machine_with 0%float [] input) in
      printed run =
        [Stdout ("Enter TRY block lines (type CATCH on a line by itself):" +++ NL);
         Stdout "TRY> "; Stdout "TRY> "]
        ++ error_events (init_context 0%float) MSG_DIV0 (-1)
        ++ error_events (init_context 0%float) MSG_SKIP 1
        ++ [Stdout ("TRY block executed successfully; skipping CATCH." +++ NL);
            Stdout "CATCH> "; Stdout "CATCH> "]
      /\ option_map (fun m => get_variable (context m) "y") (final_machine run)
         = Some None
      /\ option_map stdin (final_machine run) = Some ["PRINT next"]).
Proof.
  split; [|split; [|split]].
  - intros L fuel line c rest m T C Rt.
    rewrite execute_line_unfold. unfold on_longjmp.
    rewrite (dispatch_TRY _ _ _ line c rest _ T C).
    rewrite (cmd_TRY_never_catches (frames m) fuel (logged "TRY" (enter_line m)));
      [reflexivity | cbn; lia | exact Rt].
  - intros indeterminate input fs. split; [cbn; lia | exact I].
  - intros L fuel line m m' En Run.
    pose proof (enters_execute_line 0 fuel line m En) as E.
    rewrite Run in E. destruct E as [E _]. split; [exact E | apply E].
  - vm_compute. repeat split; reflexivity.
Qed.

Lemma try_witness :
  let m := machine_with 0%float [] ["SET x = 5/0"; "CATCH"; "SET y = 1"; "ENDTRY"] in
  execute_line 4 "TRY" m =
  on_longjmp 4 (mkJmp 1 LineSite)
    (fun m0 => try_without_catch (execute_line 3) 1 (logged "TRY" m0))
    (print_error_here MSG_SKIP) (enter_line m).
Proof.
  intros m.
  apply (proj1 fault_inside_TRY_does_not_reach_CATCH c99_libc 3 "TRY" "TRY" [] m);
    [reflexivity | reflexivity | exact I].
Defined.

(** ** The tokenizer *)

Lemma skip_spaces_all (s rest : string) :
  all_spaces s = true -> skip_spaces (s +++ rest) = skip_spaces rest.
Proof.
  induction s as [|c s IH]; intros A; [reflexivity|].
  cbn [all_spaces] in A. apply andb_prop in A as [Sp A].
  cbn [String.append skip_spaces]. rewrite Sp. apply IH, A.
Qed.

Lemma skip_spaces_word (c : ascii) (s : string) :
  Ctype.isspace c = false -> skip_spaces (String c s) = String c s.
Proof. intros N; cbn [skip_spaces]; rewrite N; reflexivity. Qed.

Lemma copy_until_word (w rest : string) (room : nat) :
  no_space w = true -> String.length w <= room -> ends_token rest ->
  copy_until Ctype.isspace room (w +++ rest) = (w, rest).
Proof.
  revert room; induction w as [|c w IH]; intros room N L E.
  - cbn [String.append]. destruct room, rest as [|d r]; try reflexivity.
    cbn [copy_until]. cbn in E. rewrite E. reflexivity.
  - cbn [no_space] in N. apply andb_prop in N as [Nc N].
    apply negb_true_iff in Nc. cbn [String.length] in L.
    destruct room as [|room]; [lia|].
    cbn [String.append copy_until]. rewrite Nc, (IH room N); [reflexivity | lia | exact E].
Qed.

Lemma copy_until_quote (text rest : string) (room : nat) :
  no_quote text = true -> String.length text <= room ->
  copy_until is_quote room (text +++ String (ascii_of_nat 34) rest)
  = (text, String (ascii_of_nat 34) rest).
Proof.
  revert room; induction text as [|c t IH]; intros room N L.
  - cbn [String.append]. destruct room; reflexivity.
  - cbn [no_quote] in N. apply andb_prop in N as [Nc N].
    apply negb_true_iff in Nc. cbn [String.length] in L.
    destruct room as [|room]; [lia|].
    cbn [String.append copy_until]. rewrite Nc, (IH room N); [reflexivity | lia].
Qed.

Lemma copy_until_end (stop : ascii -> bool) (text : string) (room : nat) :
  (forall c, In c (list_ascii_of_string text) -> stop c = false) ->
  String.length text <= room ->
  copy_until stop room text = (text, EmptyString).
Proof.
  revert room; induction text as [|c t IH]; intros room N L.
  - destruct room; reflexivity.
  - cbn [String.length] in L. destruct room as [|room]; [lia|].
    cbn [copy_until]. rewrite (N c) by (left; reflexivity).
    rewrite (IH room); [reflexivity | | lia].
    intros d I. apply N. right. exact I.
Qed.

(** The outer loop of [tokenize] looks at its input through [skip_spaces]. *)
Lemma tokenize_loop_skip (fuel : nat) (p q : string) :
  skip_spaces p = skip_spaces q -> tokenize_loop fuel p = tokenize_loop fuel q.
Proof.
  intros E. destruct fuel; [reflexivity|]. cbn [tokenize_loop]. rewrite E. reflexivity.
Qed.

Lemma is_word_inv (w : string) :
  is_word w = true ->
  exists c t, w = String c t /\ is_quote c = false /\ Ctype.isspace c = false
              /\ no_space w = true /\ String.length w <= MAX_LINE_LENGTH - 1.
Proof.
  destruct w as [|c t]; [discriminate|]. unfold is_word.
  intros W. apply andb_prop in W as [W L]. apply andb_prop in W as [Q N].
  exists c, t. repeat split; auto.
  - apply negb_true_iff, Q.
  - cbn [no_space] in N. apply andb_prop in N as [Nc _]. apply negb_true_iff, Nc.
  - apply Nat.leb_le, L.
Qed.

Lemma tokenize_loop_words (words : list string) (fuel : nat) :
  forallb is_word words = true -> List.length words <= fuel ->
  tokenize_loop fuel (String.concat " " words) = words.
Proof.
  revert fuel; induction words as [|w ws IH]; intros fuel W L.
  - destruct fuel; reflexivity.
  - cbn [forallb] in W. apply andb_prop in W as [Ww Ws].
    destruct (is_word_inv w Ww) as (c & t & -> & Q & Sp & N & Len).
    cbn [List.length] in L. destruct fuel as [|fuel]; [lia|].
    assert (Step : forall rest, ends_token rest ->
                tokenize_loop (S fuel) (String c t +++ rest)
                = String c t :: tokenize_loop fuel rest).
    { intros rest E. cbn [tokenize_loop String.append].
      rewrite (skip_spaces_word c (t +++ rest) Sp), Q.
      change (String c (t +++ rest)) with (String c t +++ rest).
      rewrite (copy_until_word (String c t) rest _ N Len E). reflexivity. }
    destruct ws as [|w' ws'].
    + cbn [String.concat]. rewrite <- (str_app_nil (String c t)) at 1.
      rewrite (Step EmptyString I). destruct fuel; reflexivity.
    + change (String.concat " " (String c t :: w' :: ws'))
        with (String c t +++ " " +++ String.concat " " (w' :: ws')).
      rewrite (Step (" " +++ String.concat " " (w' :: ws')) eq_refl).
      f_equal.
      rewrite (tokenize_loop_skip fuel (" " +++ String.concat " " (w' :: ws'))
                 (String.concat " " (w' :: ws')) eq_refl).
      apply IH; [exact Ws | lia].
Qed.

Lemma str_app_length (a b : string) :
  String.length (a +++ b) = String.length a + String.length b.
Proof. induction a as [|c a IH]; cbn; [reflexivity | rewrite IH; reflexivity]. Qed.

Lemma concat_words_length (words : list string) :
  forallb is_word words = true ->
  List.length words <= String.length (String.concat " " words).
Proof.
  induction words as [|w ws IH]; intros W; [cbn; lia|].
  cbn [forallb] in W. apply andb_prop in W as [Ww Ws].
  destruct (is_word_inv w Ww) as (c & t & -> & _).
  destruct ws as [|w' ws']; [cbn; lia|].
  change (String.concat " " (String c t :: w' :: ws'))
    with (String c t +++ " " +++ String.concat " " (w' :: ws')).
  specialize (IH Ws). cbn [List.length] in *.
  rewrite !str_app_length. cbn [String.length]. lia.
Qed.

Lemma tokenize_joined_words (words : list string) :
  forallb is_word words = true ->
  tokenize (joined_text words 0 (List.length words)) = words.
Proof.
  intros W. unfold joined_text, tokenize.
  rewrite Nat.sub_0_r. cbn [skipn]. rewrite firstn_all.
  apply tokenize_loop_words; [exact W | apply concat_words_length, W].
Qed.

Lemma joined_text_all (words : list string) :
  joined_text words 0 (List.length words) = String.concat " " words.
Proof.
  unfold joined_text. rewrite Nat.sub_0_r. cbn [skipn]. rewrite firstn_all.
  reflexivity.
Qed.

(** X5.  Words joined by single blanks are tokenized into the same words:
    when the words and the blanks between them fit the block of
    [join_tokens], that is, when they have fewer than MAX_LINE_LENGTH
    characters together, [tokenize] reads back what [join_tokens] builds;
    this is how IF and REPEAT hand a command to [execute_line].  When they
    do not fit, [join_tokens] writes past its block and has no result. *)
Theorem tokenize_reads_back_joined_words :
  forall words : list string,
    forallb is_word words = true ->
    (String.length (String.concat " " words) < MAX_LINE_LENGTH ->
     exists text,
       join_tokens words 0 (List.length words) = Some text
       /\ text = String.concat " " words
       /\ tokenize text = words)
    /\ (MAX_LINE_LENGTH <= String.length (String.concat " " words) ->
        join_tokens words 0 (List.length words) = None).
Proof.
  intros words W. rewrite <- joined_text_all. split.
  - intros Fits. exists (joined_text words 0 (List.length words)).
    split; [|split; [reflexivity | exact (tokenize_joined_words words W)]].
    apply join_tokens_some. split; [reflexivity | exact Fits].
  - intros Over. apply join_tokens_none. exact Over.
Qed.

Lemma tokenize_words_witness :
  join_tokens ["PRINT"; "$x"; "S:done"] 0 3 = Some "PRINT $x S:done"
  /\ tokenize "PRINT $x S:done" = ["PRINT"; "$x"; "S:done"]
  /\ join_tokens (repeat "S:" 120) 0 120 = None.
Proof.
  destruct (tokenize_reads_back_joined_words ["PRINT"; "$x"; "S:done"] eq_refl)
    as [Fits _].
  destruct Fits as (text & J & E & T).
  - unfold MAX_LINE_LENGTH. cbn. lia.
  - subst text. split; [exact J | split; [exact T|]].
    apply (proj2 (tokenize_reads_back_joined_words (repeat "S:" 120) eq_refl)).
    apply Nat.leb_le. vm_compute. reflexivity.
Defined.

Lemma skip_spaces_head (p : string) (c : ascii) (p' : string) :
  skip_spaces p = String c p' -> Ctype.isspace c = false.
Proof.
  induction p as [|d p IH]; [discriminate|].
  cbn [skip_spaces]. destruct (Ctype.isspace d) eqn:Sp; [exact IH|].
  intros E. injection E as <- _. exact Sp.
Qed.

Lemma copy_until_first (stop : ascii -> bool) (room : nat) (c : ascii) (p : string) :
  stop c = false -> 0 < room ->
  String.length (snd (copy_until stop room (String c p))) <= String.length p.
Proof.
  intros N R. destruct room as [|room]; [lia|]. cbn [copy_until]. rewrite N.
  pose proof (copy_until_length stop room p) as L.
  destruct (copy_until stop room p); exact L.
Qed.

Lemma room_positive : 0 < MAX_LINE_LENGTH - 1.
Proof. unfold MAX_LINE_LENGTH. lia. Qed.

(** The rounds of the outer loop never outnumber the characters. *)
Lemma tokenize_loop_enough (n : nat) :
  forall fuel p, String.length p <= n -> n <= fuel ->
                 tokenize_loop fuel p = tokenize_loop n p.
Proof.
  induction n as [|n IH]; intros fuel p Lp Lf.
  - destruct p; [|cbn in Lp; lia]. destruct fuel; reflexivity.
  - destruct fuel as [|fuel]; [lia|]. cbn [tokenize_loop].
    pose proof (skip_spaces_length p) as Ls.
    destruct (skip_spaces p) as [|c p'] eqn:Sk; [reflexivity|].
    cbn [String.length] in Ls.
    destruct (is_quote c).
    + pose proof (copy_until_length is_quote (MAX_LINE_LENGTH - 1) p') as Lc.
      destruct (copy_until is_quote (MAX_LINE_LENGTH - 1) p') as [token rest].
      cbn [snd] in Lc. f_equal. apply IH; [|lia].
      destruct rest as [|q r]; [cbn; lia|].
      cbn [String.length] in Lc. destruct (is_quote q); cbn [String.length]; lia.
    + pose proof (copy_until_first Ctype.isspace (MAX_LINE_LENGTH - 1) c p'
                    (skip_spaces_head p c p' Sk) room_positive) as Lc.
      destruct (copy_until Ctype.isspace (MAX_LINE_LENGTH - 1) (String c p'))
        as [token rest].
      cbn [snd] in Lc. f_equal. apply IH; lia.
Qed.

(** [tokenize] as the equation of its loop: blanks are skipped; a token
    that starts with a quote runs to the next quote (or the end of the line,
    or 255 characters); any other token runs to the next blank. *)
Lemma tokenize_equation :
  forall line : string,
    tokenize line =
    match skip_spaces line with
    | EmptyString => []
    | String c p' =>
        if is_quote c then
          let (token, rest) := copy_until is_quote (MAX_LINE_LENGTH - 1) p' in
          ("S:" +++ token)
            :: tokenize (match rest with
                         | String q r => if is_quote q then r else rest
                         | EmptyString => rest
                         end)
        else
          let (token, rest) :=
            copy_until Ctype.isspace (MAX_LINE_LENGTH - 1) (String c p') in
          token :: tokenize rest
    end.
Proof.
  intros line. unfold tokenize.
  destruct line as [|a l]; [reflexivity|].
  cbn [String.length tokenize_loop].
  pose proof (skip_spaces_length (String a l)) as Ls.
  destruct (skip_spaces (String a l)) as [|c p'] eqn:Sk; [reflexivity|].
  cbn [String.length] in Ls.
  destruct (is_quote c).
  - pose proof (copy_until_length is_quote (MAX_LINE_LENGTH - 1) p') as Lc.
    destruct (copy_until is_quote (MAX_LINE_LENGTH - 1) p') as [token rest].
    cbn [snd] in Lc. f_equal.
    assert (Lr : String.length (match rest with
                                | String q r => if is_quote q then r else rest
                                | EmptyString => rest
                                end) <= String.length l).
    { destruct rest as [|q r]; [cbn; lia|].
      cbn [String.length] in Lc. destruct (is_quote q); cbn [String.length]; lia. }
    apply tokenize_loop_enough; [apply le_n | exact Lr].
  - pose proof (copy_until_first Ctype.isspace (MAX_LINE_LENGTH - 1) c p'
                  (skip_spaces_head _ c p' Sk) room_positive) as Lc'.
    destruct (copy_until Ctype.isspace (MAX_LINE_LENGTH - 1) (String c p'))
      as [token rest].
    cbn [snd] in Lc'. f_equal.
    apply tokenize_loop_enough; [apply le_n | lia].
Qed.

Lemma no_quote_chars (text : string) :
  no_quote text = true ->
  forall c, In c (list_ascii_of_string text) -> is_quote c = false.
Proof.
  induction text as [|a t IH]; intros N c I; [contradiction I|].
  cbn [no_quote] in N. apply andb_prop in N as [Na N].
  destruct I as [<- | I]; [apply negb_true_iff, Na | apply IH; assumption].
Qed.

Lemma tokenize_open_quote (text : string) :
  no_quote text = true ->
  String.length text <= MAX_LINE_LENGTH - 1 ->
  tokenize (QUOTE +++ text) = ["S:" +++ text].
Proof.
  intros N L. rewrite tokenize_equation.
  change (skip_spaces (QUOTE +++ text)) with (String (ascii_of_nat 34) text).
  change (is_quote (ascii_of_nat 34)) with true. cbv iota.
  rewrite (copy_until_end is_quote text _ (no_quote_chars text N) L).
  reflexivity.
Qed.

(** X6.  Text between quotes becomes one token: the quotes are dropped, the
    blanks inside are kept, and the token gets the prefix S: ; the token
    ends at the closing quote even when no blank follows it, and a missing
    closing quote is accepted without a report. *)
Theorem tokenize_quoted_text :
  forall text rest : string,
    no_quote text = true ->
    String.length text <= MAX_LINE_LENGTH - 1 ->
    tokenize (QUOTE +++ text +++ QUOTE +++ rest) = ("S:" +++ text) :: tokenize rest
    /\ tokenize (QUOTE +++ text) = ["S:" +++ text].
Proof.
  intros text rest N L. split.
  - rewrite tokenize_equation.
    change (skip_spaces (QUOTE +++ text +++ QUOTE +++ rest))
      with (String (ascii_of_nat 34) (text +++ String (ascii_of_nat 34) rest)).
    change (is_quote (ascii_of_nat 34)) with true. cbv iota.
    rewrite (copy_until_quote text rest _ N L).
    change (is_quote (ascii_of_nat 34)) with true. reflexivity.
  - exact (tokenize_open_quote text N L).
Qed.

Lemma tokenize_quoted_witness :
  tokenize (QUOTE +++ "hello  world" +++ QUOTE +++ "x") = ["S:hello  world"; "x"]
  /\ tokenize (QUOTE +++ "no end") = ["S:no end"].
Proof.
  destruct (tokenize_quoted_text "hello  world" "x" eq_refl) as [A _];
    [unfold MAX_LINE_LENGTH; cbn; lia|].
  destruct (tokenize_quoted_text "no end" EmptyString eq_refl) as [_ B];
    [unfold MAX_LINE_LENGTH; cbn; lia|].
  split; [rewrite A; reflexivity | exact B].
Defined.

Lemma all_spaces_skip (s : string) : all_spaces s = true -> skip_spaces s = EmptyString.
Proof.
  intros A. rewrite <- (str_app_nil s). rewrite (skip_spaces_all s EmptyString A).
  reflexivity.
Qed.

(** X7.  An empty line, or a line of blanks, is a line without tokens:
    [execute_line] returns at once, prints nothing (not even the debug
    trace) and leaves the context as it is, apart from [error_buf]. *)
Theorem blank_line_does_nothing :
  forall (L : Libc) (fuel : nat) (line : string) (m : Machine),
    all_spaces line = true ->
    tokenize line = []
    /\ execute_line (S fuel) line m = Done tt (enter_line m).
Proof.
  intros L fuel line m A.
  assert (T : tokenize line = []).
  { rewrite tokenize_equation, (all_spaces_skip line A). reflexivity. }
  split; [exact T|].
  apply execute_line_done. unfold dispatch. rewrite T. reflexivity.
Qed.

Lemma blank_line_witness :
  execute_line 1 "   " (machine_with 0%float [] [])
  = Done tt (enter_line (machine_with 0%float [] [])).
Proof.
  apply (blank_line_does_nothing c99_libc 0 "   " (machine_with 0%float [] [])).
  reflexivity.
Defined.


(** ** [trim_whitespace] *)

Lemma string_rev_onto_app (s acc : string) :
  string_rev_onto s acc = string_rev s +++ acc.
Proof.
  unfold string_rev. revert acc.
  induction s as [|c s IH]; intros acc; [reflexivity|].
  cbn [string_rev_onto]. rewrite (IH (String c acc)), (IH (String c EmptyString)).
  rewrite str_app_assoc. reflexivity.
Qed.

Lemma string_rev_cons (c : ascii) (s : string) :
  string_rev (String c s) = string_rev s +++ String c EmptyString.
Proof. unfold string_rev at 1. cbn [string_rev_onto]. apply string_rev_onto_app. Qed.

Lemma string_rev_app (a b : string) :
  string_rev (a +++ b) = string_rev b +++ string_rev a.
Proof.
  induction a as [|c a IH]; cbn [String.append].
  - symmetry. apply str_app_nil.
  - rewrite !string_rev_cons, IH, str_app_assoc. reflexivity.
Qed.

Lemma string_rev_involutive (s : string) : string_rev (string_rev s) = s.
Proof.
  induction s as [|c s IH]; [reflexivity|].
  rewrite string_rev_cons, string_rev_app, IH. reflexivity.
Qed.

Lemma all_spaces_app (a b : string) :
  all_spaces (a +++ b) = all_spaces a && all_spaces b.
Proof.
  induction a as [|c a IH]; [reflexivity|].
  cbn [String.append all_spaces]. rewrite IH, andb_assoc. reflexivity.
Qed.

Lemma all_spaces_rev (s : string) : all_spaces (string_rev s) = all_spaces s.
Proof.
  induction s as [|c s IH]; [reflexivity|].
  rewrite string_rev_cons, all_spaces_app, IH. cbn [all_spaces].
  rewrite andb_true_r, andb_comm. reflexivity.
Qed.

(** Text that does not start with a blank keeps [skip_spaces] away from
    what follows. *)
Lemma skip_spaces_fixed (s rest : string) :
  s <> EmptyString -> skip_spaces s = s -> skip_spaces (s +++ rest) = s +++ rest.
Proof.
  intros N E. destruct s as [|c t]; [contradiction N; reflexivity|].
  pose proof (skip_spaces_head _ c t E) as Sp.
  cbn [String.append skip_spaces]. rewrite Sp. reflexivity.
Qed.

Lemma is_trimmed_inv (s : string) :
  is_trimmed s = true ->
  skip_spaces s = s /\ skip_spaces (string_rev s) = string_rev s.
Proof.
  unfold is_trimmed. intros T. apply andb_prop in T as [A B].
  split; apply String.eqb_eq; assumption.
Qed.

Lemma string_rev_empty (s : string) : string_rev s = EmptyString -> s = EmptyString.
Proof.
  intros E. rewrite <- (string_rev_involutive s), E. reflexivity.
Qed.

(** X8.  [trim_whitespace] on blanks, text, blanks: the pointer it returns
    reads the text alone, and the buffer it was given keeps the leading
    blanks and loses the trailing ones.  On nothing but blanks it returns
    the empty string and writes nothing. *)
Theorem trim_whitespace_cuts_both_ends :
  forall lead core trail : string,
    all_spaces lead = true -> all_spaces trail = true -> is_trimmed core = true ->
    trim_whitespace (lead +++ core +++ trail) = core
    /\ (core <> EmptyString -> trim_in_place (lead +++ core +++ trail) = lead +++ core)
    /\ (core = EmptyString ->
        trim_in_place (lead +++ core +++ trail) = lead +++ core +++ trail).
Proof.
  intros lead core trail Al At T.
  destruct (is_trimmed_inv core T) as [Front Back].
  assert (Empty : core = EmptyString ->
                  trim_in_place (lead +++ core +++ trail) = lead +++ core +++ trail).
  { intros ->. unfold trim_in_place.
    rewrite (skip_spaces_all lead _ Al). cbn [String.append].
    rewrite (all_spaces_skip trail At). reflexivity. }
  assert (Full : core <> EmptyString ->
                 trim_in_place (lead +++ core +++ trail) = lead +++ core).
  { intros N.
    assert (Sk : exists c r, skip_spaces (lead +++ core +++ trail) = String c r).
    { rewrite (skip_spaces_all lead _ Al), (skip_spaces_fixed core trail N Front).
      destruct core as [|c t]; [contradiction N; reflexivity|].
      exists c, (t +++ trail). reflexivity. }
    destruct Sk as (c & r & Sk). unfold trim_in_place. rewrite Sk.
    rewrite !string_rev_app, str_app_assoc.
    rewrite (skip_spaces_all (string_rev trail)) by (rewrite all_spaces_rev; exact At).
    rewrite (skip_spaces_fixed (string_rev core) (string_rev lead)); [|
      intros R; apply N, string_rev_empty, R | exact Back].
    rewrite string_rev_app, !string_rev_involutive. reflexivity. }
  split; [|split; assumption].
  unfold trim_whitespace.
  destruct core as [|c t] eqn:C.
  - rewrite (Empty eq_refl). rewrite (skip_spaces_all lead _ Al). cbn [String.append].
    apply all_spaces_skip, At.
  - rewrite Full by discriminate.
    rewrite (skip_spaces_all lead _ Al). exact Front.
Qed.

Lemma trim_whitespace_witness :
  trim_whitespace ("  " +++ "end  while" +++ "   ") = "end  while".
Proof.
  apply (trim_whitespace_cuts_both_ends "  " "end  while" "   "); reflexivity.
Defined.


(** ** The store as a map from names to values *)

Lemma update_variable_lookup (vars : list Var) (name value : string) (type : VarType) :
  match update_variable vars name value type with
  | Some vars' =>
      lookup_variable vars name <> None
      /\ lookup_variable vars' name = Some value
      /\ List.length vars' = List.length vars
      /\ forall other, other <> name ->
                       lookup_variable vars' other = lookup_variable vars other
  | None => lookup_variable vars name = None
  end.
Proof.
  induction vars as [|v vars IH]; [reflexivity|].
  cbn [update_variable lookup_variable]. unfold strcmp_eq in *.
  destruct (String.eqb_spec (var_name v) name) as [E|N].
  - repeat split; [discriminate | cbn; rewrite E, String.eqb_refl; reflexivity |].
    intros other O. cbn [lookup_variable var_name]. unfold strcmp_eq.
    destruct (String.eqb_spec (var_name v) other) as [E'|_]; [congruence | reflexivity].
  - destruct (update_variable vars name value type) as [vars'|]; [|exact IH].
    destruct IH as (P & Lk & Len & Others). repeat split; auto.
    + cbn [lookup_variable]. unfold strcmp_eq.
      destruct (String.eqb_spec (var_name v) name); [contradiction | exact Lk].
    + cbn [List.length]. rewrite Len. reflexivity.
    + intros other O. cbn [lookup_variable]. rewrite (Others other O). reflexivity.
Qed.

Lemma lookup_variable_app (vars : list Var) (v : Var) (name : string) :
  lookup_variable (vars ++ [v]) name =
  match lookup_variable vars name with
  | Some val => Some val
  | None => if strcmp_eq (var_name v) name then Some (var_value v) else None
  end.
Proof.
  induction vars as [|w vars IH]; [reflexivity|].
  cbn [app lookup_variable]. destruct (strcmp_eq (var_name w) name); [reflexivity | exact IH].
Qed.

Lemma set_variable_sets :
  forall (m : Machine) (name value : string) (type : VarType),
    get_variable (context m) name <> None
    \/ variable_count (context m) < MAX_VARIABLES ->
    exists m',
      set_variable name value type m = Done tt m'
      /\ get_variable (context m') name = Some value
      /\ (forall other, other <> name ->
            get_variable (context m') other = get_variable (context m) other)
      /\ output m' = output m
      /\ variable_count (context m') =
         match get_variable (context m) name with
         | Some _ => variable_count (context m)
         | None => S (variable_count (context m))
         end.
Proof.
  intros m name value type Room.
  unfold set_variable, bind, get_context, store_variable, get_variable, variable_count in *.
  pose proof (update_variable_lookup (variables (context m)) name value type) as U.
  destruct (update_variable (variables (context m)) name value type) as [vars'|].
  - destruct U as (P & Lk & Len & Others).
    eexists. split; [reflexivity|]. cbn.
    repeat split; auto.
    destruct (lookup_variable (variables (context m)) name); [exact Len | contradiction P; reflexivity].
  - destruct Room as [P | Lt]; [contradiction|].
    apply Nat.ltb_lt in Lt. rewrite Lt.
    eexists. split; [reflexivity|]. cbn.
    repeat split.
    + rewrite lookup_variable_app, U. cbn. unfold strcmp_eq.
      rewrite String.eqb_refl. reflexivity.
    + intros other O. rewrite lookup_variable_app. cbn. unfold strcmp_eq.
      destruct (lookup_variable (variables (context m)) other); [reflexivity|].
      destruct (String.eqb_spec name other); [congruence | reflexivity].
    + rewrite U, length_app. cbn. lia.
Qed.

(** X9.  [set_variable] then [get_variable]: when the name is in the store
    or the store has room, the name reads the new value afterwards, every
    other name reads what it read before, nothing is printed, and the store
    grows by one entry exactly when the name was new. *)
Theorem set_variable_then_get_variable :
  forall (m : Machine) (name value : string) (type : VarType),
    get_variable (context m) name <> None
    \/ variable_count (context m) < MAX_VARIABLES ->
    exists m',
      set_variable name value type m = Done tt m'
      /\ get_variable (context m') name = Some value
      /\ (forall other, other <> name ->
            get_variable (context m') other = get_variable (context m) other)
      /\ output m' = output m
      /\ variable_count (context m') =
         match get_variable (context m) name with
         | Some _ => variable_count (context m)
         | None => S (variable_count (context m))
         end.
Proof. exact set_variable_sets. Qed.

Lemma set_variable_witness :
  exists m',
    set_variable "x" "1" TYPE_FLOAT (machine_with 0%float [] []) = Done tt m'
    /\ get_variable (context m') "x" = Some "1"
    /\ get_variable (context m') "y" = None.
Proof.
  destruct (set_variable_then_get_variable (machine_with 0%float [] []) "x" "1" TYPE_FLOAT)
    as (m' & Run & Get & Others & _).
  - right. cbv. lia.
  - exists m'. split; [exact Run | split; [exact Get|]].
    rewrite (Others "y"); [reflexivity | discriminate].
Defined.

(** ** SET: what is stored is the text of the value *)

Section SetFacts.

Context `{Libc}.



End SetFacts.




(** ** FOR: a step that the printed value does not show *)

(** X11.  The loop of FOR keeps its variable as text printed with [%g] and
    reads it back before every test.  When the text of the value plus the
    step is the text of the value (a step of zero, or a step below the six
    digits that are printed), and the body returns and leaves the variable
    alone, the test sees the same value in every round: the loop never
    ends. *)
Theorem for_loop_never_ends_when_the_text_stays :
  forall (L : Libc) (exec : string -> M unit) (var : string)
         (end_val step_val : float) (block_lines : list string) (str : string),
    condition_met step_val end_val (atof str) = true ->
    format_g (atof str + step_val)%float = str ->
    (forall m0, get_variable (context m0) var = Some str ->
                exists m1, execute_block exec block_lines m0 = Done tt m1
                           /\ get_variable (context m1) var = Some str) ->
    forall (fuel : nat) (m : Machine),
      get_variable (context m) var = Some str ->
      for_loop exec fuel var end_val step_val block_lines m = OutOfFuel.
Proof.
  intros L exec var end_val step_val block_lines str Met Same Body.
  induction fuel as [|fuel IH]; intros m Get; [reflexivity|].
  cbn [for_loop]. unfold bind at 1. unfold get_context at 1.
  rewrite Get, Met. cbn [negb].
  destruct (Body m Get) as (m1 & Run & Get1).
  rewrite (bind_done _ _ m m1 tt Run), Same.
  destruct (set_variable_sets m1 var str TYPE_FLOAT) as (m2 & Sto & Get2 & _).
  { left. rewrite Get1. discriminate. }
  rewrite (bind_done _ _ m1 m2 tt Sto).
  apply IH, Get2.
Qed.

Lemma for_loop_witness :
  let m := with_context
             (set_variables [mkVariable "i" TYPE_FLOAT "1e+06"]
                (context (machine_with 0%float [] [])))
             (machine_with 0%float [] []) in
  for_loop (execute_line 3) 40 "i" 1000005%float 1%float [] m = OutOfFuel.
Proof.
  intros m.
  apply (for_loop_never_ends_when_the_text_stays c99_libc (execute_line 3) "i"
           1000005%float 1%float [] "1e+06").
  - vm_compute. reflexivity.
  - vm_compute. reflexivity.
  - intros m0 G. exists m0. split; [reflexivity | exact G].
  - reflexivity.
Defined.


(** ** Collecting the lines of a block *)

Lemma read_block_split (sentinel : string -> bool) (pre : list string)
  (tail : list string) :
  no_sentinel sentinel pre = true ->
  match tail with
  | [] => True
  | s :: _ => sentinel (trim_whitespace (strip_newline s)) = true
  end ->
  read_block sentinel (pre ++ tail) =
  (map kept_line pre, List.tl tail, S (List.length pre)).
Proof.
  intros N S. induction pre as [|l pre IH].
  - destruct tail as [|s post]; [reflexivity|].
    cbn [app read_block]. rewrite S. reflexivity.
  - cbn [no_sentinel forallb] in N. apply andb_prop in N as [Nl N].
    apply negb_true_iff in Nl.
    cbn [app read_block]. rewrite Nl, (IH N). reflexivity.
Qed.




(** ** PRINT *)

Section PrintFacts.

Context `{Libc}.

Lemma dispatch_PRINT (exec : string -> M unit) (fuel frame : nat)
  (line c : string) (args : list string) (m : Machine) :
  tokenize line = c :: args -> upcase c = "PRINT" ->
  dispatch exec fuel frame line m = cmd_PRINT (c :: args) (logged "PRINT" m).
Proof. intros T C; dispatch_branch T C. Qed.

Lemma print_tokens_run (ts : list string) (m : Machine) :
  print_tokens ts m =
  Done tt (add_output (map (fun t => Stdout (print_token (context m) t)) ts) m).
Proof.
  revert m; induction ts as [|t ts IH]; intros m.
  - unfold add_output. destruct m; cbn. rewrite app_nil_r. reflexivity.
  - cbn [print_tokens map]. unfold bind at 1, get_context at 1.
    unfold bind at 1, printf, emit. rewrite IH.
    unfold add_output. cbn. rewrite <- app_assoc. reflexivity.
Qed.

Lemma print_line_run (fuel : nat) (line c : string) (args : list string) (m : Machine) :
  tokenize line = c :: args -> upcase c = "PRINT" ->
  execute_line (S fuel) line m =
  Done tt (add_output
             (map (fun t => Stdout (print_token (context m) t)) args ++ [Stdout NL])
             (logged "PRINT" (enter_line m))).
Proof.
  intros T C. apply execute_line_done.
  rewrite (dispatch_PRINT _ _ _ line c args _ T C).
  unfold cmd_PRINT. cbn [tl]. unfold bind at 1. rewrite print_tokens_run.
  unfold printf, emit, add_output. cbn. rewrite <- app_assoc. reflexivity.
Qed.

End PrintFacts.

Lemma print_bare_word (ctx : InterpreterContext) (c : ascii) (s : string) :
  c <> "$"%char ->
  strncmp_eq (String c s) "S:" = false ->
  print_token ctx (String c s) =
  match get_variable ctx (String c s) with
  | Some val => val +++ " "
  | None => String c s +++ " "
  end.
Proof.
  intros Nd Ns.
  destruct c as [[] [] [] [] [] [] [] []];
    try (exfalso; apply Nd; reflexivity);
    unfold print_token; cbv beta iota; rewrite Ns; reflexivity.
Qed.

(** X14.  PRINT never evaluates and never faults: each token after the
    command is printed followed by a blank, and a newline ends the line;
    the context is left as it is.  What is printed for a token: for
    [$name], the value of the variable, or [undefined] in brackets when
    there is none; for a quoted token, the text after S: ; for any other
    word, the value of the variable of that name when there is one, and the
    word itself otherwise. *)
Theorem print_prints_its_tokens :
  forall (L : Libc) (fuel : nat) (line c : string) (args : list string) (m : Machine),
    tokenize line = c :: args -> upcase c = "PRINT" ->
    execute_line (S fuel) line m =
    Done tt (add_output
               (map (fun t => Stdout (print_token (context m) t)) args ++ [Stdout NL])
               (logged "PRINT" (enter_line m)))
    /\ (forall name val,
          get_variable (context m) name = Some val ->
          print_token (context m) ("$" +++ name) = val +++ " ")
    /\ (forall name,
          get_variable (context m) name = None ->
          print_token (context m) ("$" +++ name) = "[undefined] ")
    /\ (forall text, print_token (context m) ("S:" +++ text) = text +++ " ")
    /\ (forall first others val,
          first <> "$"%char ->
          strncmp_eq (String first others) "S:" = false ->
          get_variable (context m) (String first others) = Some val ->
          print_token (context m) (String first others) = val +++ " ")
    /\ (forall first others,
          first <> "$"%char ->
          strncmp_eq (String first others) "S:" = false ->
          get_variable (context m) (String first others) = None ->
          print_token (context m) (String first others) = String first others +++ " ").
Proof.
  intros L fuel line c args m T C. split; [|split; [|split; [|split; [|split]]]].
  - exact (print_line_run fuel line c args m T C).
  - intros name val G. cbn [print_token append]. rewrite G. reflexivity.
  - intros name G. cbn [print_token append]. rewrite G. reflexivity.
  - reflexivity.
  - intros first others val Nd Ns G.
    rewrite (print_bare_word _ first others Nd Ns), G. reflexivity.
  - intros first others Nd Ns G.
    rewrite (print_bare_word _ first others Nd Ns), G. reflexivity.
Qed.

Lemma print_witness :
  let m := with_context
             (set_variables [mkVariable "x" TYPE_FLOAT "7"] (init_context 0%float))
             (machine_with 0%float [] []) in
  printed (execute_line 1 "print x y $x $y S:hi 1+2" m)
  = [Stdout "7 "; Stdout "y "; Stdout "7 "; Stdout "[undefined] "; Stdout "hi ";
     Stdout "1+2 "; Stdout NL].
Proof.
  intros m.
  destruct (print_prints_its_tokens c99_libc 0 "print x y $x $y S:hi 1+2" "print"
              ["x"; "y"; "$x"; "$y"; "S:hi"; "1+2"] m eq_refl eq_refl)
    as (Run & Known & Unknown & Quoted & Bare & Word).
  rewrite Run. cbn [map].
  rewrite (Bare "x"%char EmptyString "7") by (reflexivity || discriminate).
  rewrite (Word "y"%char EmptyString) by (reflexivity || discriminate).
  rewrite (Known "x" "7" eq_refl : print_token (context m) "$x" = _).
  rewrite (Unknown "y" eq_refl : print_token (context m) "$y" = _).
  rewrite (Quoted "hi" : print_token (context m) "S:hi" = _).
  rewrite (Word "1"%char "+2") by (reflexivity || discriminate).
  reflexivity.
Defined.


(** ** REPEAT *)

Lemma debug_log_off (text : string) (m : Machine) :
  debug_mode (context m) = false -> debug_log text m = Done tt m.
Proof.
  intros Off. unfold debug_log, debug_events. rewrite Off.
  destruct m; cbn. rewrite app_nil_r. reflexivity.
Qed.

Section RepeatFacts.

Context `{Libc}.
Variable exec : string -> M unit.
Variable repeat_cmd : string.

(** The command does not switch the debug trace on. *)
Hypothesis stays_off : forall m,
  debug_mode (context m) = false ->
  match exec repeat_cmd m with
  | Done _ m' => debug_mode (context m') = false
  | _ => True
  end.

Lemma repeat_loop_is_a_block (remaining i : nat) (m : Machine) :
  debug_mode (context m) = false ->
  repeat_loop exec repeat_cmd i remaining m
  = execute_block exec (repeat repeat_cmd remaining) m.
Proof.
  revert i m; induction remaining as [|n IH]; intros i m Off; [reflexivity|].
  cbn [repeat_loop repeat execute_block].
  rewrite (bind_done _ _ m m tt (debug_log_off _ m Off)).
  unfold bind. specialize (stays_off m Off).
  destruct (exec repeat_cmd m) as [[] m1| | | |]; try reflexivity.
  apply IH, stays_off.
Qed.

End RepeatFacts.

Lemma atoi_some (s : string) (value : Z) :
  atoi s = Some value <->
  value = atoi_value s /\ (INT_MIN <= value <= INT_MAX)%Z.
Proof.
  unfold atoi.
  destruct ((INT_MIN <=? atoi_value s) && (atoi_value s <=? INT_MAX))%Z eqn:In.
  - apply andb_true_iff in In as [Lo Hi].
    apply Z.leb_le in Lo. apply Z.leb_le in Hi. split.
    + intros E; injection E as <-. split; [reflexivity | lia].
    + intros [-> _]. reflexivity.
  - split; [discriminate|]. intros [-> [Lo Hi]].
    apply Z.leb_le in Lo. apply Z.leb_le in Hi. rewrite Lo, Hi in In.
    discriminate In.
Qed.

(** X13.  REPEAT reads its count with [atoi], into an [int].  A count that
    is not a positive number (zero, negative, or no number at all) is
    reported and nothing runs.  Otherwise the rest of the line is joined
    with [join_tokens] and run through [execute_line] count times: with the
    debug trace off, the line behaves as a block of that many copies of the
    command.  A count that no [int] holds, and a rest of the line that does
    not fit the block of [join_tokens], are undefined behaviour. *)
Theorem repeat_runs_the_command_count_times :
  forall (L : Libc) (fuel : nat) (line c n x : string) (xs : list string) (m : Machine),
    let tokens := c :: n :: x :: xs in
    tokenize line = tokens ->
    upcase c = "REPEAT" ->
    (forall count,
        atoi n = Some count <->
        count = atoi_value n /\ (INT_MIN <= count <= INT_MAX)%Z)
    /\ (atoi n = None -> execute_line (S fuel) line m = Undefined)
    /\ (forall count,
          atoi n = Some count -> (count <= 0)%Z ->
          execute_line (S fuel) line m =
          Done tt (add_output
                     (error_events (context m) "REPEAT count must be a positive integer"
                        (current_line (context m) + 1))
                     (logged "REPEAT" (enter_line m))))
    /\ (forall count,
          atoi n = Some count -> (0 < count)%Z ->
          join_tokens tokens 2 (List.length tokens) = None ->
          execute_line (S fuel) line m = Undefined)
    /\ (forall count repeat_cmd,
          atoi n = Some count -> (0 < count)%Z ->
          join_tokens tokens 2 (List.length tokens) = Some repeat_cmd ->
          debug_mode (context m) = false ->
          (forall m0, debug_mode (context m0) = false ->
                      match execute_line fuel repeat_cmd m0 with
                      | Done _ m' => debug_mode (context m') = false
                      | _ => True
                      end) ->
          execute_line (S fuel) line m =
          on_longjmp (S fuel) (mkJmp (frames m) LineSite)
            (execute_block (execute_line fuel) (repeat repeat_cmd (Z.to_nat count)))
            (print_error_here MSG_SKIP) (enter_line m)).
Proof.
  intros L fuel line c n x xs m tokens T C.
  split; [intros count; apply atoi_some|].
  split; [|split; [|split]].
  - intros No. apply execute_line_undefined.
    rewrite (dispatch_REPEAT _ _ _ line c n x xs _ T C).
    unfold cmd_REPEAT. cbn [tok nth]. apply defined_none, No.
  - intros count Count Le. apply execute_line_done.
    rewrite (dispatch_REPEAT _ _ _ line c n x xs _ T C).
    unfold cmd_REPEAT. cbn [tok nth].
    rewrite (defined_some _ count) by exact Count.
    replace (count <=? 0)%Z with true by (symmetry; apply Z.leb_le; exact Le).
    reflexivity.
  - intros count Count Pos J. apply execute_line_undefined.
    rewrite (dispatch_REPEAT _ _ _ line c n x xs _ T C).
    unfold cmd_REPEAT. cbn [tok nth].
    rewrite (defined_some _ count) by exact Count.
    replace (count <=? 0)%Z with false by (symmetry; apply Z.leb_gt; exact Pos).
    apply defined_none, J.
  - intros count repeat_cmd Count Pos J Off Stays.
    rewrite execute_line_unfold. unfold on_longjmp.
    rewrite (dispatch_REPEAT _ _ _ line c n x xs _ T C).
    unfold cmd_REPEAT. cbn [tok nth].
    rewrite (defined_some _ count) by exact Count.
    replace (count <=? 0)%Z with false by (symmetry; apply Z.leb_gt; exact Pos).
    fold tokens. rewrite (defined_some _ repeat_cmd) by exact J.
    assert (Off' : debug_mode (context (enter_line m)) = false) by exact Off.
    assert (Log : logged "REPEAT" (enter_line m) = enter_line m).
    { unfold logged, add_output, debug_events. rewrite Off'.
      destruct (enter_line m); cbn. rewrite app_nil_r. reflexivity. }
    rewrite Log.
    rewrite (repeat_loop_is_a_block (execute_line fuel) repeat_cmd Stays
               (Z.to_nat count) 0 (enter_line m) Off').
    reflexivity.
Qed.

Lemma repeat_witness :
  execute_line 2 "REPEAT 0 PRINT x" (machine_with 0%float [] [])
  = Done tt (add_output
               (error_events (init_context 0%float)
                  "REPEAT count must be a positive integer" 1)
               (logged "REPEAT" (enter_line (machine_with 0%float [] []))))
  /\ execute_line 2 "REPEAT 2 PRINT x" (machine_with 0%float [] [])
     = on_longjmp 2 (mkJmp 1 LineSite)
         (execute_block (execute_line 1) ["PRINT x"; "PRINT x"])
         (print_error_here MSG_SKIP) (enter_line (machine_with 0%float [] []))
  /\ execute_line 2 "REPEAT 4294967297 PRINT x" (machine_with 0%float [] [])
     = Undefined.
Proof.
  split; [|split].
  - destruct (repeat_runs_the_command_count_times c99_libc 1 "REPEAT 0 PRINT x"
                "REPEAT" "0" "PRINT" ["x"] (machine_with 0%float [] [])
                eq_refl eq_refl) as (_ & _ & Reported & _).
    apply (Reported 0%Z); [reflexivity | lia].
  - destruct (repeat_runs_the_command_count_times c99_libc 1 "REPEAT 2 PRINT x"
                "REPEAT" "2" "PRINT" ["x"] (machine_with 0%float [] [])
                eq_refl eq_refl) as (_ & _ & _ & _ & Runs).
    apply (Runs 2%Z "PRINT x").
    + reflexivity.
    + lia.
    + reflexivity.
    + reflexivity.
    + intros m0 Off.
      rewrite (print_line_run 0 "PRINT x" "PRINT" ["x"] m0 eq_refl eq_refl).
      exact Off.
  - destruct (repeat_runs_the_command_count_times c99_libc 1
                "REPEAT 4294967297 PRINT x" "REPEAT" "4294967297" "PRINT" ["x"]
                (machine_with 0%float [] []) eq_refl eq_refl) as (_ & Wide & _).
    apply Wide. reflexivity.
Defined.


(** ** Lines no branch takes *)

Section UnknownFacts.

Context `{Libc}.

Lemma dispatch_unknown (exec : string -> M unit) (fuel frame : nat)
  (line c : string) (rest : list string) (m : Machine) :
  tokenize line = c :: rest ->
  String.length c < MAX_LINE_LENGTH ->
  recognised (upcase c) (S (List.length rest)) = false ->
  dispatch exec fuel frame line m
  = print_error_here "Unknown command" (logged (upcase c) m).
Proof.
  intros T Len R. unfold dispatch. rewrite T.
  cbn [List.length Nat.eqb tok nth].
  replace (MAX_LINE_LENGTH <=? String.length c) with false
    by (symmetry; apply Nat.leb_gt; exact Len).
  unfold recognised in R.
  repeat match type of R with
         | (_ || _) = false => apply orb_false_elim in R; destruct R as [R ?]
         end.
  repeat match goal with
         | G : _ = false |- _ => rewrite G; clear G
         end.
  reflexivity.
Qed.

End UnknownFacts.

(** X15.  A line that no branch of [execute_line] takes is reported as an
    unknown command and does nothing else.  The branches of SET, GET, DEBUG,
    INPUT, REPEAT, IMPORT, CONCAT, CALL, RETURN, AUDIO, THEME and SAY are
    guarded by a number of tokens, so such a command with too few tokens is
    an unknown command, not a usage error; and FUNCTION is no command at
    all: no line defines a function. *)
Theorem unrecognised_line_is_an_unknown_command :
  forall (L : Libc) (fuel : nat) (line c : string) (rest : list string) (m : Machine),
    tokenize line = c :: rest ->
    String.length c < MAX_LINE_LENGTH ->
    recognised (upcase c) (S (List.length rest)) = false ->
    execute_line (S fuel) line m =
    Done tt (add_output
               (error_events (context m) "Unknown command" (current_line (context m) + 1))
               (logged (upcase c) (enter_line m)))
    /\ (forall n, recognised "FUNCTION" n = false)
    /\ recognised "GET" 1 = false /\ recognised "SET" 3 = false
    /\ recognised "CALL" 1 = false /\ recognised "RETURN" 1 = false
    /\ recognised "REPEAT" 2 = false /\ recognised "INPUT" 2 = false.
Proof.
  intros L fuel line c rest m T Len R. split; [|repeat split].
  apply execute_line_done.
  rewrite (dispatch_unknown _ _ _ line c rest _ T Len R). reflexivity.
Qed.

Lemma unknown_command_witness :
  printed (execute_line 1 "FUNCTION square n" (machine_with 0%float [] []))
  = error_events (init_context 0%float) "Unknown command" 1
  /\ printed (execute_line 1 "GET" (machine_with 0%float [] []))
     = error_events (init_context 0%float) "Unknown command" 1.
Proof.
  split.
  - rewrite (proj1 (unrecognised_line_is_an_unknown_command c99_libc 0
                      "FUNCTION square n" "FUNCTION" ["square"; "n"]
                      (machine_with 0%float [] []) eq_refl
                      ltac:(unfold MAX_LINE_LENGTH; cbn; lia) eq_refl)).
    reflexivity.
  - rewrite (proj1 (unrecognised_line_is_an_unknown_command c99_libc 0
                      "GET" "GET" [] (machine_with 0%float [] []) eq_refl
                      ltac:(unfold MAX_LINE_LENGTH; cbn; lia) eq_refl)).
    reflexivity.
Defined.


(** ** The command word *)

Section CommandWord.

Context `{Libc}.

Lemma dispatch_command_word (exec : string -> M unit) (fuel frame : nat)
  (line1 line2 c1 c2 : string) (rest : list string) (m : Machine) :
  tokenize line1 = c1 :: rest -> tokenize line2 = c2 :: rest ->
  upcase c1 = upcase c2 ->
  dispatch exec fuel frame line1 m = dispatch exec fuel frame line2 m.
Proof.
  intros T1 T2 C. unfold dispatch. rewrite T1, T2.
  cbn [List.length Nat.eqb tok nth].
  rewrite <- (upcase_length c1), C, (upcase_length c2).
  destruct (MAX_LINE_LENGTH <=? String.length c2); [reflexivity|].
  apply bind_agree; intros [] m1 _.
  repeat match goal with
         | |- (if ?b then _ else _) _ = _ => destruct b
         end;
    try reflexivity.
  (* IF: the indices of THEN and ELSE are found among the other tokens *)
  unfold cmd_IF. cbn [tl].
  destruct (scan_if rest 1 None None) as [[[t|] [e|]] [f|]];
    rewrite ?Nat.add_1_r; reflexivity.
Qed.

End CommandWord.

(** X16.  Only the command word is folded to upper case, and the branches
    read nothing else of it: two lines whose first tokens differ in case
    only, and whose other tokens are the same, do the same.  The word is
    shorter than the buffer it is copied to. *)
Theorem command_word_is_case_insensitive :
  forall (L : Libc) (fuel : nat) (line1 line2 c1 c2 : string) (rest : list string)
         (m : Machine),
    tokenize line1 = c1 :: rest -> tokenize line2 = c2 :: rest ->
    String.length c1 < MAX_LINE_LENGTH ->
    upcase c1 = upcase c2 ->
    execute_line fuel line1 m = execute_line fuel line2 m.
Proof.
  intros L fuel line1 line2 c1 c2 rest m T1 T2 Len C.
  destruct fuel as [|fuel]; [reflexivity|].
  rewrite !execute_line_unfold. unfold on_longjmp.
  rewrite (dispatch_command_word _ _ _ line1 line2 c1 c2 rest _ T1 T2 C).
  reflexivity.
Qed.

Lemma command_word_witness :
  execute_line 2 "print $x" (machine_with 0%float [] [])
  = execute_line 2 "PrInT $x" (machine_with 0%float [] []).
Proof.
  apply (command_word_is_case_insensitive c99_libc 2 "print $x" "PrInT $x"
           "print" "PrInT" ["$x"]);
    first [ reflexivity | unfold MAX_LINE_LENGTH; cbn; lia ].
Defined.


(** ** EXIT *)

Section ExitFacts.

Context `{Libc}.

Lemma dispatch_EXIT (exec : string -> M unit) (fuel frame : nat)
  (line c : string) (rest : list string) (m : Machine) :
  tokenize line = c :: rest -> upcase c = "EXIT" ->
  dispatch exec fuel frame line m
  = Exit 0%Z (add_output [Stdout ("Exiting interpreter." +++ NL)] (logged "EXIT" m)).
Proof. intros T C; dispatch_branch T C. Qed.

Lemma exit_line_run (fuel : nat) (line c : string) (rest : list string) (m : Machine) :
  tokenize line = c :: rest -> upcase c = "EXIT" ->
  execute_line (S fuel) line m
  = Exit 0%Z (add_output [Stdout ("Exiting interpreter." +++ NL)]
                (logged "EXIT" (enter_line m))).
Proof.
  intros T C. rewrite execute_line_unfold. unfold on_longjmp.
  rewrite (dispatch_EXIT _ _ _ line c rest _ T C). reflexivity.
Qed.

End ExitFacts.

(** X17.  EXIT ends the program with status 0, whatever follows it on the
    line: the lines left in a block are not run, and at the prompt the
    input left is not read. *)
Theorem exit_ends_the_run :
  forall (L : Libc) (fuel : nat) (line c : string) (rest : list string),
    tokenize line = c :: rest -> upcase c = "EXIT" ->
    (forall m lines,
        execute_block (execute_line (S fuel)) (line :: lines) m
        = Exit 0%Z (add_output [Stdout ("Exiting interpreter." +++ NL)]
                      (logged "EXIT" (enter_line m))))
    /\ (forall indeterminate chunk input fs,
          strip_newline chunk = line ->
          exists m',
            main (S (S fuel)) None indeterminate (chunk :: input) fs = Exit 0%Z m'
            /\ stdin m' = input
            /\ variables (context m') = []).
Proof.
  intros L fuel line c rest T C. split.
  - intros m lines. cbn [execute_block]. unfold bind.
    rewrite (exit_line_run fuel line c rest m T C). reflexivity.
  - intros indeterminate chunk input fs Strip.
    assert (NE : (String.length line =? 0) = false).
    { destruct line; [discriminate T | reflexivity]. }
    unfold main, on_longjmp, repl. unfold bind at 1 2 3.
    unfold get_context at 1. unfold printf at 1, emit at 1.
    cbn [repl_loop]. unfold bind at 1. unfold get_context at 1.
    unfold bind at 1. unfold printf at 1, emit at 1.
    unfold bind at 1. unfold fgets_stdin at 1. cbn [stdin with_output start_machine].
    rewrite Strip, NE. unfold bind at 1.
    rewrite (exit_line_run fuel line c rest _ T C).
    eexists. split; [reflexivity|]. split; reflexivity.
Qed.

Lemma exit_witness :
  exists m',
    main 2 None 0%float ["exit now"; "PRINT never"] no_files = Exit 0%Z m'
    /\ stdin m' = ["PRINT never"].
Proof.
  destruct (proj2 (exit_ends_the_run c99_libc 0 "exit now" "exit" ["now"]
                     eq_refl eq_refl) 0%float "exit now" ["PRINT never"] no_files eq_refl)
    as (m' & Run & In & _).
  exists m'. split; assumption.
Defined.


(** ** CONCAT *)

Section ConcatFacts.

Context `{Libc}.


End ConcatFacts.




(** ** INPUT *)

Lemma set_variable_input (name value : string) (type : VarType) (m m' : Machine) :
  set_variable name value type m = Done tt m' -> stdin m' = stdin m.
Proof.
  unfold set_variable, bind, get_context.
  destruct (store_variable (variables (context m)) name value type) as [vars full].
  destruct full; cbn; intros E; injection E as <-; reflexivity.
Qed.

Section InputFacts.

Context `{Libc}.

Lemma dispatch_INPUT (exec : string -> M unit) (fuel frame : nat)
  (line c name p : string) (ps : list string) (m : Machine) :
  tokenize line = c :: name :: p :: ps -> upcase c = "INPUT" ->
  dispatch exec fuel frame line m
  = cmd_INPUT (c :: name :: p :: ps) (logged "INPUT" m).
Proof. intros T C; dispatch_branch T C. Qed.

End InputFacts.

(** X19.  INPUT joins the rest of the line with [join_tokens] and prints
    it as the prompt (the S: of a quoted token included), reads one line,
    and stores it, without its newline and trimmed at both ends, as a
    string.  At the end of the input it reports the failure and stores
    nothing.  A rest of the line that does not fit the block of
    [join_tokens] is undefined behaviour. *)
Theorem input_stores_the_trimmed_line :
  forall (L : Libc) (fuel : nat) (line c name p : string) (ps : list string)
         (m : Machine),
    let tokens := c :: name :: p :: ps in
    tokenize line = tokens ->
    upcase c = "INPUT" ->
    (join_tokens tokens 2 (List.length tokens) = None ->
     execute_line (S fuel) line m = Undefined)
    /\ (forall text,
          join_tokens tokens 2 (List.length tokens) = Some text ->
          let prompt := trim_whitespace text in
          (stdin m = [] ->
           execute_line (S fuel) line m =
           Done tt (add_output
                      (Stdout (prompt +++ " ")
                       :: error_events (context m) "Failed to read input"
                            (current_line (context m) + 1))
                      (logged "INPUT" (enter_line m))))
          /\ (forall chunk rest,
                stdin m = chunk :: rest ->
                get_variable (context m) name <> None
                \/ variable_count (context m) < MAX_VARIABLES ->
                exists m',
                  execute_line (S fuel) line m = Done tt m'
                  /\ get_variable (context m') name
                     = Some (trim_whitespace (strip_newline chunk))
                  /\ stdin m' = rest
                  /\ output m' =
                     output (logged "INPUT" m)
                     ++ [Stdout (prompt +++ " ");
                         Stdout ("Variable '" +++ name +++ "' set to '"
                                 +++ trim_whitespace (strip_newline chunk)
                                 +++ "'" +++ NL)])).
Proof.
  intros L fuel line c name p ps m tokens T C. split.
  { intros J. apply execute_line_undefined.
    rewrite (dispatch_INPUT _ _ _ line c name p ps _ T C).
    unfold cmd_INPUT. apply defined_none, J. }
  intros text J prompt. split.
  - intros End. apply execute_line_done.
    rewrite (dispatch_INPUT _ _ _ line c name p ps _ T C).
    unfold cmd_INPUT. fold tokens. rewrite (defined_some _ text) by exact J.
    fold prompt.
    unfold bind at 1. unfold printf at 1, emit at 1.
    unfold bind at 1. unfold fgets_stdin at 1. cbn [stdin with_output logged add_output enter_line with_context with_frames].
    rewrite End. unfold print_error_here, bind, get_context, print_error, add_output.
    cbn. rewrite <- app_assoc. reflexivity.
  - intros chunk rest In Room.
    set (m0 := with_stdin rest
                 (add_output [Stdout (prompt +++ " ")] (logged "INPUT" (enter_line m)))).
    destruct (set_variable_sets m0 name (trim_whitespace (strip_newline chunk))
                TYPE_STRING Room) as (m1 & Sto & Get & _ & Out & _).
    eexists. split; [|split; [|split]].
    + apply execute_line_done.
      rewrite (dispatch_INPUT _ _ _ line c name p ps _ T C).
      unfold cmd_INPUT. fold tokens. rewrite (defined_some _ text) by exact J.
      fold prompt.
      unfold bind at 1. unfold printf at 1, emit at 1.
      unfold bind at 1. unfold fgets_stdin at 1.
      cbn [stdin with_output logged add_output enter_line with_context with_frames].
      rewrite In. cbn [tok nth].
      change (set_variable name (trim_whitespace (strip_newline chunk)) TYPE_STRING ;;
              printf ("Variable '" +++ name +++ "' set to '"
                      +++ trim_whitespace (strip_newline chunk) +++ "'" +++ NL))%claro
        with (bind (set_variable name (trim_whitespace (strip_newline chunk)) TYPE_STRING)
                (fun _ => printf ("Variable '" +++ name +++ "' set to '"
                                  +++ trim_whitespace (strip_newline chunk) +++ "'" +++ NL))).
      rewrite (bind_done _ _ _ m1 tt Sto). reflexivity.
    + exact Get.
    + cbn. apply (set_variable_input _ _ _ _ _ Sto).
    + cbn. rewrite Out. cbn. rewrite <- app_assoc. reflexivity.
Qed.

Lemma input_witness :
  let line := "INPUT who " +++ QUOTE +++ "Your name?" +++ QUOTE in
  let m := machine_with 0%float [] ["  Ada " +++ NL; "next"] in
  exists m',
    execute_line 1 line m = Done tt m'
    /\ get_variable (context m') "who" = Some "Ada"
    /\ stdin m' = ["next"]
    /\ output m' = [Stdout "S:Your name? ";
                    Stdout ("Variable 'who' set to 'Ada'" +++ NL)].
Proof.
  intros line m.
  destruct (proj2 (proj2 (input_stores_the_trimmed_line c99_libc 0 line "INPUT" "who"
                            "S:Your name?" [] m eq_refl eq_refl)
                     "S:Your name?" eq_refl)
              ("  Ada " +++ NL) ["next"] eq_refl)
    as (m' & Run & Get & In & Out).
  - right. cbv. lia.
  - exists m'. repeat split; assumption.
Defined.


(** ** Expressions without an operand, and text after an expression *)

Lemma copy_until_stop (stop : ascii -> bool) (room : nat) (c : ascii) (p : string) :
  stop c = true -> copy_until stop room (String c p) = (EmptyString, String c p).
Proof. intros S; destruct room; cbn [copy_until]; [|rewrite S]; reflexivity. Qed.

Lemma no_name_char (c : ascii) :
  is_ident_char c = false ->
  Ascii.eqb (Ctype.toupper c) (Ctype.toupper "t") = false
  /\ Ascii.eqb (Ctype.toupper c) (Ctype.toupper "f") = false
  /\ Ctype.isdigit c = false.
Proof.
  destruct c as [[] [] [] [] [] [] [] []]; vm_compute; intros E;
    repeat split; congruence.
Qed.

Section MissingOperand.

Context `{Libc}.
Variable ctx : InterpreterContext.

(** The store has no variable whose name is empty. *)
Hypothesis no_empty_name : get_variable ctx EmptyString = None.

Lemma parse_factor_missing (fuel : nat) (s : string) :
  no_operand s = true -> parse_factor ctx (S fuel) s = PVal 0%float (skip_spaces s).
Proof.
  intros N. rewrite parse_factor_S; cbv zeta. unfold no_operand in N.
  destruct (skip_spaces s) as [|c t].
  - cbn. rewrite no_empty_name. reflexivity.
  - apply andb_prop in N as [N Pt]. apply andb_prop in N as [Id Pa].
    apply negb_true_iff in Id, Pa, Pt.
    destruct (no_name_char c Id) as (Nt & Nf & Dg).
    rewrite !is_literal_cons, Nt, Nf. cbn [andb].
    change (char_at 0 (String c t)) with c. rewrite Pa.
    unfold starts_number. rewrite Dg, Pt. cbn [orb].
    unfold scan_identifier.
    rewrite (copy_until_stop _ _ c t) by (rewrite Id; reflexivity).
    rewrite no_empty_name. reflexivity.
Qed.

Lemma evaluate_blank (s : string) :
  all_spaces s = true -> evaluate_expression ctx s = PVal 0%float EmptyString.
Proof.
  intros A. unfold evaluate_expression.
  destruct (expression_fuel_four s) as [k ->].
  rewrite parse_comparison_S, parse_expression_S, parse_term_S.
  rewrite parse_factor_missing
    by (unfold no_operand; rewrite (all_spaces_skip s A); reflexivity).
  rewrite (all_spaces_skip s A). reflexivity.
Qed.

End MissingOperand.

(** X20.  Where [parse_factor] finds no operand (the text is empty, or
    starts with an operator or any character that opens neither a name, a
    number nor a parenthesis) it returns 0.0 and reads nothing: a missing
    operand is not an error.  So the empty expression is 0.0, a leading
    minus subtracts from 0.0, and a minus after an operator is not a sign:
    the operator takes 0.0 and the subtraction follows. *)
Theorem missing_operand_is_zero :
  (forall (L : Libc) (ctx : InterpreterContext) (fuel : nat) (s : string),
      get_variable ctx EmptyString = None ->
      no_operand s = true ->
      parse_factor ctx (S fuel) s = PVal 0%float (skip_spaces s))
  /\ (forall (L : Libc) (ctx : InterpreterContext) (s : string),
        get_variable ctx EmptyString = None ->
        all_spaces s = true ->
        evaluate_expression ctx s = PVal 0%float EmptyString)
  /\ (let ctx := init_context 0%float in
      evaluate_expression ctx "-5" = PVal (-5)%float EmptyString
      /\ evaluate_expression ctx "2 * -3" = PVal (-3)%float EmptyString
      /\ evaluate_expression ctx "2 - -3" = PVal (-1)%float EmptyString
      /\ evaluate_expression ctx "3 +" = PVal 3%float EmptyString
      /\ evaluate_expression ctx "* 4" = PVal 0%float EmptyString).
Proof.
  split; [|split].
  - intros L ctx fuel s E N. apply parse_factor_missing; assumption.
  - intros L ctx s E A. apply evaluate_blank; assumption.
  - vm_compute. repeat split; reflexivity.
Qed.

Lemma missing_operand_witness :
  parse_factor (init_context 0%float) 1 "  + 1" = PVal 0%float "+ 1"
  /\ evaluate_expression (init_context 0%float) "   " = PVal 0%float EmptyString.
Proof.
  split.
  - apply (proj1 missing_operand_is_zero c99_libc (init_context 0%float) 0 "  + 1");
      reflexivity.
  - apply (proj1 (proj2 missing_operand_is_zero) c99_libc (init_context 0%float) "   ");
      reflexivity.
Defined.


Section TrailingText.

Context `{Libc}.
Variable ctx : InterpreterContext.

Lemma evaluate_before_parenthesis (e : expr) (junk : string) :
  well_formed e ->
  evaluate_expression ctx (show e +++ ")" +++ junk)
  = returns (denote ctx e) (")" +++ junk).
Proof.
  intros Wf.
  destruct (agrees_all ctx (size e)) as (_ & _ & E & _).
  assert (P : parses (parse_comparison ctx) (show e +++ ")" +++ junk)
                (returns (denote ctx e) (")" +++ junk))).
  { apply (chain ctx 0 (parse_expression ctx) (parse_comparison ctx)
             (parse_comparison_loop ctx) (size e)
             ltac:(lia) (parse_comparison_S ctx) (parse_comparison_loop_op ctx)
             (parse_comparison_loop_skip ctx)
             (parse_expression_space ctx) (agrees_operand ctx _ 0 _ E));
      auto using stops_paren with arith.
    - intros v D. rewrite D. exists 1. intros fuel L.
      destruct fuel as [|fuel]; [lia|].
      apply (parse_comparison_loop_stop ctx fuel v (")" +++ junk) (stops_paren 0 junk)).
    - intros msg D. rewrite D. reflexivity. }
  destruct P as (n & P).
  apply (evaluate_expression_any_fuel ctx n); [apply P; lia|].
  destruct (denote ctx e); discriminate.
Qed.

End TrailingText.

(** X21.  The evaluator stops at a closing parenthesis that closes nothing
    and returns the value of what it has read; [evaluate_expression] drops
    the unread text, so the text from that parenthesis on is ignored without
    any report. *)
Theorem text_after_the_expression_is_ignored :
  forall (L : Libc) (e : expr) (junk : string) (m : Machine) (v : float),
    well_formed e ->
    denote (context m) e = inl v ->
    evaluate_expression (context m) (show e +++ ")" +++ junk)
    = PVal v (")" +++ junk)
    /\ evaluate (show e +++ ")" +++ junk) m = Done v m.
Proof.
  intros L e junk m v Wf D.
  assert (E : evaluate_expression (context m) (show e +++ ")" +++ junk)
              = PVal v (")" +++ junk)).
  { rewrite (evaluate_before_parenthesis (context m) e junk Wf), D. reflexivity. }
  split; [exact E|]. apply (evaluate_value _ m v _ E).
Qed.

Lemma trailing_text_witness :
  evaluate "total) * 1000" (machine_with 0%float [] [])
  = Done 0%float (machine_with 0%float [] []).
Proof.
  apply (proj2 (text_after_the_expression_is_ignored c99_libc (Ref "total") " * 1000"
                  (machine_with 0%float [] []) 0%float eq_refl eq_refl)).
Defined.


(** ** IF *)






Section IfFacts.

Context `{Libc}.


End IfFacts.

Section NestedIf.

Context `{Libc}.


End NestedIf.




(** ** WHILE *)

Section WhileFacts.

Context `{Libc}.

Lemma dispatch_WHILE (exec : string -> M unit) (fuel frame : nat)
  (line c : string) (rest : list string) (m : Machine) :
  tokenize line = c :: rest -> upcase c = "WHILE" ->
  dispatch exec fuel frame line m = cmd_WHILE exec fuel (c :: rest) (logged "WHILE" m).
Proof. intros T C; dispatch_branch T C. Qed.

Lemma collect_array_run (prompt : string) (sentinel : string -> bool)
  (pre : list string) (s : string) (post : list string) (m : Machine) :
  no_sentinel sentinel pre = true ->
  sentinel (trim_whitespace (strip_newline s)) = true ->
  stdin m = pre ++ s :: post ->
  collect_array prompt sentinel m =
  if MAX_BLOCK_LINES <? List.length pre then Undefined
  else Done (map kept_line pre)
         (with_output (output m ++ repeat (Stdout prompt) (S (List.length pre)))
            (with_stdin post m)).
Proof.
  intros N Sn In. unfold collect_array, bind, collect_block. rewrite In.
  rewrite (read_block_split sentinel pre (s :: post) N Sn).
  rewrite length_map. destruct (MAX_BLOCK_LINES <? List.length pre); reflexivity.
Qed.

End WhileFacts.

Lemma while_condition_none (tokens : list string) :
  while_condition tokens = None <->
  MAX_LINE_LENGTH <= String.length (fst (while_text tokens)).
Proof.
  unfold while_condition. destruct (while_text tokens) as [cond_expr found].
  cbn [fst]. destruct (String.length cond_expr <? MAX_LINE_LENGTH) eqn:Fits.
  - apply Nat.ltb_lt in Fits. split; [discriminate | lia].
  - apply Nat.ltb_ge in Fits. split; [intros _; exact Fits | reflexivity].
Qed.

(** X23.  WHILE copies the tokens before BEGIN, a blank after each, into
    [cond_expr], an array of MAX_LINE_LENGTH bytes, without a length check:
    a condition that does not fit is undefined behaviour, with or without
    BEGIN.  Otherwise WHILE without BEGIN is reported and reads nothing,
    and with BEGIN the body is read from the input up to ENDWHILE before
    the condition is looked at: when the condition is false the first time,
    the body has been consumed and none of it runs.  The body is stored in
    an array of MAX_BLOCK_LINES pointers and the count is not checked: a
    body of more lines is undefined behaviour. *)
Theorem while_reads_its_body_first :
  forall (L : Libc) (fuel : nat) (line c : string) (rest : list string) (m : Machine),
    tokenize line = c :: rest ->
    upcase c = "WHILE" ->
    (while_condition rest = None <->
     MAX_LINE_LENGTH <= String.length (fst (while_text rest)))
    /\ (while_condition rest = None -> execute_line (S fuel) line m = Undefined)
    /\ (forall cond_expr,
          while_condition rest = Some (cond_expr, false) ->
          execute_line (S fuel) line m =
          Done tt (add_output
                     (error_events (context m) "WHILE syntax error. Missing BEGIN"
                        (current_line (context m) + 1))
                     (logged "WHILE" (enter_line m))))
    /\ (forall cond_expr pre s post,
          while_condition rest = Some (cond_expr, true) ->
          stdin m = pre ++ s :: post ->
          no_sentinel (is_sentinel "ENDWHILE") pre = true ->
          is_sentinel "ENDWHILE" (trim_whitespace (strip_newline s)) = true ->
          (MAX_BLOCK_LINES < List.length pre ->
           execute_line (S fuel) line m = Undefined)
          /\ (forall v r,
                List.length pre <= MAX_BLOCK_LINES ->
                evaluate_expression (context m) cond_expr = PVal v r ->
                truthy v = false ->
                execute_line (S (S fuel)) line m =
                Done tt
                  (with_stdin post
                     (add_output
                        (Stdout ("Enter WHILE loop block lines (type ENDWHILE on a line by itself):" +++ NL)
                         :: repeat (Stdout "... ") (S (List.length pre)))
                        (logged "WHILE" (enter_line m)))))).
Proof.
  intros L fuel line c rest m T C.
  split; [apply while_condition_none|]. split; [|split].
  - intros W. apply execute_line_undefined.
    rewrite (dispatch_WHILE _ _ _ line c rest _ T C).
    unfold cmd_WHILE. cbn [tl]. apply defined_none, W.
  - intros cond_expr W. apply execute_line_done.
    rewrite (dispatch_WHILE _ _ _ line c rest _ T C).
    unfold cmd_WHILE. cbn [tl].
    rewrite (defined_some _ (cond_expr, false)) by exact W. reflexivity.
  - intros cond_expr pre s post W In N Sn.
    assert (Col : forall m0, stdin m0 = pre ++ s :: post ->
              collect_array "... " (is_sentinel "ENDWHILE") m0 =
              if MAX_BLOCK_LINES <? List.length pre then Undefined
              else Done (map kept_line pre)
                     (with_output (output m0 ++ repeat (Stdout "... ") (S (List.length pre)))
                        (with_stdin post m0)))
      by (intros m0 In0; apply (collect_array_run _ _ pre s post m0 N Sn In0)).
    split.
    + intros Long. rewrite execute_line_unfold. unfold on_longjmp.
      rewrite (dispatch_WHILE _ _ _ line c rest _ T C).
      unfold cmd_WHILE. cbn [tl].
      rewrite (defined_some _ (cond_expr, true)) by exact W. cbn [negb].
      unfold bind at 1. unfold printf at 1, emit at 1.
      unfold bind at 1. rewrite Col by exact In.
      replace (MAX_BLOCK_LINES <? List.length pre) with true
        by (symmetry; apply Nat.ltb_lt; exact Long).
      reflexivity.
    + intros v r Short E F. apply execute_line_done.
      rewrite (dispatch_WHILE _ _ _ line c rest _ T C).
      unfold cmd_WHILE. cbn [tl].
      rewrite (defined_some _ (cond_expr, true)) by exact W. cbn [negb].
      unfold bind at 1. unfold printf at 1, emit at 1.
      unfold bind at 1. rewrite Col by exact In.
      replace (MAX_BLOCK_LINES <? List.length pre) with false
        by (symmetry; apply Nat.ltb_ge; exact Short).
      cbn [while_loop]. unfold bind at 1.
      rewrite (evaluate_value cond_expr _ v r) by exact E.
      rewrite F. cbn [negb]. unfold ret, add_output, with_stdin, with_output.
      cbn. rewrite <- app_assoc. reflexivity.
Qed.

Lemma while_witness_false :
  let m := machine_with 0%float [] ["PRINT never"; "ENDWHILE"; "PRINT next"] in
  execute_line 2 "WHILE 0 BEGIN" m =
  Done tt
    (with_stdin ["PRINT next"]
       (add_output
          (Stdout ("Enter WHILE loop block lines (type ENDWHILE on a line by itself):" +++ NL)
           :: repeat (Stdout "... ") 2)
          (logged "WHILE" (enter_line m)))).
Proof.
  intros m.
  destruct (while_reads_its_body_first c99_libc 0 "WHILE 0 BEGIN" "WHILE"
              ["0"; "BEGIN"] m eq_refl eq_refl) as (_ & _ & _ & Body).
  destruct (Body "0 " ["PRINT never"] "ENDWHILE" ["PRINT next"]
              eq_refl eq_refl eq_refl eq_refl) as [_ Run].
  apply (Run 0%float EmptyString); [unfold MAX_BLOCK_LINES; cbn; lia | reflexivity | reflexivity].
Defined.


(** ** Functions in a run of the program *)

Section WholeRun.

Context `{Libc}.

Lemma respects_execute_code_from (fuel : nat) (lines : list string) :
  forall i, respects (execute_code_from fuel lines i).
Proof.
  pose proof (respects_execute_line fuel).
  induction lines as [|l lines IH]; intros i; cbn [execute_code_from]; respects_tac.
Qed.

Lemma respects_repl_loop (fuel : nat) : respects (repl_loop fuel).
Proof.
  induction fuel as [|fuel IH]; [intros m; exact I|].
  pose proof (respects_execute_line fuel).
  cbn [repl_loop]. respects_tac.
Qed.

Lemma respects_main_run (fuel : nat) (argv1 : option string)
  (fs : string -> option (list string)) :
  respects (on_longjmp 1 (mkJmp 0 MainSite)
              (match argv1 with
               | Some name =>
                   match fs name with
                   | None => print_error "Could not open file." (-1)%Z ;; ret 1%Z
                   | Some chunks =>
                       modify_context (set_code_lines chunks) ;;
                       execute_code fuel ;; ret 0%Z
                   end
               | None => repl fuel ;; ret 0%Z
               end)
              (print_error_here "An unrecoverable error occurred." ;; exit 1%Z)).
Proof.
  pose proof respects_execute_code_from. pose proof respects_repl_loop.
  unfold execute_code, repl. respects_tac.
Qed.

Lemma dispatch_CALL_unknown (fuel : nat) (line c name : string) (args : list string)
  (m : Machine) :
  tokenize line = c :: name :: args -> upcase c = "CALL" ->
  find_function (context m) name = None ->
  execute_line (S fuel) line m =
  Done tt (add_output [Stdout ("Function '" +++ name +++ "' not defined." +++ NL)]
             (logged "CALL" (enter_line m))).
Proof.
  intros T C F. apply execute_line_done.
  rewrite (dispatch_CALL _ _ _ line c name args _ T C).
  unfold cmd_CALL, bind, get_context. cbn [tok nth].
  change (find_function (context (logged "CALL" (enter_line m))) name)
    with (find_function (context m) name).
  rewrite F. reflexivity.
Qed.

End WholeRun.

(** X24.  No run of the program defines a function: [define_function] is
    called from nowhere, and no branch of [execute_line] adds to the
    registry.  Whenever [main] returns, or ends through EXIT, the registry
    is empty as [init_context] left it; and with an empty registry every
    CALL prints that the function is not defined and runs nothing. *)
Theorem no_run_defines_a_function :
  (forall (L : Libc) (fuel : nat) (argv1 : option string) (indeterminate : float)
          (input : list string) (fs : string -> option (list string)),
      match main fuel argv1 indeterminate input fs with
      | Done _ m' | Exit _ m' => functions (context m') = []
      | _ => True
      end)
  /\ (forall (L : Libc) (fuel : nat) (line c name : string) (args : list string)
             (m : Machine),
        tokenize line = c :: name :: args -> upcase c = "CALL" ->
        functions (context m) = [] ->
        execute_line (S fuel) line m =
        Done tt (add_output [Stdout ("Function '" +++ name +++ "' not defined." +++ NL)]
                   (logged "CALL" (enter_line m)))).
Proof.
  split.
  - intros L fuel argv1 indeterminate input fs. unfold main.
    pose proof (respects_main_run fuel argv1 fs (start_machine indeterminate input fs))
      as R.
    destruct (on_longjmp _ _ _ _ _) as [z m'|p m'|z m'| |]; auto;
      destruct R as [_ _ _ F]; exact F.
  - intros L fuel line c name args m T C Empty.
    apply (dispatch_CALL_unknown fuel line c name args m T C).
    unfold find_function. rewrite Empty. reflexivity.
Qed.

Lemma no_function_witness :
  printed (execute_line 1 "CALL square 3" (machine_with 0%float [] []))
  = [Stdout ("Function 'square' not defined." +++ NL)].
Proof.
  rewrite (proj2 no_run_defines_a_function c99_libc 0 "CALL square 3" "CALL" "square"
             ["3"] (machine_with 0%float [] []) eq_refl eq_refl eq_refl).
  reflexivity.
Defined.


(** ** What every line leaves alone

    A relation between contexts that every assignment of the interpreter
    respects is respected by every line.  The assignments are those of the
    two jump buffers, of the flags, of the saved return value, of the store
    by [set_variable] and by the truncation after a call, and of the call
    stack. *)

Section Pass.

Context `{Libc}.
Variable same : InterpreterContext -> InterpreterContext -> Prop.

Hypothesis same_refl : forall c, same c c.
Hypothesis same_trans : forall a b c, same a b -> same b c -> same a c.
Hypothesis same_error_buf : forall c v, same c (set_error_buf v c).
Hypothesis same_in_function : forall c v, same c (set_in_function v c).
Hypothesis same_return_value : forall c v, same c (set_function_return_value v c).
Hypothesis same_return_buf : forall c v, same c (set_function_return_buf v c).
Hypothesis same_debug : forall c v, same c (set_debug_mode v c).
Hypothesis same_audio : forall c v, same c (set_audio_mode v c).
Hypothesis same_contrast : forall c v, same c (set_high_contrast_mode v c).
Hypothesis same_store : forall c name value type,
  same c (set_variables (fst (store_variable (variables c) name value type)) c).
Hypothesis same_truncate : forall c n,
  same c (set_variables (firstn n (variables c)) c).
Hypothesis same_push : forall c name,
  same c (set_call_stack (call_stack c ++ [name]) c).
Hypothesis same_pop : forall c,
  same c (set_call_stack (removelast (call_stack c)) c).

Lemma passes_ret {A : Type} (a : A) : passes same (ret a).
Proof. intros m; apply same_refl. Qed.

Lemma passes_bind {A B : Type} (c : M A) (k : A -> M B) :
  passes same c -> (forall a, passes same (k a)) -> passes same (bind c k).
Proof.
  intros Pc Pk m. unfold bind. specialize (Pc m).
  destruct (c m) as [a m1| | | |]; auto.
  specialize (Pk a m1). destruct (k a m1); auto; eapply same_trans; eauto.
Qed.

(** A step that leaves the context alone. *)
Lemma passes_quiet {A : Type} (c : M A) :
  (forall m,
      match c m with
      | Done _ m' | Longjmp _ m' | Exit _ m' => context m' = context m
      | Undefined | OutOfFuel => True
      end) ->
  passes same c.
Proof.
  intros Q m. specialize (Q m). destruct (c m); auto; rewrite Q; apply same_refl.
Qed.

Lemma passes_get_context : passes same get_context.
Proof. apply passes_quiet; intros m; reflexivity. Qed.

Lemma passes_emit (e : event) : passes same (emit e).
Proof. apply passes_quiet; intros m; reflexivity. Qed.

Lemma passes_printf (text : string) : passes same (printf text).
Proof. apply passes_emit. Qed.

Lemma passes_print_error (message : string) (line_number : Z) :
  passes same (print_error message line_number).
Proof. apply passes_quiet; intros m; reflexivity. Qed.

Lemma passes_print_error_here (message : string) :
  passes same (print_error_here message).
Proof. apply passes_quiet; intros m; reflexivity. Qed.

Lemma passes_debug_log (text : string) : passes same (debug_log text).
Proof. apply passes_quiet; intros m; reflexivity. Qed.

Lemma passes_fgets : passes same fgets_stdin.
Proof.
  apply passes_quiet; intros m; unfold fgets_stdin. destruct (stdin m); reflexivity.
Qed.

Lemma passes_new_frame : passes same new_frame.
Proof. apply passes_quiet; intros m; reflexivity. Qed.

Lemma passes_undefined {A : Type} : passes same (@undefined A).
Proof. intros m; exact I. Qed.

Lemma passes_defined {A : Type} (result : option A) : passes same (defined result).
Proof.
  destruct result; [apply passes_ret | apply passes_undefined].
Qed.

Lemma passes_exit {A : Type} (status : Z) : passes same (@exit A status).
Proof. intros m; apply same_refl. Qed.

Lemma passes_longjmp {A : Type} (buf : jmp_buf) : passes same (@longjmp A buf).
Proof. intros m; unfold longjmp; destruct buf; [apply same_refl | exact I]. Qed.

Lemma passes_out_of_fuel {A : Type} : passes same (fun _ : Machine => @OutOfFuel A).
Proof. intros m; exact I. Qed.

Lemma passes_modify (g : InterpreterContext -> InterpreterContext) :
  (forall c, same c (g c)) -> passes same (modify_context g).
Proof. intros G m. apply G. Qed.

Lemma passes_set_variable (name value : string) (type : VarType) :
  passes same (set_variable name value type).
Proof.
  intros m. unfold set_variable, bind, get_context.
  pose proof (same_store (context m) name value type) as S.
  destruct (store_variable (variables (context m)) name value type) as [vars full].
  destruct full; exact S.
Qed.

Lemma passes_push_call (name : string) : passes same (push_call name).
Proof.
  intros m. unfold push_call, bind, get_context.
  destruct (call_stack_depth (context m) <? MAX_CALL_STACK_DEPTH);
    [apply same_push | apply same_refl].
Qed.

Lemma passes_evaluate (expr : string) : passes same (evaluate expr).
Proof.
  intros m. unfold evaluate.
  destruct (evaluate_expression (context m) expr); [apply same_refl | | exact I].
  unfold bind, print_error, longjmp; simpl.
  destruct (error_buf (context m)); [apply same_refl | exact I].
Qed.

Lemma passes_collect_block (prompt : string) (sentinel : string -> bool) :
  passes same (collect_block prompt sentinel).
Proof.
  apply passes_quiet; intros m; unfold collect_block.
  destruct (read_block sentinel (stdin m)) as [[lines rest] prompts]; reflexivity.
Qed.

Lemma passes_collect_array (prompt : string) (sentinel : string -> bool) :
  passes same (collect_array prompt sentinel).
Proof.
  unfold collect_array. apply passes_bind; [apply passes_collect_block|].
  intros lines. destruct (_ <? _); [apply passes_undefined | apply passes_ret].
Qed.

Lemma passes_resume {A : Type} (fuel : nat) (here : jmp_point) (handler : M A) :
  passes same handler -> passes same (resume fuel here handler).
Proof.
  intros Ph. induction fuel as [|fuel IH]; intros m; [exact I|].
  cbn [resume]. specialize (Ph m).
  destruct (handler m) as [a m1|p m1| | |]; auto.
  destruct (jmp_eqb p here); auto.
  specialize (IH m1). destruct (resume fuel here handler m1); auto;
    eapply same_trans; eauto.
Qed.

Lemma passes_on_longjmp {A : Type} (fuel : nat) (here : jmp_point)
  (body handler : M A) :
  passes same body -> passes same handler ->
  passes same (on_longjmp fuel here body handler).
Proof.
  intros Pb Ph m. unfold on_longjmp. specialize (Pb m).
  destruct (body m) as [a m1|p m1| | |]; auto.
  destruct (jmp_eqb p here); auto.
  pose proof (passes_resume fuel here handler Ph m1) as R.
  destruct (resume fuel here handler m1); auto; eapply same_trans; eauto.
Qed.

#[local] Hint Resolve passes_ret passes_get_context passes_emit passes_printf
  passes_print_error passes_print_error_here passes_debug_log passes_fgets
  passes_new_frame passes_undefined passes_defined passes_exit passes_longjmp passes_out_of_fuel
  passes_set_variable passes_push_call passes_evaluate passes_collect_block
  passes_collect_array : claro.

(** Decompose a goal [passes same c] along the structure of [c]. *)
Ltac passes_tac :=
  repeat first
    [ progress auto with claro
    | apply passes_bind; [|intros ?]
    | apply passes_on_longjmp
    | apply passes_modify; intros ?; cbv beta; solve [auto]
    | match goal with
      | |- passes _ (if ?b then _ else _) => destruct b
      | |- passes _ (match ?x with _ => _ end) => destruct x
      | |- passes _ (let (_, _) := ?x in _) => destruct x
      end ].

Section PassInterpreter.

Variable exec : string -> M unit.
Hypothesis passes_exec : forall line, passes same (exec line).

Lemma passes_execute_block (block_lines : list string) :
  passes same (execute_block exec block_lines).
Proof. induction block_lines; cbn [execute_block]; passes_tac. Qed.

Lemma passes_bind_parameters (ps args : list string) :
  passes same (bind_parameters ps args).
Proof.
  revert args; induction ps as [|p ps IH]; intros [|a args];
    cbn [bind_parameters]; passes_tac.
Qed.

Lemma passes_run_body (f : FunctionDef) (body : list string) :
  passes same (run_body exec f body).
Proof. induction body; cbn [run_body]; passes_tac. Qed.

Lemma passes_execute_function (fuel : nat) (f : FunctionDef) (args : list string) :
  passes same (execute_function exec fuel f args).
Proof.
  pose proof passes_bind_parameters. pose proof passes_run_body.
  unfold execute_function, enter_function, leave_function, pop_call.
  passes_tac.
Qed.

Lemma passes_print_tokens (ts : list string) : passes same (print_tokens ts).
Proof. induction ts; cbn [print_tokens]; passes_tac. Qed.

Lemma passes_print_all (texts : list string) : passes same (print_all texts).
Proof. induction texts; cbn [print_all]; passes_tac. Qed.

Lemma passes_repeat_loop (repeat_cmd : string) (i remaining : nat) :
  passes same (repeat_loop exec repeat_cmd i remaining).
Proof.
  revert i; induction remaining; intros i; cbn [repeat_loop]; passes_tac.
Qed.

Lemma passes_while_loop (fuel : nat) (cond_expr : string) (block_lines : list string) :
  passes same (while_loop exec fuel cond_expr block_lines).
Proof.
  pose proof passes_execute_block.
  induction fuel; cbn [while_loop]; passes_tac.
Qed.

Lemma passes_for_loop (fuel : nat) (var : string) (end_val step_val : float)
  (block_lines : list string) :
  passes same (for_loop exec fuel var end_val step_val block_lines).
Proof.
  pose proof passes_execute_block.
  induction fuel; cbn [for_loop]; passes_tac.
Qed.

Lemma passes_cmd_CALL (fuel : nat) (tokens : list string) :
  passes same (cmd_CALL exec fuel tokens).
Proof.
  pose proof passes_execute_function. unfold cmd_CALL. passes_tac.
Qed.

(** The branches, for any relation that CALL passes. *)
Lemma passes_dispatch_when (fuel frame : nat) (line : string) :
  (forall fuel tokens, passes same (cmd_CALL exec fuel tokens)) ->
  passes same (dispatch exec fuel frame line).
Proof.
  intros passes_call.
  pose proof passes_execute_block.
  pose proof passes_print_tokens. pose proof passes_print_all.
  pose proof passes_repeat_loop. pose proof passes_while_loop.
  pose proof passes_for_loop.
  unfold dispatch.
  destruct (List.length (tokenize line) =? 0); [passes_tac|].
  destruct (MAX_LINE_LENGTH <=? _); [passes_tac|].
  apply passes_bind; [passes_tac|intros _].
  repeat match goal with
         | |- passes _ (if ?b then _ else _) => destruct b
         end.
  all: try solve [passes_tac].
  all: try solve [unfold cmd_SET; passes_tac].
  all: try solve [unfold cmd_PRINT; passes_tac].
  all: try solve [unfold cmd_GET; passes_tac].
  all: try solve [unfold cmd_switch; passes_tac].
  all: try solve [unfold cmd_INPUT; passes_tac].
  all: try solve [unfold cmd_REPEAT; passes_tac].
  all: try solve [unfold cmd_IF; passes_tac].
  all: try solve [unfold cmd_WHILE; passes_tac].
  all: try solve [unfold cmd_FOR, for_body; passes_tac].
  all: try solve [unfold cmd_TRY, try_branch, catch_branch; passes_tac].
  all: try solve [unfold cmd_CONCAT; passes_tac].
  all: try solve [apply passes_call].
  all: try solve [unfold cmd_RETURN; passes_tac].
  all: try solve [unfold cmd_STACK; passes_tac].
  all: try solve [unfold cmd_TRACE; passes_tac].
  all: try solve [unfold cmd_SAY; passes_tac].
  - unfold cmd_IMPORT. apply passes_bind; [auto with claro | intros filename].
    intros m.
    destruct (files m _); [apply passes_execute_block | apply passes_print_error_here].
Qed.

End PassInterpreter.

(** The interpreter, for any relation that CALL passes, whatever runs the
    lines of the body. *)
Section PassLine.

Hypothesis passes_call :
  forall exec : string -> M unit,
    (forall line, passes same (exec line)) ->
    forall fuel tokens, passes same (cmd_CALL exec fuel tokens).

Lemma passes_execute_line_when (fuel : nat) :
  forall line, passes same (execute_line fuel line).
Proof.
  induction fuel as [|fuel IH]; intros line; [intros m; exact I|].
  cbn [execute_line].
  apply passes_bind; [apply passes_new_frame|intros frame].
  apply passes_bind; [apply passes_modify; intros c; apply same_error_buf|intros _].
  apply passes_on_longjmp;
    [apply passes_dispatch_when; [exact IH | apply passes_call; exact IH]
    | apply passes_print_error_here].
Qed.

Lemma passes_repl_loop_when (fuel : nat) : passes same (repl_loop fuel).
Proof.
  induction fuel as [|fuel IH]; [intros m; exact I|].
  pose proof (passes_execute_line_when fuel).
  cbn [repl_loop]. passes_tac.
Qed.

Lemma passes_execute_code_from_when (fuel : nat) (lines : list string) :
  (forall c v, same c (set_current_line v c)) ->
  forall i, passes same (execute_code_from fuel lines i).
Proof.
  intros Line. pose proof (passes_execute_line_when fuel).
  induction lines as [|l lines IH]; intros i; cbn [execute_code_from]; passes_tac.
Qed.

Lemma passes_main_run_when (fuel : nat) (argv1 : option string)
  (fs : string -> option (list string)) :
  (forall c v, same c (set_current_line v c)) ->
  (forall c v, same c (set_code_lines v c)) ->
  passes same
    (on_longjmp 1 (mkJmp 0 MainSite)
       (match argv1 with
        | Some name =>
            match fs name with
            | None => print_error "Could not open file." (-1)%Z ;; ret 1%Z
            | Some chunks =>
                modify_context (set_code_lines chunks) ;;
                execute_code fuel ;; ret 0%Z
            end
        | None => repl fuel ;; ret 0%Z
        end)
       (print_error_here "An unrecoverable error occurred." ;; exit 1%Z)).
Proof.
  intros Line Code.
  pose proof (passes_execute_code_from_when fuel) as PC.
  pose proof passes_repl_loop_when.
  unfold execute_code, repl. passes_tac; try (apply PC, Line).
Qed.

End PassLine.

Lemma passes_execute_line (fuel : nat) :
  forall line, passes same (execute_line fuel line).
Proof. apply passes_execute_line_when. exact passes_cmd_CALL. Qed.

Lemma passes_repl_loop (fuel : nat) : passes same (repl_loop fuel).
Proof. apply passes_repl_loop_when. exact passes_cmd_CALL. Qed.

Lemma passes_main_run (fuel : nat) (argv1 : option string)
  (fs : string -> option (list string)) :
  (forall c v, same c (set_current_line v c)) ->
  (forall c v, same c (set_code_lines v c)) ->
  passes same
    (on_longjmp 1 (mkJmp 0 MainSite)
       (match argv1 with
        | Some name =>
            match fs name with
            | None => print_error "Could not open file." (-1)%Z ;; ret 1%Z
            | Some chunks =>
                modify_context (set_code_lines chunks) ;;
                execute_code fuel ;; ret 0%Z
            end
        | None => repl fuel ;; ret 0%Z
        end)
       (print_error_here "An unrecoverable error occurred." ;; exit 1%Z)).
Proof. apply passes_main_run_when. exact passes_cmd_CALL. Qed.

End Pass.

(** *** The names of the store stay distinct *)

Lemma store_variable_distinct (vars : list Var) (name value : string) (type : VarType) :
  NoDup (map var_name vars) ->
  NoDup (map var_name (fst (store_variable vars name value type))).
Proof.
  intros D. unfold store_variable.
  pose proof (update_variable_lookup vars name value type) as U.
  destruct (update_variable vars name value type) as [vars'|] eqn:E.
  - cbn [fst]. rewrite (update_variable_names _ _ _ _ _ E). exact D.
  - destruct (List.length vars <? MAX_VARIABLES); cbn [fst]; [|exact D].
    rewrite map_app. cbn [map var_name].
    apply NoDup_app; [exact D | repeat constructor; intros [] |].
    intros a In1 [E' | []]. subst a.
    apply (proj1 (lookup_variable_none vars name) U), In1.
Qed.

Lemma firstn_distinct {A : Type} (n : nat) (l : list A) : NoDup l -> NoDup (firstn n l).
Proof.
  intros D. rewrite <- (firstn_skipn n l) in D. apply (NoDup_app_remove_r _ _ D).
Qed.

Lemma passes_distinct_names `{Libc} (fuel : nat) (line : string) :
  passes (fun c c' => distinct_names c -> distinct_names c') (execute_line fuel line).
Proof.
  apply passes_execute_line; unfold distinct_names; try (intros; assumption); auto.
  - intros c name value type. cbn. apply store_variable_distinct.
  - intros c n. cbn. rewrite <- firstn_map. apply firstn_distinct.
Qed.

Lemma passes_same_position `{Libc} (fuel : nat) (line : string) :
  passes same_position (execute_line fuel line).
Proof.
  apply passes_execute_line; unfold same_position; try (intros; split; reflexivity).
  intros a b c [A1 A2] [B1 B2]. split; congruence.
Qed.

(** X25.  The store never holds two variables of the same name: every
    line keeps the names distinct, whatever way it ends, and so does the
    whole program from its start. *)
Theorem store_names_stay_distinct :
  (forall (L : Libc) (fuel : nat) (line : string) (m : Machine),
      distinct_names (context m) ->
      match execute_line fuel line m with
      | Done _ m' | Longjmp _ m' | Exit _ m' => distinct_names (context m')
      | Undefined | OutOfFuel => True
      end)
  /\ (forall (L : Libc) (fuel : nat) (argv1 : option string) (indeterminate : float)
             (input : list string) (fs : string -> option (list string)),
        match main fuel argv1 indeterminate input fs with
        | Done _ m' | Exit _ m' => distinct_names (context m')
        | _ => True
        end).
Proof.
  split.
  - intros L fuel line m D.
    pose proof (passes_distinct_names fuel line m) as P.
    destruct (execute_line fuel line m); auto.
  - intros L fuel argv1 indeterminate input fs. unfold main.
    assert (P : passes (fun c c' => distinct_names c -> distinct_names c')
                  (on_longjmp 1 (mkJmp 0 MainSite)
                     (match argv1 with
                      | Some name =>
                          match fs name with
                          | None => print_error "Could not open file." (-1)%Z ;; ret 1%Z
                          | Some chunks =>
                              modify_context (set_code_lines chunks) ;;
                              execute_code fuel ;; ret 0%Z
                          end
                      | None => repl fuel ;; ret 0%Z
                      end)
                     (print_error_here "An unrecoverable error occurred." ;; exit 1%Z))).
    { apply passes_main_run; unfold distinct_names; try (intros; assumption); auto.
      - intros c name value type. cbn. apply store_variable_distinct.
      - intros c n. cbn. rewrite <- firstn_map. apply firstn_distinct. }
    specialize (P (start_machine indeterminate input fs)).
    destruct (on_longjmp _ _ _ _ _); auto; apply P; constructor.
Qed.

Lemma store_names_witness :
  let m := with_context
             (set_variables [mkVariable "x" TYPE_FLOAT "1"; mkVariable "y" TYPE_FLOAT "2"]
                (init_context 0%float))
             (machine_with 0%float [] []) in
  distinct_names (context m)
  /\ match execute_line 2 "SET x = y + 1" m with
     | Done _ m' =>
         distinct_names (context m') /\ get_variable (context m') "x" = Some "3"
     | _ => False
     end.
Proof.
  intros m.
  assert (D : distinct_names (context m)).
  { unfold distinct_names. cbn. constructor.
    - cbn. intros [E | []]. discriminate E.
    - constructor; [intros [] | constructor]. }
  split; [exact D|].
  pose proof (proj1 store_names_stay_distinct c99_libc 2 "SET x = y + 1" m D) as P.
  assert (Run : exists m', execute_line 2 "SET x = y + 1" m = Done tt m'
                           /\ get_variable (context m') "x" = Some "3").
  { eexists. split; vm_compute; reflexivity. }
  destruct Run as (m' & Run & Get). rewrite Run in P |- *.
  split; [exact P | exact Get].
Defined.

Lemma execute_code_from_end `{Libc} (fuel : nat) (lines : list string) :
  forall (i : Z) (m m' : Machine),
    execute_code_from fuel lines i m = Done tt m' ->
    current_line (context m') = (i + Z.of_nat (List.length lines))%Z.
Proof.
  induction lines as [|l lines IH]; intros i m m' Run.
  - cbn in Run. injection Run as <-. cbn. lia.
  - cbn [execute_code_from] in Run. unfold bind at 1, modify_context at 1 in Run.
    unfold bind at 1, debug_log at 1 in Run. unfold bind at 1 in Run.
    destruct (execute_line fuel l _) as [[] m1| | | |]; try discriminate Run.
    rewrite (IH _ _ _ Run). cbn [List.length]. lia.
Qed.

(** X26.  No line changes [current_line]: the branches of [execute_line]
    never assign it.  At the prompt it stays what [init_context] made it,
    so every report that carries a line number says line 1; in a file it is
    the index of the line being run, also for the lines of a block read
    while that line runs, and after the last line it is the number of
    lines. *)
Theorem current_line_is_left_alone :
  (forall (L : Libc) (fuel : nat) (line : string) (m : Machine),
      match execute_line fuel line m with
      | Done _ m' | Longjmp _ m' | Exit _ m' =>
          current_line (context m') = current_line (context m)
      | Undefined | OutOfFuel => True
      end)
  /\ (forall (L : Libc) (fuel : nat) (m : Machine),
        match repl_loop fuel m with
        | Done _ m' | Longjmp _ m' | Exit _ m' =>
            current_line (context m') = current_line (context m)
        | Undefined | OutOfFuel => True
        end)
  /\ (forall (L : Libc) (fuel : nat) (lines : list string) (i : Z) (m m' : Machine),
        execute_code_from fuel lines i m = Done tt m' ->
        current_line (context m') = (i + Z.of_nat (List.length lines))%Z).
Proof.
  split; [|split].
  - intros L fuel line m. pose proof (passes_same_position fuel line m) as P.
    destruct (execute_line fuel line m); auto; apply P.
  - intros L fuel m.
    assert (P : passes same_position (repl_loop fuel)).
    { apply passes_repl_loop; unfold same_position; try (intros; split; reflexivity).
      intros a b c [A1 A2] [B1 B2]. split; congruence. }
    specialize (P m). destruct (repl_loop fuel m); auto; apply P.
  - intros L. apply execute_code_from_end.
Qed.

Lemma current_line_witness :
  exists m',
    execute_code_from 2 ["SET x = 1"; "GET x"; "NOSUCH"] 0%Z (machine_with 0%float [] [])
    = Done tt m'
    /\ current_line (context m') = 3%Z.
Proof.
  eexists. split; [vm_compute; reflexivity|].
  apply (proj2 (proj2 current_line_is_left_alone) c99_libc 2
           ["SET x = 1"; "GET x"; "NOSUCH"] 0%Z (machine_with 0%float [] [])).
  vm_compute. reflexivity.
Defined.


(** ** Capacity: FOR on a full store *)

Lemma set_variable_at_the_limit (m : Machine) (name value : string) (type : VarType) :
  get_variable (context m) name = None ->
  variable_count (context m) = MAX_VARIABLES ->
  exists m',
    set_variable name value type m = Done tt m'
    /\ variables (context m') = variables (context m)
    /\ stdin m' = stdin m
    /\ output m' = output m ++ error_events (context m) MSG_VARIABLE_LIMIT (-1).
Proof.
  intros Absent Full. unfold get_variable in Absent.
  assert (U : update_variable (variables (context m)) name value type = None).
  { clear Full. induction (variables (context m)) as [|v vars IH]; [reflexivity|].
    simpl in *. destruct (strcmp_eq (var_name v) name); [discriminate|].
    rewrite (IH Absent); reflexivity. }
  unfold set_variable, bind, get_context, store_variable. rewrite U.
  unfold variable_count in Full. rewrite Full.
  change (MAX_VARIABLES <? MAX_VARIABLES) with false.
  eexists; split; [reflexivity | split; [|split]]; reflexivity.
Qed.

Section FullStore.

Context `{Libc}.

(** The FOR branch stores the start value and then reads the loop variable
    back without testing the pointer: when the store is full and the name is
    new, [get_variable] returns NULL and [atof] is called on it. *)
Lemma for_on_a_full_store (fuel : nat) (line c var s to e b : string)
  (rest : list string) (m : Machine) (start_val end_val : float) (r1 r2 : string)
  (pre : list string) (last : string) (post : list string) :
  tokenize line = c :: var :: "=" :: s :: to :: e :: b :: rest ->
  upcase c = "FOR" ->
  strcasecmp_eq to "TO" = true ->
  strcasecmp_eq b "STEP" = false ->
  strcasecmp_eq b "BEGIN" = true ->
  evaluate_expression (context m) s = PVal start_val r1 ->
  evaluate_expression (context m) e = PVal end_val r2 ->
  stdin m = pre ++ last :: post ->
  no_sentinel (is_sentinel "ENDFOR") pre = true ->
  is_sentinel "ENDFOR" (trim_whitespace (strip_newline last)) = true ->
  List.length pre <= MAX_BLOCK_LINES ->
  get_variable (context m) var = None ->
  variable_count (context m) = MAX_VARIABLES ->
  execute_line (S (S fuel)) line m = Undefined.
Proof.
  intros T C To NoStep Begin Es Ee In N Sn Short Absent Full.
  apply execute_line_undefined.
  rewrite (dispatch_FOR _ _ _ line c _ _ T C).
  rewrite (for_entry (execute_line (S fuel)) (S fuel) c var s to e b rest
             (logged "FOR" (enter_line m)) start_val end_val r1 r2 To NoStep Begin)
    by (rewrite evaluate_expression_logged; assumption).
  unfold bind at 1. unfold printf at 1, emit at 1.
  unfold bind at 1.
  rewrite (collect_array_run "... " (is_sentinel "ENDFOR") pre last post _ N Sn)
    by exact In.
  replace (MAX_BLOCK_LINES <? List.length pre) with false
    by (symmetry; apply Nat.ltb_ge; exact Short).
  match goal with
  | |- bind (set_variable _ _ _) _ ?m0 = _ =>
      destruct (set_variable_at_the_limit m0 var (format_g start_val) TYPE_FLOAT
                  Absent Full) as (m1 & Sto & Vars & _ & _)
  end.
  rewrite (bind_done _ _ _ m1 tt Sto).
  rewrite for_loop_round. unfold get_variable. rewrite Vars.
  unfold get_variable in Absent. cbn in Absent |- *. rewrite Absent. reflexivity.
Qed.

End FullStore.

(** C5 (what the code does).  [set_variable] on a full store reports the
    limit, leaves the store as it is and returns; a SET line on a full store
    is such a report and the program goes on.  The FOR branch does not
    expect the store to refuse its variable: it reads the variable back and
    passes the NULL pointer of [get_variable] to [atof].  So a FOR line
    whose variable is new, once the store holds MAX_VARIABLES variables,
    does not continue: the behaviour of the program is undefined. *)
Theorem full_store_is_reported_but_FOR_does_not_continue :
  (forall (m : Machine) (name value : string) (type : VarType),
      get_variable (context m) name = None ->
      variable_count (context m) = MAX_VARIABLES ->
      exists m',
        set_variable name value type m = Done tt m'
        /\ variables (context m') = variables (context m)
        /\ stdin m' = stdin m
        /\ output m' = output m ++ error_events (context m) MSG_VARIABLE_LIMIT (-1))
  /\
  (forall (L : Libc) (fuel : nat) (line c var s to e b : string) (rest : list string)
          (m : Machine) (start_val end_val : float) (r1 r2 : string)
          (pre : list string) (last : string) (post : list string),
      tokenize line = c :: var :: "=" :: s :: to :: e :: b :: rest ->
      upcase c = "FOR" ->
      strcasecmp_eq to "TO" = true ->
      strcasecmp_eq b "STEP" = false ->
      strcasecmp_eq b "BEGIN" = true ->
      evaluate_expression (context m) s = PVal start_val r1 ->
      evaluate_expression (context m) e = PVal end_val r2 ->
      stdin m = pre ++ last :: post ->
      no_sentinel (is_sentinel "ENDFOR") pre = true ->
      is_sentinel "ENDFOR" (trim_whitespace (strip_newline last)) = true ->
      List.length pre <= MAX_BLOCK_LINES ->
      get_variable (context m) var = None ->
      variable_count (context m) = MAX_VARIABLES ->
      execute_line (S (S fuel)) line m = Undefined)
  /\
  main 200 None 0%float
    (fill_store ++ ["FOR i = 1 TO 3 BEGIN"; "PRINT $i"; "ENDFOR"; "PRINT after"])
    no_files
  = Undefined
  /\
  (exists m',
      main 200 None 0%float (fill_store ++ ["SET w = 1"; "PRINT after"]) no_files
      = Done 0%Z m'
      /\ variable_count (context m') = MAX_VARIABLES
      /\ get_variable (context m') "w" = None
      /\ skipn (List.length (output m') - 6) (output m') =
         error_events (context m') MSG_VARIABLE_LIMIT (-1)
         ++ [Stdout ("Variable 'w' set to '1'" +++ NL);
             Stdout (COLOR_PROMPT +++ "Claro> " +++ COLOR_RESET);
             Stdout "after "; Stdout NL;
             Stdout (COLOR_PROMPT +++ "Claro> " +++ COLOR_RESET)]).
Proof.
  split; [|split; [|split]].
  - exact set_variable_at_the_limit.
  - intros L. exact (for_on_a_full_store).
  - vm_compute. reflexivity.
  - eexists. split; [vm_compute; reflexivity|].
    split; [vm_compute; reflexivity|].
    split; vm_compute; reflexivity.
Qed.

Lemma full_store_witness :
  let m := with_context (set_variables full_store (init_context 0%float))
             (machine_with 0%float [] ["PRINT $i"; "ENDFOR"; "PRINT after"]) in
  variable_count (context m) = MAX_VARIABLES
  /\ execute_line 2 "FOR i = 1 TO 3 BEGIN" m = Undefined
  /\ printed (execute_line 2 "SET i = 1" m)
     = error_events (context m) MSG_VARIABLE_LIMIT (-1)
       ++ [Stdout ("Variable 'i' set to '1'" +++ NL)].
Proof.
  intros m.
  destruct full_store_is_reported_but_FOR_does_not_continue as (_ & Loop & _ & _).
  split; [reflexivity|]. split.
  - apply (Loop c99_libc 0 "FOR i = 1 TO 3 BEGIN" "FOR" "i" "1" "TO" "3" "BEGIN" [] m
             1%float 3%float EmptyString EmptyString
             ["PRINT $i"] "ENDFOR" ["PRINT after"]);
      try reflexivity.
    unfold MAX_BLOCK_LINES. cbn. lia.
  - vm_compute. reflexivity.
Defined.


(** ** A command word that does not fit [command] *)

Section LongCommand.

Context `{Libc}.

Lemma dispatch_long_command (exec : string -> M unit) (fuel frame : nat)
  (line c : string) (rest : list string) (m : Machine) :
  tokenize line = c :: rest ->
  MAX_LINE_LENGTH <= String.length c ->
  dispatch exec fuel frame line m = Undefined.
Proof.
  intros T Long. unfold dispatch. rewrite T.
  cbn [List.length Nat.eqb tok nth].
  replace (MAX_LINE_LENGTH <=? String.length c) with true
    by (symmetry; apply Nat.leb_le; exact Long).
  reflexivity.
Qed.

End LongCommand.

(** X29.  The first token of a line is copied into [command], an array of
    MAX_LINE_LENGTH bytes, with [strncpy], which writes no terminator when
    the token has MAX_LINE_LENGTH characters or more; the loop that folds
    [command] to upper case then runs past the array: undefined behaviour,
    before any branch is chosen.  A line of MAX_LINE_LENGTH - 1 characters,
    the longest that [fgets] delivers, that opens a quote and never closes
    it has such a first token: the text after the quote with S: in front. *)
Theorem long_command_word_overruns_its_buffer :
  forall (L : Libc) (fuel : nat) (m : Machine),
    (forall (line c : string) (rest : list string),
        tokenize line = c :: rest ->
        MAX_LINE_LENGTH <= String.length c ->
        execute_line (S fuel) line m = Undefined)
    /\ (forall text : string,
          no_quote text = true ->
          String.length text = MAX_LINE_LENGTH - 2 ->
          String.length (QUOTE +++ text) = MAX_LINE_LENGTH - 1
          /\ tokenize (QUOTE +++ text) = ["S:" +++ text]
          /\ execute_line (S fuel) (QUOTE +++ text) m = Undefined).
Proof.
  intros L fuel m.
  assert (Long : forall (line c : string) (rest : list string),
             tokenize line = c :: rest ->
             MAX_LINE_LENGTH <= String.length c ->
             execute_line (S fuel) line m = Undefined).
  { intros line c rest T Len. apply execute_line_undefined.
    exact (dispatch_long_command _ _ _ line c rest _ T Len). }
  split; [exact Long|].
  intros text N Len.
  assert (T : tokenize (QUOTE +++ text) = ["S:" +++ text]).
  { apply tokenize_open_quote; [exact N | rewrite Len; unfold MAX_LINE_LENGTH; lia]. }
  split; [|split; [exact T|]].
  - change (QUOTE +++ text) with (String (ascii_of_nat 34) text).
    cbn [String.length]. rewrite Len. reflexivity.
  - apply (Long _ _ _ T).
    change ("S:" +++ text) with (String "S" (String ":" text)).
    cbn [String.length]. rewrite Len. unfold MAX_LINE_LENGTH. lia.
Qed.

Lemma long_command_witness :
  execute_line 1 (QUOTE +++ C99.zeros 254) (machine_with 0%float [] []) = Undefined.
Proof.
  destruct (long_command_word_overruns_its_buffer c99_libc 0 (machine_with 0%float [] []))
    as [_ Open].
  destruct (Open (C99.zeros 254)) as (_ & _ & Run).
  - vm_compute. reflexivity.
  - vm_compute. reflexivity.
  - exact Run.
Defined.


(** ** No run is inside a function *)

Section Outside.

Context `{Libc}.

Lemma stays_outside_CALL (exec : string -> M unit) (fuel : nat) (tokens : list string) :
  passes stays_outside (cmd_CALL exec fuel tokens).
Proof.
  intros m. unfold cmd_CALL, bind, get_context.
  destruct (find_function (context m) (tok tokens 1)) as [f|] eqn:Found.
  - assert (Some_function : functions (context m) <> []).
    { unfold find_function in Found. intros Empty. rewrite Empty in Found.
      discriminate Found. }
    destruct (execute_function exec fuel f (skipn 2 tokens) m) as [r m1|p m1|z m1| |];
      try exact I; intros [Empty _]; contradiction.
  - unfold printf, emit. intros Out. exact Out.
Qed.

Lemma stays_outside_execute_line (fuel : nat) (line : string) :
  passes stays_outside (execute_line fuel line).
Proof.
  apply passes_execute_line_when; unfold stays_outside, outside_function;
    try (intros; assumption).
  - intros a b c AB BC Out. apply BC, AB, Out.
  - intros exec _ fuel' tokens. apply stays_outside_CALL.
Qed.

End Outside.

(** X30.  No run is ever inside a function.  A line that starts with an
    empty registry, the active-function flag off and an empty call stack
    leaves them so, however it ends; [init_context] makes them so; hence
    they are so whenever [main] returns or exits.  In such a context every
    RETURN with an expression is reported as outside a function, and every
    CALL prints that the function is not defined. *)
Theorem no_run_is_inside_a_function :
  (forall (L : Libc) (fuel : nat) (line : string) (m : Machine),
      outside_function (context m) ->
      match execute_line fuel line m with
      | Done _ m' | Longjmp _ m' | Exit _ m' => outside_function (context m')
      | Undefined | OutOfFuel => True
      end)
  /\ (forall (L : Libc) (fuel : nat) (argv1 : option string) (indeterminate : float)
             (input : list string) (fs : string -> option (list string)),
        outside_function (context (start_machine indeterminate input fs))
        /\ match main fuel argv1 indeterminate input fs with
           | Done _ m' | Exit _ m' => outside_function (context m')
           | _ => True
           end)
  /\ (forall (L : Libc) (fuel : nat) (line c e : string) (es : list string)
             (m : Machine),
        outside_function (context m) ->
        tokenize line = c :: e :: es ->
        upcase c = "RETURN" ->
        execute_line (S fuel) line m =
        Done tt (add_output
                   (error_events (context m) MSG_RETURN_OUTSIDE
                      (current_line (context m) + 1))
                   (logged "RETURN" (enter_line m))))
  /\ (forall (L : Libc) (fuel : nat) (line c name : string) (args : list string)
             (m : Machine),
        outside_function (context m) ->
        tokenize line = c :: name :: args ->
        upcase c = "CALL" ->
        execute_line (S fuel) line m =
        Done tt (add_output [Stdout ("Function '" +++ name +++ "' not defined." +++ NL)]
                   (logged "CALL" (enter_line m)))).
Proof.
  split; [|split; [|split]].
  - intros L fuel line m Out.
    pose proof (stays_outside_execute_line fuel line m) as P.
    destruct (execute_line fuel line m); auto.
  - intros L fuel argv1 indeterminate input fs.
    assert (Start : outside_function (context (start_machine indeterminate input fs)))
      by (repeat split).
    split; [exact Start|]. unfold main.
    assert (P : passes stays_outside
                  (on_longjmp 1 (mkJmp 0 MainSite)
                     (match argv1 with
                      | Some name =>
                          match fs name with
                          | None => print_error "Could not open file." (-1)%Z ;; ret 1%Z
                          | Some chunks =>
                              modify_context (set_code_lines chunks) ;;
                              execute_code fuel ;; ret 0%Z
                          end
                      | None => repl fuel ;; ret 0%Z
                      end)
                     (print_error_here "An unrecoverable error occurred." ;; exit 1%Z))).
    { apply passes_main_run_when; unfold stays_outside, outside_function;
        try (intros; assumption).
      - intros a b c AB BC Out. apply BC, AB, Out.
      - intros exec _ fuel' tokens. apply stays_outside_CALL. }
    specialize (P (start_machine indeterminate input fs)).
    destruct (on_longjmp _ _ _ _ _); auto.
  - intros L fuel line c e es m (_ & Flag & _) T C.
    exact (return_outside_function fuel line c e es m T C Flag).
  - intros L fuel line c name args m (Empty & _ & _) T C.
    apply (dispatch_CALL_unknown fuel line c name args m T C).
    unfold find_function. rewrite Empty. reflexivity.
Qed.

Lemma outside_function_witness :
  let m := machine_with 0%float [] [] in
  outside_function (context m)
  /\ printed (execute_block (execute_line 1) ["CALL f 1"; "RETURN 5"] m)
     = [Stdout ("Function 'f' not defined." +++ NL)]
       ++ error_events (init_context 0%float) MSG_RETURN_OUTSIDE 1.
Proof.
  intros m.
  destruct no_run_is_inside_a_function as (Line & _ & Return & Call).
  assert (Out : outside_function (context m)) by (repeat split).
  split; [exact Out|].
  cbn [execute_block]. unfold bind at 1.
  rewrite (Call c99_libc 0 "CALL f 1" "CALL" "f" ["1"] m Out eq_refl eq_refl).
  unfold bind at 1.
  match goal with
  | |- context [execute_line 1 "RETURN 5" ?m1] =>
      assert (Out1 : outside_function (context m1)) by (repeat split);
      rewrite (Return c99_libc 0 "RETURN 5" "RETURN" "5" [] m1 Out1 eq_refl eq_refl)
  end.
  reflexivity.
Defined.
